(** * DistrictBuilder: the versioned district store and the boundary edit

    A shallow embedding of [redistricting/models.py]: the district
    snapshots of a plan, [Plan.get_districts_at_version],
    [Plan.add_geounits], [District.delta_stats],
    [District.is_latest_version], [Geounit.get_mixed_geounits], the
    [pre_save]/[post_save] handlers and the two geometry helpers
    [empty_geom] and [enforce_multi].

    The database is an explicit value threaded through a small
    state-and-exception monad; the GEOS geometry engine and the PostGIS
    predicates are an interface (a type class), since the Python code
    only calls them. *)

From stdpp Require Import gmap list strings sorting pretty.
From Stdlib Require Import ZArith Lia.

Local Open Scope Z_scope.

(** ** Python values *)

(** The exceptions the modelled code can raise. *)
Inductive PyError : Set :=
| GEOSException
| UnboundLocalError
| AttributeError
| ValidationError
| DoesNotExist
| DatabaseError
| IntegrityError.

Inductive Result (A : Type) : Type :=
| Ok (a : A)
| Raise (e : PyError).
Arguments Ok {A} a.
Arguments Raise {A} e.

(** [geom_type] of a GEOS geometry. *)
Inductive GeomType : Set :=
| Point | LineString | LinearRing | Polygon
| MultiPoint | MultiLineString | MultiPolygon | GeometryCollection.

Definition GeomType_eqb (a b : GeomType) : bool :=
  match a, b with
  | Point, Point | LineString, LineString | LinearRing, LinearRing
  | Polygon, Polygon | MultiPoint, MultiPoint
  | MultiLineString, MultiLineString | MultiPolygon, MultiPolygon
  | GeometryCollection, GeometryCollection => true
  | _, _ => false
  end.

(** ** The geometry engine

    What [models.py] uses of [django.contrib.gis.geos] and of PostGIS.
    The three set operations can raise [GEOSException]; [py_len] is
    Python's [len()], which decides the truth value of a geometry
    object ([if geom:]). *)
Class GeometryEngine := {
  Geometry : Type;
  geom_type : Geometry → GeomType;
  srid : Geometry → Z;
  set_srid : Geometry → Z → Geometry;
  empty : Geometry → bool;
  py_len : Geometry → nat;
  members : Geometry → list Geometry;
  from_wkt_point : Z → Z → Geometry;
  MultiPolygon_of : Geometry → Geometry;
  mp_append : Geometry → Geometry → Geometry;
  union : Geometry → Geometry → Result Geometry;
  difference : Geometry → Geometry → Result Geometry;
  intersection : Geometry → Geometry → Result Geometry;
  overlaps : Geometry → Geometry → bool;
  contains : Geometry → Geometry → bool;
  simplify : Geometry → Geometry;
  unionagg : list Geometry → option Geometry;
  st_within : Geometry → Geometry → bool;
  st_intersects : Geometry → Geometry → bool
}.

(** ** Exceptions without state *)

Definition rbind {A B} (r : Result A) (f : A → Result B) : Result B :=
  match r with
  | Ok a => f a
  | Raise e => Raise e
  end.

(** [try: body except GEOSException: handler]; any other exception
    passes through. *)
Definition try_GEOSException {A} (body handler : Result A) : Result A :=
  match body with
  | Raise GEOSException => handler
  | r => r
  end.

(** Attribute access or a method call on a value that may be [None]. *)
Definition attr {A} (o : option A) : Result A :=
  match o with
  | Some a => Ok a
  | None => Raise AttributeError
  end.

Declare Scope result_scope.
Delimit Scope result_scope with result.
Notation "x <- r ;; k" := (rbind r (λ x, k))
  (at level 100, r at next level, right associativity) : result_scope.

(** ** [sorted(list, key=...)]

    Python's [sorted] is stable, and a stable sort has one possible
    result; insertion from the right computes it. *)
Fixpoint insert_sorted {A} (key : A → Z) (x : A) (l : list A) : list A :=
  match l with
  | [] => [x]
  | y :: l' =>
      if bool_decide (key x ≤ key y) then x :: y :: l'
      else y :: insert_sorted key x l'
  end.

Definition sorted {A} (key : A → Z) (l : list A) : list A :=
  foldr (insert_sorted key) [] l.

(** [aggregate(Max(...))]: [None] over no rows. *)
Definition Max (l : list Z) : option Z :=
  match l with
  | [] => None
  | x :: l' => Some (foldl Z.max x l')
  end.

(** [aggregate(Sum(...))]: [None] over no rows. *)
Definition Sum (l : list Z) : option Z :=
  match l with
  | [] => None
  | _ => Some (foldr Z.add 0 l)
  end.

(** Truth value of an aggregate: [None] and zero are false. *)
Definition truthy_number (o : option Z) : bool :=
  match o with
  | None => false
  | Some n => negb (n =? 0)
  end.

(** ** The data model *)

Section Model.
Context `{GeometryEngine}.

(** Truth value of a geometry attribute: [None] is false, and so is a
    geometry object whose [len()] is zero. *)
Definition truthy (g : option Geometry) : bool :=
  match g with
  | None => false
  | Some g => negb (Nat.eqb (py_len g) 0)
  end.

(** A row of [redistricting_geounit]. *)
Record Geounit := mkGeounit {
  geounit_id : Z;
  geounit_geom : Geometry;
  geounit_center : Geometry;
  geounit_geolevel : Z
}.

(** [Geounit(id=row[0], geom=geom)]: the objects the containment search
    returns carry the id and the geometry only. *)
Record UnitRef := mkUnitRef {
  unit_id : Z;
  unit_geom : Geometry
}.

(** [Characteristic]: [number] is a fixed-point decimal with four
    places, kept as an integer count of 1/10000. *)
Record Characteristic := mkCharacteristic {
  char_subject : Z;
  char_geounit : Z;
  char_number : Z
}.

Record Plan := mkPlan {
  plan_pk : option Z;
  plan_name : string;
  plan_version : Z
}.

(** [District]. [district_id] is a [PositiveIntegerField]; the value
    the [pre_save] handler tests with [not district.district_id] is
    kept as [0] ([None] and [0] are both false, and the handler
    replaces either). *)
Record District := mkDistrict {
  district_pk : option Z;
  district_id : Z;
  district_name : string;
  district_plan : option Z;
  district_geom : option Geometry;
  district_simple : option Geometry;
  district_version : Z
}.

(** [ComputedCharacteristic]: [number] is kept as the count of 1/10000,
    as in [Characteristic]. *)
Record ComputedCharacteristic := mkComputed {
  cc_pk : option Z;
  cc_subject : Z;
  cc_district : option Z;
  cc_number : Z
}.

(** The tables an edit only reads, with the two settings. Subjects are
    listed in their [sort_key] order. *)
Record Reference := mkReference {
  geolevel_rows : list Z;
  geounit_rows : list Geounit;
  subject_rows : list Z;
  characteristic_rows : list Characteristic;
  BASE_GEOLEVEL : Z;
  MAX_DISTRICTS : Z
}.

(** The tables an edit writes, each with the sequence of its primary
    key. *)
Record Database := mkDatabase {
  plan_rows : list Plan;
  district_rows : list District;
  computed_rows : list ComputedCharacteristic;
  plan_seq : Z;
  district_seq : Z;
  computed_seq : Z
}.

(** Attribute assignment on the in-memory objects. *)
Definition Plan_with_pk (p : Plan) (k : option Z) : Plan :=
  mkPlan k (plan_name p) (plan_version p).

Definition Plan_with_version (p : Plan) (v : Z) : Plan :=
  mkPlan (plan_pk p) (plan_name p) v.

Definition District_with_pk (d : District) (k : option Z) : District :=
  mkDistrict k (district_id d) (district_name d) (district_plan d)
    (district_geom d) (district_simple d) (district_version d).

Definition District_with_district_id (d : District) (i : Z) : District :=
  mkDistrict (district_pk d) i (district_name d) (district_plan d)
    (district_geom d) (district_simple d) (district_version d).

Definition District_with_geom (d : District) (g s : option Geometry) : District :=
  mkDistrict (district_pk d) (district_id d) (district_name d) (district_plan d)
    g s (district_version d).

Definition District_with_version (d : District) (v : Z) : District :=
  mkDistrict (district_pk d) (district_id d) (district_name d) (district_plan d)
    (district_geom d) (district_simple d) v.

(** ** The database monad

    A call runs on a database and ends in a value or an exception; the
    writes made before an exception stay (the code opens no
    transaction). *)
Definition M (A : Type) : Type := Database → Result A * Database.

Definition ret {A} (a : A) : M A := λ db, (Ok a, db).

Definition raise {A} (e : PyError) : M A := λ db, (Raise e, db).

Definition bind {A B} (m : M A) (f : A → M B) : M B :=
  λ db, match m db with
        | (Ok a, db') => f a db'
        | (Raise e, db') => (Raise e, db')
        end.

Definition lift {A} (r : Result A) : M A := λ db, (r, db).

Definition get_db : M Database := λ db, (Ok db, db).

Definition put_db (db : Database) : M unit := λ _, (Ok tt, db).

End Model.

Declare Scope db_scope.
Delimit Scope db_scope with db.
Notation "x <- m ;; k" := (bind m (λ x, k))
  (at level 100, m at next level, right associativity) : db_scope.

(** ** Geometry helpers and the containment search *)

Section Containment.
Context `{GeometryEngine}.
Variable ref : Reference.

Local Open Scope result_scope.

(** [empty_geom(srid)]: the intersection of two distinct points, tagged
    with the spatial reference. *)
Definition empty_geom (srid : Z) : Result Geometry :=
  geom <- intersection (from_wkt_point 0 0) (from_wkt_point 1 1) ;;
  Ok (set_srid geom srid).

(** [enforce_multi(geom)]. *)
Definition enforce_multi (geom : option Geometry) : Result (option Geometry) :=
  match geom with
  | Some g =>
      if truthy geom then
        match geom_type g with
        | MultiPolygon => Ok geom
        | Polygon => Ok (Some (MultiPolygon_of g))
        | _ => e <- empty_geom (srid g) ;; Ok (Some e)
        end
      else Ok geom
  | None => Ok geom
  end.

Definition unit_of (u : Geounit) : UnitRef :=
  mkUnitRef (geounit_id u) (geounit_geom u).

(** The [Geounit] objects built from the rows of a query on
    [redistricting_geounit]. *)
Definition select_units (where_ : Geounit → bool) : list UnitRef :=
  unit_of <$> filter (λ u, where_ u = true) (geounit_rows ref).

(** The [WHERE] clause of the query at the requested geolevel. *)
Definition seed_where (geounit_ids : list Z) (level : Z) (simple : Geometry)
    (inside : bool) (u : Geounit) : bool :=
  bool_decide (geounit_id u ∈ geounit_ids) &&
  (if inside then
     if negb (level =? BASE_GEOLEVEL ref)
     then st_within (geounit_geom u) simple
     else st_intersects (geounit_center u) simple
   else
     if negb (level =? BASE_GEOLEVEL ref)
     then negb (st_intersects (geounit_geom u) simple)
     else negb (st_intersects (geounit_center u) simple)).

(** The [WHERE] clause of the query at a finer geolevel. *)
Definition level_where (level : Z) (simple : Geometry) (u : Geounit) : bool :=
  (geounit_geolevel u =? level) &&
  (if level =? BASE_GEOLEVEL ref
   then st_intersects (geounit_center u) simple
   else st_within (geounit_geom u) simple).

(** The running union of the geometries selected so far; the calls to
    [union.union] are not inside a [try]. *)
Fixpoint union_units (union_ : option Geometry) (units : list UnitRef)
    : Result (option Geometry) :=
  match units with
  | [] => Ok union_
  | selected :: rest =>
      match union_ with
      | None => union_units (Some (unit_geom selected)) rest
      | Some u =>
          u' <- union u (unit_geom selected) ;;
          union_units (Some u') rest
      end
  end.

(** [selection.difference(union)], or the selection when nothing has
    been collected; not inside a [try]. *)
Definition intersects_of (selection union_ : option Geometry)
    : Result (option Geometry) :=
  match union_ with
  | None => Ok selection
  | Some u =>
      s <- attr selection ;;
      i <- difference s u ;;
      Ok (Some i)
  end.

(** The remainder: the two [try ... except GEOSException] blocks. *)
Definition remainder_of (inside : bool) (selection boundary intersects : option Geometry)
    : Result Geometry :=
  if inside then
    try_GEOSException
      (b <- attr boundary ;; i <- attr intersects ;; intersection b i)
      (b <- attr boundary ;; empty_geom (srid b))
  else
    try_GEOSException
      (s <- attr selection ;; b <- attr boundary ;;
       remainder <- difference s b ;;
       i <- attr intersects ;; intersection remainder i)
      (b <- attr boundary ;; empty_geom (srid b)).

(** The polygonal members of a geometry collection, appended to one
    multi-polygon. *)
Fixpoint munge_members (union_ : option Geometry) (geoms : list Geometry)
    : Result (option Geometry) :=
  match geoms with
  | [] => Ok union_
  | geom :: rest =>
      mgeom <- enforce_multi (Some geom) ;;
      mgeom <- attr mgeom ;;
      if GeomType_eqb (geom_type mgeom) MultiPolygon then
        match union_ with
        | None => munge_members (Some mgeom) rest
        | Some u => munge_members (Some (foldl mp_append u (members mgeom))) rest
        end
      else munge_members union_ rest
  end.

Definition normalize_remainder (boundary : option Geometry) (remainder : Geometry)
    : Result Geometry :=
  if GeomType_eqb (geom_type remainder) GeometryCollection && negb (empty remainder) then
    let srid_ := srid remainder in
    union_ <- munge_members None (members remainder) ;;
    if truthy union_ then
      remainder <- attr union_ ;; Ok (set_srid remainder srid_)
    else empty_geom srid_
  else if empty remainder
          || (negb (GeomType_eqb (geom_type remainder) MultiPolygon)
              && negb (GeomType_eqb (geom_type remainder) Polygon)) then
    b <- attr boundary ;; empty_geom (srid b)
  else Ok remainder.

(** The loop over the geolevels of [get_mixed_geounits]. *)
Fixpoint mixed_levels (geounit_ids : list Z) (geolevel : Z) (inside : bool)
    (levels : list Z) (selection boundary : option Geometry)
    (units : list UnitRef) : Result (list UnitRef) :=
  match levels with
  | [] => Ok units
  | level :: rest =>
      if geolevel =? level then
        let selection :=
          unionagg (geounit_geom <$>
                    filter (λ u, geounit_id u ∈ geounit_ids) (geounit_rows ref)) in
        boundary <- (if negb (truthy boundary)
                     then s <- attr selection ;;
                          e <- empty_geom (srid s) ;; Ok (Some e)
                     else Ok boundary) ;;
        b <- attr boundary ;;
        let simple := simplify b in
        rows <- (match geounit_ids with
                 | [] => Raise DatabaseError
                 | _ => Ok (select_units (seed_where geounit_ids level simple inside))
                 end) ;;
        let units := units ++ rows in
        if level =? BASE_GEOLEVEL ref then Ok units
        else mixed_levels geounit_ids geolevel inside rest selection boundary units
      else if geolevel <? level then
        union_ <- union_units None units ;;
        intersects <- intersects_of selection union_ ;;
        remainder <- remainder_of inside selection boundary intersects ;;
        remainder <- normalize_remainder boundary remainder ;;
        let units :=
          if negb (empty remainder)
          then units ++ select_units (level_where level (simplify remainder))
          else units in
        mixed_levels geounit_ids geolevel inside rest selection boundary units
      else mixed_levels geounit_ids geolevel inside rest selection boundary units
  end.

(** [Geounit.get_mixed_geounits(geounit_ids, geolevel, boundary, inside)]. *)
Definition get_mixed_geounits (geounit_ids : list Z) (geolevel : Z)
    (boundary : option Geometry) (inside : bool) : Result (list UnitRef) :=
  if negb (truthy boundary) && inside then Ok []
  else mixed_levels geounit_ids geolevel inside
         (sorted id (geolevel_rows ref)) None boundary [].

End Containment.

(** ** The district store *)

Section Store.
Context `{GeometryEngine}.
Variable ref : Reference.

Local Open Scope db_scope.

(** [Plan(name=...)]: [version] defaults to [0]. *)
Definition Plan_init (name : string) : Plan := mkPlan None name 0.

(** [District(name=..., version=..., plan=...)]: [district_id] takes
    the field default [1]; [geom] and [simple] are absent. *)
Definition District_init (name : string) (version : Z) (plan : option Z) : District :=
  mkDistrict None 1 name plan None None version.

Fixpoint for_each {A} (l : list A) (body : A → M unit) : M unit :=
  match l with
  | [] => ret tt
  | x :: rest => _ <- body x ;; for_each rest body
  end.

(** [UPDATE] of the row with a given primary key. *)
Definition replace_row {A} (pk : A → option Z) (new : A) (rows : list A) : list A :=
  (λ r, if bool_decide (pk r = pk new) then new else r) <$> rows.

Definition has_row {A} (pk : A → option Z) (k : Z) (rows : list A) : bool :=
  bool_decide (Exists (λ r, pk r = Some k) rows).

(** [name] is [unique=True]: the name of [p] is that of a stored plan
    other than [p]. *)
Definition name_taken (p : Plan) (rows : list Plan) : bool :=
  bool_decide (Exists (λ q, plan_name q = plan_name p ∧ plan_pk q ≠ plan_pk p) rows).

(** [Model.save()] on a plan, without its signals: [UPDATE] when the
    row exists, [INSERT] otherwise; either raises [IntegrityError] on a
    name that another plan has. The flag is [created]. *)
Definition Plan_write (p : Plan) : M (Plan * bool) :=
  db <- get_db ;;
  if name_taken p (plan_rows db) then raise IntegrityError else
  match plan_pk p with
  | Some k =>
      if has_row plan_pk k (plan_rows db) then
        _ <- put_db (mkDatabase (replace_row plan_pk p (plan_rows db))
                       (district_rows db) (computed_rows db)
                       (plan_seq db) (district_seq db) (computed_seq db)) ;;
        ret (p, false)
      else
        _ <- put_db (mkDatabase (plan_rows db ++ [p])
                       (district_rows db) (computed_rows db)
                       (plan_seq db) (district_seq db) (computed_seq db)) ;;
        ret (p, true)
  | None =>
      let p' := Plan_with_pk p (Some (plan_seq db)) in
      _ <- put_db (mkDatabase (plan_rows db ++ [p'])
                     (district_rows db) (computed_rows db)
                     (plan_seq db + 1) (district_seq db) (computed_seq db)) ;;
      ret (p', true)
  end.

(** [Plan.objects.get(pk=k)]. *)
Definition Plan_get (k : Z) : M Plan :=
  db <- get_db ;;
  match filter (λ p, plan_pk p = Some k) (plan_rows db) with
  | p :: _ => ret p
  | [] => raise DoesNotExist
  end.

(** [district.plan]: the related plan is loaded from its row. The
    field is not nullable, and reading it on a district that has no
    plan raises [Plan.DoesNotExist]. *)
Definition District_plan (d : District) : M Plan :=
  match district_plan d with
  | None => raise DoesNotExist
  | Some k => Plan_get k
  end.

(** [plan.district_set.all()]. *)
Definition district_set (plan : Plan) : M (list District) :=
  db <- get_db ;;
  ret (match plan_pk plan with
       | Some k => filter (λ d, district_plan d = Some k) (district_rows db)
       | None => []
       end).

(** [update_plan_edited_time], the [post_save] handler of [District].
    The plan it saves was just read from its row, so that save is an
    [UPDATE] with [created] false and [set_geounit_mapping] does
    nothing on it. The time stamp itself is not modelled. *)
Definition update_plan_edited_time (district : District) : M unit :=
  plan <- District_plan district ;;
  _ <- Plan_write plan ;;
  ret tt.

(** [set_district_id], the [pre_save] handler of [District]. The
    filter [plan = district.plan] reads the plan of the district. *)
Definition set_district_id (district : District) : M District :=
  if bool_decide (district_id district = 0) then
    plan <- District_plan district ;;
    db <- get_db ;;
    let max_id :=
      Max (district_id <$>
           filter (λ d, district_plan d = plan_pk plan) (district_rows db)) in
    let district :=
      if truthy_number max_id
      then District_with_district_id district (default 0 max_id + 1)
      else District_with_district_id district 1 in
    if bool_decide (district_id district > MAX_DISTRICTS ref + 1)
    then raise ValidationError
    else ret district
  else ret district.

(** The [INSERT] or [UPDATE] of a district row; [plan] is not
    nullable. *)
Definition District_write (d : District) : M District :=
  db <- get_db ;;
  match district_plan d with
  | None => raise IntegrityError
  | Some _ =>
      match district_pk d with
      | Some k =>
          if has_row district_pk k (district_rows db) then
            _ <- put_db (mkDatabase (plan_rows db)
                           (replace_row district_pk d (district_rows db))
                           (computed_rows db)
                           (plan_seq db) (district_seq db) (computed_seq db)) ;;
            ret d
          else
            _ <- put_db (mkDatabase (plan_rows db) (district_rows db ++ [d])
                           (computed_rows db)
                           (plan_seq db) (district_seq db) (computed_seq db)) ;;
            ret d
      | None =>
          let d' := District_with_pk d (Some (district_seq db)) in
          _ <- put_db (mkDatabase (plan_rows db) (district_rows db ++ [d'])
                         (computed_rows db)
                         (plan_seq db) (district_seq db + 1) (computed_seq db)) ;;
          ret d'
      end
  end.

(** [district.save()]: [pre_save], the write, [post_save]. *)
Definition District_save (d : District) : M District :=
  d <- set_district_id d ;;
  d <- District_write d ;;
  _ <- update_plan_edited_time d ;;
  ret d.

(** [set_geounit_mapping], the [post_save] handler of [Plan]. *)
Definition set_geounit_mapping (plan : Plan) (created : bool) : M unit :=
  if created then
    _ <- District_save (District_init "Unassigned" 0 (plan_pk plan)) ;;
    ret tt
  else ret tt.

(** [plan.save()]. *)
Definition Plan_save (p : Plan) : M Plan :=
  w <- Plan_write p ;;
  _ <- set_geounit_mapping (fst w) (snd w) ;;
  ret (fst w).

(** [number] is a [DecimalField(max_digits=12, decimal_places=4)]. A
    number is kept as its count of 1/10000, so it fits when that count
    has at most twelve digits: when the number is below [10 ^ 8] in
    absolute value. *)
Definition fits_decimal (n : Z) : bool := Z.abs n <? 10 ^ 12.

(** [computed.save()]. A number that does not fit the field is refused
    by the database. *)
Definition Computed_save (c : ComputedCharacteristic) : M unit :=
  db <- get_db ;;
  if negb (fits_decimal (cc_number c)) then raise DatabaseError else
  match cc_district c with
  | None => raise IntegrityError
  | Some _ =>
      match cc_pk c with
      | Some k =>
          if has_row cc_pk k (computed_rows db) then
            put_db (mkDatabase (plan_rows db) (district_rows db)
                      (replace_row cc_pk c (computed_rows db))
                      (plan_seq db) (district_seq db) (computed_seq db))
          else
            put_db (mkDatabase (plan_rows db) (district_rows db)
                      (computed_rows db ++ [c])
                      (plan_seq db) (district_seq db) (computed_seq db))
      | None =>
          put_db (mkDatabase (plan_rows db) (district_rows db)
                    (computed_rows db
                     ++ [mkComputed (Some (computed_seq db)) (cc_subject c)
                           (cc_district c) (cc_number c)])
                    (plan_seq db) (district_seq db) (computed_seq db + 1))
      end
  end.

(** The place of a subject in [Subject.objects.all()], which is in
    the order of [sort_key]. *)
Fixpoint sort_position (subject : Z) (subjects : list Z) : Z :=
  match subjects with
  | [] => 0
  | s :: rest => if subject =? s then 0 else 1 + sort_position subject rest
  end.

(** [ComputedCharacteristic.objects.filter(district=d)], in the
    model's [ordering = ['subject']]: ordering by a foreign key is the
    ordering of the related model, [Subject], by its [sort_key]. *)
Definition computed_of (db : Database) (d : District) : list ComputedCharacteristic :=
  match district_pk d with
  | Some k =>
      sorted (λ c, sort_position (cc_subject c) (subject_rows ref))
        (filter (λ c, cc_district c = Some k) (computed_rows db))
  | None => []
  end.

(** [self.clone_characteristics_from(origin)]. *)
Definition clone_characteristics_from (self origin : District) : M unit :=
  db <- get_db ;;
  for_each (computed_of db origin)
    (λ c, Computed_save (mkComputed None (cc_subject c) (district_pk self) (cc_number c))).

(** [Plan.get_districts_at_version], on the rows of the plan: sort by
    [sortVer], keep per [district_id] the last snapshot that is not
    above the version, list the values of the dictionary. *)
Definition sortVer (d : District) : Z := district_id d * 10000 + district_version d.

Definition dvers_step (version : Z) (dvers : gmap Z District) (district : District)
    : gmap Z District :=
  if bool_decide (district_version district > version) then dvers
  else <[district_id district := district]> dvers.

Definition districts_at_version (rows : list District) (version : Z) : list District :=
  let districts := sorted sortVer rows in
  let dvers := foldl (dvers_step version) ∅ districts in
  (map_to_list dvers).*2.

Definition get_districts_at_version (self : Plan) (version : Z) : M (list District) :=
  districts <- district_set self ;;
  ret (districts_at_version districts version).

(** [District.is_latest_version]. [if self.plan:] reads the plan of
    the district, which raises [Plan.DoesNotExist] when it has none. A
    plan object is true, so the branch is always taken: the last line
    of the method, [return true], is not reached. *)
Definition is_latest_version (self : District) : M bool :=
  plan <- District_plan self ;;
  qset <- district_set plan ;;
  let qset := filter (λ d, district_id d = district_id self) qset in
  let maxver := Max (district_version <$> qset) in
  ret (bool_decide (Some (district_version self) = maxver)).

(** [District.delta_stats]: one pass of the loop over the subjects. *)
Definition delta_subject (self : District) (geounits : list UnitRef) (combine : bool)
    (changed : bool) (subject : Z) : M bool :=
  let aggregate :=
    Sum (char_number <$>
         filter (λ c, char_geounit c ∈ (unit_id <$> geounits) ∧ char_subject c = subject)
           (characteristic_rows ref)) in
  if truthy_number aggregate then
    db <- get_db ;;
    let computed :=
      filter (λ c, cc_subject c = subject) (computed_of db self) in
    let computed :=
      match computed with
      | c :: _ => c
      | [] => mkComputed None subject (district_pk self) 0
      end in
    let number :=
      if combine then cc_number computed + default 0 aggregate
      else cc_number computed - default 0 aggregate in
    _ <- Computed_save (mkComputed (cc_pk computed) (cc_subject computed)
                          (cc_district computed) number) ;;
    ret true
  else ret changed.

Fixpoint delta_subjects (self : District) (geounits : list UnitRef) (combine : bool)
    (changed : bool) (subjects : list Z) : M bool :=
  match subjects with
  | [] => ret changed
  | subject :: rest =>
      changed <- delta_subject self geounits combine changed subject ;;
      delta_subjects self geounits combine changed rest
  end.

Definition delta_stats (self : District) (geounits : list UnitRef) (combine : bool) : M bool :=
  delta_subjects self geounits combine false (subject_rows ref).

End Store.

(** ** The boundary edit *)

Section Edit.
Context `{GeometryEngine}.
Variable ref : Reference.

Local Open Scope db_scope.

(** The four lines every branch of [add_geounits] repeats:
    [copy(district)], [version = self.version + 1], [id = None],
    [save()], and then [clone_characteristics_from(district)]. *)
Definition snapshot (self : Plan) (district : District) : M District :=
  let district_copy :=
    District_with_pk (District_with_version district (plan_version self + 1)) None in
  district_copy <- District_save ref district_copy ;;
  _ <- clone_characteristics_from ref district_copy district ;;
  ret district_copy.

(** [district.geom and (district.geom.overlaps(incremental) or
    district.geom.contains(incremental))]. *)
Definition touches (geom incremental : option Geometry) : Result bool :=
  if truthy geom then
    (g <- attr geom ;;
     inc <- attr incremental ;;
     Ok (overlaps g inc || contains g inc))%result
  else Ok false.

(** [try: geom = district.geom.difference(incremental)
    except GEOSException: geom = empty_geom(incremental.srid)]. *)
Definition difference_or_empty (geom incremental : option Geometry) : Result Geometry :=
  try_GEOSException
    (g <- attr geom ;;
     inc <- attr incremental ;;
     difference g inc)%result
    (inc <- attr incremental ;; empty_geom (srid inc))%result.

(** The geometry of a district that loses [incremental]: the guarded
    difference, then [enforce_multi]; an empty result is stored as
    absent full and simplified geometry. *)
Definition subtract_incremental (district : District) (incremental : option Geometry)
    : Result District :=
  (geom <- difference_or_empty (district_geom district) incremental ;;
   geom <- enforce_multi (Some geom) ;;
   geom <- attr geom ;;
   if negb (empty geom) then
     simple <- enforce_multi (Some (simplify geom)) ;;
     Ok (District_with_geom district (Some geom) simple)
   else Ok (District_with_geom district None None))%result.

(** [try: union = target.geom.union(incremental);
    target.geom = enforce_multi(union)
    except GEOSException: target.geom = None]. *)
Definition union_or_absent (g : Geometry) (incremental : option Geometry)
    : Result (option Geometry) :=
  try_GEOSException
    (inc <- attr incremental ;;
     union_ <- union g inc ;;
     enforce_multi (Some union_))%result
    (Ok None).

(** The geometry of the target: [enforce_multi] of the selection when
    it has none, the guarded union otherwise; the simplified geometry
    follows, and is absent when the geometry is false. *)
Definition merge_incremental (target : District) (incremental : option Geometry)
    : Result District :=
  (geom <- match district_geom target with
           | None => enforce_multi incremental
           | Some g => union_or_absent g incremental
           end ;;
   if truthy geom then
     g <- attr geom ;;
     simple <- enforce_multi (Some (simplify g)) ;;
     Ok (District_with_geom target geom simple)
   else Ok (District_with_geom target geom None))%result.

(** The loop over the districts at the requested version. *)
Fixpoint add_geounits_loop (self : Plan) (districtid : Z) (geounit_ids : list Z)
    (geolevel : Z) (incremental : option Geometry) (districts : list District)
    (fixed : Z) (target : option District) : M (Z * option District) :=
  match districts with
  | [] => ret (fixed, target)
  | district :: rest =>
      if district_id district =? districtid then
        add_geounits_loop self districtid geounit_ids geolevel incremental rest
          fixed (Some district)
      else
        hit <- lift (touches (district_geom district) incremental) ;;
        if negb hit then
          latest <- is_latest_version district ;;
          if negb latest then
            _ <- snapshot self district ;;
            add_geounits_loop self districtid geounit_ids geolevel incremental rest
              (fixed + 1) target
          else
            add_geounits_loop self districtid geounit_ids geolevel incremental rest
              fixed target
        else
          geounits <- lift (get_mixed_geounits ref geounit_ids geolevel
                              (district_geom district) true) ;;
          district <- lift (subtract_incremental district incremental) ;;
          district_copy <- snapshot self district ;;
          changed <- delta_stats ref district_copy geounits false ;;
          add_geounits_loop self districtid geounit_ids geolevel incremental rest
            (if changed then fixed + 1 else fixed) target
  end.

(** The part of [add_geounits] after the loop. *)
Definition add_geounits_target (self : Plan) (geounit_ids : list Z) (geolevel : Z)
    (incremental : option Geometry) (fixed : Z) (target : option District)
    : M (Z * Plan) :=
  match target with
  | None => raise UnboundLocalError
  | Some target =>
      geounits <- lift (get_mixed_geounits ref geounit_ids geolevel
                          (district_geom target) false) ;;
      target <- lift (merge_incremental target incremental) ;;
      target_copy <- snapshot self target ;;
      changed <- (if truthy (district_geom target_copy)
                  then delta_stats ref target_copy geounits true
                  else ret false) ;;
      let fixed := if changed then fixed + 1 else fixed in
      let self := Plan_with_version self (plan_version self + 1) in
      self <- Plan_save ref self ;;
      ret (fixed, self)
  end.

(** [Plan.add_geounits(districtid, geounit_ids, geolevel, version)];
    the plan object comes back with the count, since the method
    assigns to [self.version]. *)
Definition add_geounits (self : Plan) (districtid : Z) (geounit_ids : list Z)
    (geolevel : Z) (version : Z) : M (Z * Plan) :=
  let incremental :=
    unionagg (geounit_geom <$>
              filter (λ u, geounit_id u ∈ geounit_ids) (geounit_rows ref)) in
  districts <- get_districts_at_version self version ;;
  r <- add_geounits_loop self districtid geounit_ids geolevel incremental districts 0 None ;;
  add_geounits_target self geounit_ids geolevel incremental (fst r) (snd r).

End Edit.

(** ** Vocabulary of the statements *)

Definition key_le {A} (key : A → Z) (a b : A) : Prop := key a ≤ key b.

Section Vocabulary.
Context `{GeometryEngine}.

(** The test of the dictionary loop, for the key [i]. *)
Definition qualifies (V i : Z) (d : District) : Prop :=
  district_id d = i ∧ district_version d ≤ V.

#[export] Instance qualifies_dec V i d : Decision (qualifies V i d).
Proof. unfold qualifies. apply _. Defined.

(** The snapshots stored under a plan. *)
Definition snapshots_of (db : Database) (self : Plan) : list District :=
  match plan_pk self with
  | Some k => filter (λ d, district_plan d = Some k) (district_rows db)
  | None => []
  end.

(** At most one snapshot per [district_id] and version. *)
Definition unique_snapshots (rows : list District) : Prop :=
  ∀ d1 d2, d1 ∈ rows → d2 ∈ rows →
    district_id d1 = district_id d2 →
    district_version d1 = district_version d2 → d1 = d2.

(** [d] is a latest snapshot of its district among those of [rows]
    that are not above version [V]. *)
Definition latest_at (rows : list District) (V : Z) (d : District) : Prop :=
  d ∈ rows ∧ district_version d ≤ V ∧
  ∀ s, s ∈ rows → district_id s = district_id d →
       district_version s ≤ V → district_version s ≤ district_version d.

End Vocabulary.

(** ** The words of the specification *)

Section SpecWords.
Context `{GeometryEngine}.

(** [canonicalEmpty(spatialRef)] is [empty_geom]; [toMultiRegion(geom)]
    as the specification words it: as-is when multi-region, wrapped
    when single-region, the canonical empty geometry otherwise. *)
Definition toMultiRegion (g : Geometry) : Result (option Geometry) :=
  match geom_type g with
  | MultiPolygon => Ok (Some g)
  | Polygon => Ok (Some (MultiPolygon_of g))
  | _ => rbind (empty_geom (srid g)) (λ e, Ok (Some e))
  end.

(** The id a new district receives: one more than the greatest
    [district_id] under its plan, [1] when there is none. *)
Definition next_district_id (db : Database) (plan : option Z) : Z :=
  match Max (district_id <$> filter (λ d, district_plan d = plan) (district_rows db)) with
  | Some m => m + 1
  | None => 1
  end.

(** The row [Plan.objects.get(pk=k)] reads. *)
Definition stored_plan (db : Database) (k : Z) : option Plan :=
  head (filter (λ p, plan_pk p = Some k) (plan_rows db)).


End SpecWords.

(** ** Relations between the database before and after a call *)

Section Steps.
Context `{GeometryEngine}.

(** Whatever the outcome of the call, value or exception, the
    database it leaves is related to the one it ran on. *)
Definition keeps {A} (R : Database → Database → Prop) (m : M A) : Prop :=
  ∀ db, R db (m db).2.

(** Plans and districts are untouched. *)
Definition same_store (db db' : Database) : Prop :=
  plan_rows db' = plan_rows db ∧ district_rows db' = district_rows db ∧
  district_seq db' = district_seq db.

(** Every stored plan reads as before, and the district table has only
    gained rows, each of them satisfying [P]. *)
Definition grows (P : District → Prop) (db db' : Database) : Prop :=
  (∀ k, stored_plan db' k = stored_plan db k) ∧
  ∃ new, district_rows db' = district_rows db ++ new ∧ Forall P new.

(** A copy of [d] made for version [v]: it keeps the plan, and the
    [district_id] unless [d] has none. *)
Definition copy_at (v : Z) (d c : District) : Prop :=
  district_version c = v ∧ district_plan c = district_plan d ∧
  (district_id d ≠ 0 → district_id c = district_id d).

End Steps.

(** ** Histories of a plan *)

Section Histories.
Context `{GeometryEngine}.

(** The selection of an edit: the union of the units named. *)
Definition incremental_of (ref : Reference) (geounit_ids : list Z) : option Geometry :=
  unionagg (geounit_geom <$>
            filter (λ u, geounit_id u ∈ geounit_ids) (geounit_rows ref)).

(** A new version of a district is one made for the version after the
    plan's. *)
Definition new_version (self : Plan) (c : District) : Prop :=
  district_version c = plan_version self + 1.


End Histories.

(** ** What the count of an edit counts *)

Section Counting.
Context `{GeometryEngine}.
Variable ref : Reference.

Definition count_of {A} (f : A → bool) (l : list A) : Z :=
  Z.of_nat (length (filter (λ a, f a = true) l)).

(** The sum [delta_stats] computes for one subject over the units. *)
Definition stats_delta (geounits : list UnitRef) (subject : Z) : option Z :=
  Sum (char_number <$>
       filter (λ c, char_geounit c ∈ (unit_id <$> geounits) ∧ char_subject c = subject)
         (characteristic_rows ref)).

(** Some subject has a sum that is present and not zero. *)
Definition stats_change (geounits : list UnitRef) : bool :=
  existsb (λ s, truthy_number (stats_delta geounits s)) (subject_rows ref).

(** No stored snapshot of the district of [d] under its plan has a
    version above that of [d]. *)
Definition latest_in (db : Database) (d : District) : bool :=
  bool_decide
    (Some (district_version d)
     = Max (district_version <$>
            filter (λ s, district_id s = district_id d)
              (filter (λ s, district_plan s = district_plan d) (district_rows db)))).

(** A district other than the target is counted when it is carried
    forward (it does not touch the selection and is not the latest
    version), or when it touches the selection and the units found
    inside it change a statistic. *)
Definition counts_district (db : Database) (districtid : Z) (geounit_ids : list Z)
    (geolevel : Z) (d : District) : bool :=
  if district_id d =? districtid then false
  else
    match touches (district_geom d) (incremental_of ref geounit_ids) with
    | Ok false => negb (latest_in db d)
    | Ok true =>
        match get_mixed_geounits ref geounit_ids geolevel (district_geom d) true with
        | Ok geounits => stats_change geounits
        | Raise _ => false
        end
    | Raise _ => false
    end.

(** The target is counted when it has a geometry after the edit and
    the units found outside its old boundary change a statistic. *)
Definition counts_target (geounit_ids : list Z) (geolevel : Z) (target : District) : bool :=
  match merge_incremental target (incremental_of ref geounit_ids),
        get_mixed_geounits ref geounit_ids geolevel (district_geom target) false with
  | Ok target', Ok geounits => truthy (district_geom target') && stats_change geounits
  | _, _ => false
  end.

End Counting.

(** ** Aggregates *)

#[export] Instance ComputedCharacteristic_eq_dec : EqDecision ComputedCharacteristic.
Proof. solve_decision. Defined.

Section Aggregates.
Context `{GeometryEngine}.
Variable ref : Reference.

(** The computed rows of the district with primary key [k] for a
    subject, in table order. *)
Definition rows_for (db : Database) (k subject : Z) : list ComputedCharacteristic :=
  filter (λ c, cc_subject c = subject)
    (filter (λ c, cc_district c = Some k) (computed_rows db)).

(** The aggregate of a district for a subject: the number of the row
    [delta_stats] would look up, zero when there is none. *)
Definition aggregate_of (db : Database) (k subject : Z) : Z :=
  match rows_for db k subject with
  | c :: _ => cc_number c
  | [] => 0
  end.

Definition aggregate (db : Database) (d : District) (subject : Z) : Z :=
  match district_pk d with
  | Some k => aggregate_of db k subject
  | None => 0
  end.


(** Every number in the table of computed characteristics fits its
    field. *)
Definition numbers_fit (db : Database) : Prop :=
  Forall (λ c, fits_decimal (cc_number c) = true) (computed_rows db).

(** The numbers [delta_stats] would write for the district with key
    [k], one per subject with a sum to apply, fit the field. *)
Definition delta_fits (db : Database) (k : Z) (units : list UnitRef) (combine : bool)
    (subjects : list Z) : Prop :=
  ∀ S, S ∈ subjects → truthy_number (stats_delta ref units S) = true →
       fits_decimal
         (if combine
          then aggregate_of db k S + default 0 (stats_delta ref units S)
          else aggregate_of db k S - default 0 (stats_delta ref units S)) = true.

(** Primary keys are set, distinct and below their sequence, and every
    computed row refers to a district key below the district sequence. *)
Definition well_formed (db : Database) : Prop :=
  NoDup (cc_pk <$> computed_rows db) ∧
  Forall (λ c, ∃ p, cc_pk c = Some p ∧ p < computed_seq db) (computed_rows db) ∧
  Forall (λ c, ∃ k, cc_district c = Some k ∧ k < district_seq db) (computed_rows db) ∧
  Forall (λ d, ∃ k, district_pk d = Some k ∧ k < district_seq db) (district_rows db).

(** The rows [clone_characteristics_from] inserts for the district
    with key [k], numbered from [seq]. *)
Fixpoint clones (seq k : Z) (cs : list ComputedCharacteristic)
    : list ComputedCharacteristic :=
  match cs with
  | [] => []
  | c :: rest =>
      mkComputed (Some seq) (cc_subject c) (Some k) (cc_number c)
      :: clones (seq + 1) k rest
  end.

End Aggregates.

Section Advances.
Context `{GeometryEngine}.

(** The number [delta_stats] reads off a list of rows. *)
Definition head_number (l : list ComputedCharacteristic) : Z :=
  match l with
  | c :: _ => cc_number c
  | [] => 0
  end.

(** From [db] to [db']: the database stays well formed, no district
    row is lost, and the aggregates of the districts [db] knew are as
    they were. *)
Definition advances (db db' : Database) : Prop :=
  well_formed db' ∧
  district_seq db ≤ district_seq db' ∧
  (∀ k S, k < district_seq db → aggregate_of db' k S = aggregate_of db k S) ∧
  (∀ d, d ∈ district_rows db → d ∈ district_rows db').

End Advances.

(** ** A raster engine

    One concrete geometry engine, used to run the model: a geometry is
    a set of unit cells with a type tag and a spatial reference, a point
    is one cell, and a geometry marked invalid makes the set operations
    raise [GEOSException] the way a self-intersecting polygon does. A
    geometry built from WKT or by [MultiPolygon(geom)] has no spatial
    reference of its own: it is kept as 0. *)

Module Grid.

Record Shape := mkShape {
  shape_type : GeomType;
  shape_srid : Z;
  shape_cells : list Z;
  shape_valid : bool
}.

(** The result of a set operation: empty results are an empty geometry
    collection, one cell is a polygon, several a multi-polygon. *)
Definition of_cells (srid : Z) (cells : list Z) : Shape :=
  match cells with
  | [] => mkShape GeometryCollection srid [] true
  | [_] => mkShape Polygon srid cells true
  | _ => mkShape MultiPolygon srid cells true
  end.

Definition set_op (op : list Z → list Z → list Z) (a b : Shape) : Result Shape :=
  if shape_valid a && shape_valid b
  then Ok (of_cells (shape_srid a) (op (shape_cells a) (shape_cells b)))
  else Raise GEOSException.

Definition subset_cells (a b : list Z) : bool := forallb (λ c, bool_decide (c ∈ b)) a.

Definition meet_cells (a b : list Z) : bool := existsb (λ c, bool_decide (c ∈ b)) a.

Definition shape_len (g : Shape) : nat :=
  match shape_type g with
  | Polygon => 1
  | Point => match shape_cells g with [] => 0%nat | _ => 2%nat end
  | _ => length (shape_cells g)
  end.

Definition engine : GeometryEngine := {|
  Geometry := Shape;
  geom_type := shape_type;
  srid := shape_srid;
  set_srid g s := mkShape (shape_type g) s (shape_cells g) (shape_valid g);
  empty g := match shape_cells g with [] => true | _ => false end;
  py_len := shape_len;
  members g := (λ c, mkShape Polygon (shape_srid g) [c] true) <$> shape_cells g;
  from_wkt_point x y := mkShape Point 0 [x + 1000 * y] true;
  MultiPolygon_of g := mkShape MultiPolygon 0 (shape_cells g) (shape_valid g);
  mp_append u p :=
    mkShape (shape_type u) (shape_srid u) (shape_cells u ++ shape_cells p) (shape_valid u);
  union := set_op list_union;
  difference := set_op list_difference;
  intersection := set_op list_intersection;
  overlaps a b :=
    meet_cells (shape_cells a) (shape_cells b)
    && negb (subset_cells (shape_cells a) (shape_cells b))
    && negb (subset_cells (shape_cells b) (shape_cells a));
  contains a b :=
    subset_cells (shape_cells b) (shape_cells a)
    && match shape_cells b with [] => false | _ => true end;
  simplify g := g;
  unionagg l :=
    match l with
    | [] => None
    | g :: _ =>
        Some (mkShape MultiPolygon (shape_srid g)
                (foldr list_union [] (shape_cells <$> l))
                (forallb shape_valid l))
    end;
  st_within a b :=
    subset_cells (shape_cells a) (shape_cells b)
    && match shape_cells a with [] => false | _ => true end;
  st_intersects a b := meet_cells (shape_cells a) (shape_cells b)
|}.

(** A unit of one cell, with its centre in that cell. *)
Definition cell_unit (id level cell : Z) (valid : bool) : @Geounit engine :=
  @mkGeounit engine id
    (mkShape MultiPolygon 3785 [cell] valid)
    (mkShape Point 3785 [cell] true)
    level.

(** Three base units with populations 100, 150 and 200 for one subject. *)
Definition ref : @Reference engine :=
  @mkReference engine
    [1]
    [cell_unit 1 1 1 true; cell_unit 2 1 2 true; cell_unit 3 1 3 true]
    [1]
    [mkCharacteristic 1 1 100; mkCharacteristic 1 2 150; mkCharacteristic 1 3 200]
    1
    2.

Definition db0 : @Database engine := @mkDatabase engine [] [] [] 1 1 1.

#[export] Instance GeomType_eq_dec : EqDecision GeomType.
Proof. solve_decision. Defined.

#[export] Instance Shape_eq_dec : EqDecision Shape.
Proof. solve_decision. Defined.

Definition region (cells : list Z) : Shape := mkShape MultiPolygon 3785 cells true.

(** A plan at version 1 whose reserved district holds cell 3 and has
    a snapshot at version 0 and one at version 1; district 2 has no
    geometry yet. *)
Definition plan1 : Plan := mkPlan (Some 1) "p" 1.

Definition db_edited : @Database engine :=
  @mkDatabase engine [plan1]
    [@mkDistrict engine (Some 1) 1 "Unassigned" (Some 1)
       (Some (region [3])) (Some (region [3])) 0;
     @mkDistrict engine (Some 2) 2 "District 1" (Some 1) None None 0;
     @mkDistrict engine (Some 3) 1 "Unassigned" (Some 1)
       (Some (region [3])) (Some (region [3])) 1]
    [] 2 4 1.


(** A plan at version 0 whose reserved district holds the three cells,
    with its population, and an empty district 2. *)
Definition plan0 : Plan := mkPlan (Some 1) "p" 0.

Definition db_full : @Database engine :=
  @mkDatabase engine [plan0]
    [@mkDistrict engine (Some 1) 1 "Unassigned" (Some 1)
       (Some (region [1; 2; 3])) (Some (region [1; 2; 3])) 0;
     @mkDistrict engine (Some 2) 2 "District 1" (Some 1) None None 0]
    [mkComputed (Some 1) 1 (Some 1) 450] 2 3 2.

(** The words of the specification for the count of an edit: the
    districts resolved at the version whose new snapshot differs from
    them in geometry or in an aggregate. *)
Definition snapshot_changed (db db' : @Database engine) (old new : @District engine) : bool :=
  negb (bool_decide (district_geom new = district_geom old))
  || negb (bool_decide ((λ S, aggregate db' new S) <$> subject_rows ref
                        = (λ S, aggregate db old S) <$> subject_rows ref)).

Definition changed_districts (db db' : @Database engine) (self : Plan) (version : Z) : Z :=
  count_of
    (λ old, existsb
              (λ new, (district_id new =? district_id old)
                      && (district_version new =? plan_version self + 1)
                      && snapshot_changed db db' old new)
              (district_rows db'))
    (districts_at_version (snapshots_of db self) version).

(** Two geolevels, counties over cells; the second county has an
    invalid geometry. *)
Definition ref_levels : @Reference engine :=
  @mkReference engine
    [1; 2]
    [@mkGeounit engine 10 (region [1; 2]) (mkShape Point 3785 [1] true) 1;
     @mkGeounit engine 11 (mkShape MultiPolygon 3785 [3; 4] false)
       (mkShape Point 3785 [3] true) 1;
     cell_unit 1 2 1 true; cell_unit 2 2 2 true;
     cell_unit 3 2 3 true; cell_unit 4 2 4 true]
    [1]
    []
    2
    2.

(** A district whose stored geometry is invalid. *)
Definition broken_target : @District engine :=
  @mkDistrict engine (Some 2) 2 "District 1" (Some 1)
    (Some (mkShape MultiPolygon 3785 [3] false)) None 0.

(** A new plan in the empty database, then one edit that gives the
    reserved district the first two cells. *)
Definition created : Result Plan * @Database engine :=
  @Plan_save engine ref (Plan_init "p") db0.

Definition created_plan : Plan := mkPlan (Some 1) "p" 0.


(** The edits run in the statements below. *)
Definition moved : Result (Z * Plan) * @Database engine :=
  @add_geounits engine ref plan0 2 [1; 2] 1 0 db_full.

Definition reverted : Result (Z * Plan) * @Database engine :=
  @add_geounits engine ref plan1 2 [1; 2] 1 0 db_edited.

Definition units_of (r : Result (list (@UnitRef engine))) : list (@UnitRef engine) :=
  match r with
  | Ok units => units
  | Raise _ => []
  end.


Definition unassigned_full : @District engine :=
  @mkDistrict engine (Some 1) 1 "Unassigned" (Some 1)
    (Some (region [1; 2; 3])) (Some (region [1; 2; 3])) 0.

Definition district_empty : @District engine :=
  @mkDistrict engine (Some 2) 2 "District 1" (Some 1) None None 0.

End Grid.

(** ** Vocabulary of the containment search *)

Section SearchWords.
Context `{GeometryEngine}.
Variable ref : Reference.

(** What a unit the search has collected is: a row of the unit table
    that is named, or that lies at a geolevel of the table below the
    one requested. *)
Definition found_below (ids : list Z) (geolevel : Z) (r : UnitRef) : Prop :=
  ∃ u, u ∈ geounit_rows ref ∧ r = unit_of u ∧
       (geounit_id u ∈ ids ∨
        (geolevel < geounit_geolevel u ∧ geounit_geolevel u ∈ geolevel_rows ref)).

End SearchWords.

(** ** Vocabulary of the loop of an edit *)

Section EditWords.
Context `{GeometryEngine}.
Variable ref : Reference.

(** A row the loop of [add_geounits] adds for the district [d]: a
    snapshot of [d] for the version after the plan's. When the
    selection does not touch [d], the row is there because [d] had
    later versions, and it has the name and the geometries of [d]. *)
Definition loop_row (self : Plan) (ids : list Z) (db : Database) (d c : District) : Prop :=
  district_id c = district_id d ∧ district_version c = plan_version self + 1 ∧
  district_plan c = district_plan d ∧
  (touches (district_geom d) (incremental_of ref ids) = Ok false →
   latest_in db d = false ∧ district_name c = district_name d ∧
   district_geom c = district_geom d ∧ district_simple c = district_simple d).

End EditWords.

(** * The code around the edit

    [District.sortKey], the permission checks [can_edit], [can_view]
    and [can_copy], and [Plan.get_wfs_districts]. This code raises
    exceptions of its own and does not write to the database. *)

Inductive Exception : Set :=
| TypeError
| KeyError
| IndexError
| ValueError
| ZeroDivisionError.

Inductive Outcome (A : Type) : Type :=
| Returns (a : A)
| Raises (e : Exception).
Arguments Returns {A} a.
Arguments Raises {A} e.

#[export] Instance Exception_eq_dec : EqDecision Exception.
Proof. solve_decision. Defined.

#[export] Instance Outcome_eq_dec {A} `{EqDecision A} : EqDecision (Outcome A).
Proof. solve_decision. Defined.

Definition and_then {A B} (o : Outcome A) (f : A → Outcome B) : Outcome B :=
  match o with
  | Returns a => f a
  | Raises e => Raises e
  end.

Declare Scope outcome_scope.
Delimit Scope outcome_scope with outcome.
Notation "x <- o ;; k" := (and_then o (λ x, k))
  (at level 100, o at next level, right associativity) : outcome_scope.

(** [l[i]]: [IndexError] out of range. *)
Definition item {A} (l : list A) (i : nat) : Outcome A :=
  match l !! i with
  | Some x => Returns x
  | None => Raises IndexError
  end.

(** ** Strings

    A name is a string of characters. The statements on names are
    limited to the characters of ASCII, on which the [str] and the
    [unicode] of Python 2 agree. *)

Section PyStrings.
Import Stdlib.Strings.Ascii.

Fixpoint ascii_only (s : string) : bool :=
  match s with
  | EmptyString => true
  | String c r => (nat_of_ascii c <? 128)%nat && ascii_only r
  end.

(** [s.startswith(prefix)]. *)
Definition startswith (s prefix : string) : bool := String.prefix prefix s.

(** The cut of [s.rsplit(sep, 1)], for a separator of one character:
    what is before the last separator and what is after it. *)
Fixpoint rsplit_last (sep : ascii) (s : string) : option (string * string) :=
  match s with
  | EmptyString => None
  | String c r =>
      match rsplit_last sep r with
      | Some (b, a) => Some (String c b, a)
      | None => if Ascii.eqb c sep then Some (EmptyString, r) else None
      end
  end.

(** [s.rsplit(sep, 1)]: two strings when the separator occurs, the
    string itself otherwise. *)
Definition rsplit (sep : ascii) (s : string) : list string :=
  match rsplit_last sep s with
  | Some (b, a) => [b; a]
  | None => [s]
  end.

Definition is_digit (c : ascii) : bool :=
  (48 <=? nat_of_ascii c)%nat && (nat_of_ascii c <=? 57)%nat.

Fixpoint all_digits (s : string) : bool :=
  match s with
  | EmptyString => true
  | String c r => is_digit c && all_digits r
  end.

(** [s.isdigit()]: every character is a digit and there is one. *)
Definition isdigit (s : string) : bool :=
  match s with
  | EmptyString => false
  | _ => all_digits s
  end.

Fixpoint int_digits (acc : N) (s : string) : Outcome N :=
  match s with
  | EmptyString => Returns acc
  | String c r =>
      if is_digit c
      then int_digits (10 * acc + (N.of_nat (nat_of_ascii c) - 48))%N r
      else Raises ValueError
  end.

(** [int(s)] on a string of decimal digits; [ValueError] on the empty
    string and on any other character ([int] also accepts a sign and
    blanks around the digits, which [isdigit] excludes: they are not
    modelled). *)
Definition int (s : string) : Outcome N :=
  match s with
  | EmptyString => Raises ValueError
  | _ => int_digits 0%N s
  end.

Fixpoint zeros (k : nat) : string :=
  match k with
  | O => EmptyString
  | S k => String "0" (zeros k)
  end.

(** ['%03d' % n] for a number that is not negative: its decimal digits,
    with zeros in front up to three characters. *)
Definition format_03d (n : N) : string :=
  zeros (3 - String.length (pretty n)) +:+ pretty n.

(** A list of strings that increases strictly in the order of [cmp]
    on [str]: each string is below all the later ones. *)
Fixpoint increasing (l : list string) : bool :=
  match l with
  | [] => true
  | x :: r => forallb (String.ltb x) r && increasing r
  end.

(** Every string of [bs] has four characters and is below every
    string of [as_]. *)
Definition four_below (bs as_ : list string) : bool :=
  forallb (λ kb, Nat.eqb (String.length kb) 4 && forallb (String.ltb kb) as_) bs.

End PyStrings.

Section SortKey.
Import Stdlib.Strings.Ascii.
Context `{GeometryEngine}.

Local Open Scope outcome_scope.

(** [District.sortKey]. *)
Definition sortKey (self : District) : Outcome string :=
  let name := district_name self in
  name <- (if startswith name "District "
           then item (rsplit " " name) 1
           else Returns name) ;;
  if isdigit name
  then n <- int name ;; Returns (format_03d n)
  else Returns name.

(** A district with a name and nothing else. *)
Definition named (name : string) : District :=
  mkDistrict None 1 name None None None 0.

End SortKey.

(** ** Permissions *)

(** What the permission checks read of a [User]. *)
Record User := mkUser {
  user_pk : option Z;
  is_staff : bool
}.

(** What the permission checks read of a [Plan]. *)
Record PlanAccess := mkPlanAccess {
  owner : User;
  is_template : bool;
  is_shared : bool
}.

(** [plan.owner == user]: two model instances are equal when their
    primary keys are. *)
Definition User_eq (a b : User) : bool := bool_decide (user_pk a = user_pk b).

Definition can_edit (user : User) (plan : PlanAccess) : bool :=
  (User_eq (owner plan) user || is_staff user) && negb (is_template plan).

Definition can_view (user : User) (plan : PlanAccess) : bool :=
  is_shared plan && negb (is_template plan).

Definition can_copy (user : User) (plan : PlanAccess) : bool :=
  is_template plan || User_eq (owner plan) user || is_staff user.

(** ** [Plan.get_wfs_districts] *)

(** Equality of two nullable columns in SQL: never true on NULL. *)
Definition sql_eq (a b : option Z) : bool :=
  match a, b with
  | Some x, Some y => x =? y
  | _, _ => false
  end.

Section Wfs.
Context `{GeometryEngine}.

(** What the method takes from libraries: the floating-point numbers
    of Python and [float] on a [Decimal], the documents of [json] and
    [json.loads], and the GeoJSON text PostGIS writes for a geometry. *)
Variable Float : Type.
Variable Json : Type.
Variable float : Z → Float.
Variable json_loads : string → Outcome Json.
Variable st_asgeojson : Geometry → string.

Local Open Scope outcome_scope.

(** The subquery [lmt]: for each [district_id] of the plan that has a
    row at or below [version], the greatest such version. *)
Definition lmt (db : Database) (plan_id version : Z) : list (Z * Z) :=
  let rows := filter (λ d, district_plan d = Some plan_id ∧ district_version d ≤ version)
                     (district_rows db) in
  omap (λ i, match Max (district_version <$> filter (λ d, district_id d = i) rows) with
             | Some v => Some (v, i)
             | None => None
             end)
       (remove_dups (district_id <$> rows)).

(** A row of the result: [rd.id], [rd.district_id], [rd.name],
    [lmt.version], [rd.plan_id], [rc.subject_id], [rc.number] and
    [st_asgeojson(rd.simple)], which is NULL when [simple] is. *)
Record WfsRow := mkWfsRow {
  row_id : option Z;
  row_district_id : Z;
  row_name : string;
  row_version : Z;
  row_plan_id : option Z;
  row_subject_id : Z;
  row_number : Z;
  row_geom : option string
}.

Definition wfs_row (rd : District) (rc : ComputedCharacteristic) (l : Z * Z) : WfsRow :=
  mkWfsRow (district_pk rd) (district_id rd) (district_name rd) l.1 (district_plan rd)
           (cc_subject rc) (cc_number rc) (st_asgeojson <$> district_simple rd).

(** The query: the two joins with their [ON] conditions, then the
    [WHERE] clause. SQL leaves the order of the rows open; they are
    listed here in the order of the tables. *)
Definition wfs_query (db : Database) (plan_id version subject_id : Z) : list WfsRow :=
  rd ← district_rows db;
  rc ← computed_rows db;
  l ← lmt db plan_id version;
  if sql_eq (district_pk rd) (cc_district rc)
     && (district_id rd =? l.2)
     && bool_decide (district_plan rd = Some plan_id)
     && (cc_subject rc =? subject_id)
     && (l.1 =? district_version rd)
  then [wfs_row rd rc l]
  else [].

Record Feature := mkFeature {
  feature_id : option Z;
  properties_district_id : Z;
  properties_name : string;
  properties_version : Z;
  properties_number : Float;
  feature_geometry : Json
}.

(** The dictionary built for one row. [json.loads(None)] raises
    [TypeError]. *)
Definition feature (row : WfsRow) : Outcome Feature :=
  let number := float (row_number row) in
  geometry <- match row_geom row with
              | Some s => json_loads s
              | None => Raises TypeError
              end ;;
  Returns (mkFeature (row_id row) (row_district_id row) (row_name row)
                     (row_version row) number geometry).

Fixpoint features_of (rows : list WfsRow) (features : list Feature)
    : Outcome (list Feature) :=
  match rows with
  | [] => Returns features
  | row :: rows =>
      f <- feature row ;;
      features_of rows (features ++ [f])
  end.

(** [Plan.get_wfs_districts]. [int(self.id)] raises [TypeError] on a
    plan that was never saved. *)
Definition get_wfs_districts (self : Plan) (version subject_id : Z) (db : Database)
    : Outcome (list Feature) :=
  match plan_pk self with
  | None => Raises TypeError
  | Some id => features_of (wfs_query db id version subject_id) []
  end.

(** The feature of a district and one of its statistics. *)
Definition feature_of (d : District) (c : ComputedCharacteristic) (g : Json) : Feature :=
  mkFeature (district_pk d) (district_id d) (district_name d) (district_version d)
            (float (cc_number c)) g.

End Wfs.

(** * The calculators

    [CalculatorBase.get_value] and [Sum.compute] of
    [redistricting/calculators.py]. A calculator keeps its result in
    [self.result], which an exception leaves as it was at that point:
    the methods return the outcome together with the result. *)

Module calculators.
Section Calculators.
Context `{GeometryEngine}.

(** What the calculators take from elsewhere: the name of a subject,
    the floating-point numbers of Python, [float] on a value, and [+]
    of a number and a floating-point number. *)
Variable ref : Reference.
Variable subject_name : Z → string.
Variable Float : Type.

(** What [get_value] returns when it is not [None]: the text of a
    literal argument, or the [Decimal] of a statistic. *)
Inductive Value :=
| Str (s : string)
| Decimal (n : Z).

(** [self.result] of [Sum]: the integer it is set to, or the
    floating-point number after the first addition. *)
Inductive Number :=
| Int (n : Z)
| Flt (x : Float).

Variable float : Value → Outcome Float.
Variable add : Number → Float → Float.

(** [self.arg_dict]: argument name to the pair of its type and its
    value. *)
Definition ArgDict := gmap string (string * string).

Local Open Scope outcome_scope.

(** [CalculatorBase.get_value]. [self.arg_dict[argument]] raises
    [KeyError] on a name that is not a key. *)
Definition get_value (arg_dict : ArgDict) (argument : string)
    (district : option District) (db : Database) : Outcome (option Value) :=
  match arg_dict !! argument with
  | None => Raises KeyError
  | Some (argtype, argval) =>
      if String.eqb argtype "literal" then Returns (Some (Str argval))
      else
        match district with
        | Some district =>
            if String.eqb argtype "subject" then
              let cc := filter (λ c, subject_name (cc_subject c) = argval)
                               (computed_of ref db district) in
              match cc with
              | [] => Returns None
              | c :: _ => Returns (Some (Decimal (cc_number c)))
              end
            else Returns None
        | None => Returns None
        end
  end.

(** ['value%d' % argnum]. *)
Definition value (argnum : nat) : string := "value" +:+ pretty argnum.

(** The [while] loop of [Sum.compute], from [argnum] on. [None] is a
    loop that has not ended when the fuel has. *)
Fixpoint Sum_values (fuel : nat) (arg_dict : ArgDict) (district : option District)
    (db : Database) (argnum : nat) (result : Number)
    : option (Outcome unit * Number) :=
  match fuel with
  | O => None
  | S fuel =>
      if bool_decide (is_Some (arg_dict !! value argnum)) then
        match get_value arg_dict (value argnum) district db with
        | Raises e => Some (Raises e, result)
        | Returns None => Sum_values fuel arg_dict district db (argnum + 1) result
        | Returns (Some number) =>
            match float number with
            | Raises e => Some (Raises e, result)
            | Returns x =>
                Sum_values fuel arg_dict district db (argnum + 1) (Flt (add result x))
            end
        end
      else Some (Returns tt, result)
  end.

(** The [for] loop over the districts. *)
Fixpoint Sum_districts (fuel : nat) (arg_dict : ArgDict)
    (districts : list (option District)) (db : Database) (result : Number)
    : option (Outcome unit * Number) :=
  match districts with
  | [] => Some (Returns tt, result)
  | district :: districts =>
      match Sum_values fuel arg_dict district db 1 result with
      | Some (Returns _, result) => Sum_districts fuel arg_dict districts db result
      | other => other
      end
  end.

(** The keyword arguments that [compute] looks at. A district passed
    as [None] is a keyword that is there. *)
Record Kwargs := mkKwargs {
  kw_district : option (option District);
  kw_plan : option Plan
}.

(** [Sum.compute], as a step on [self.result]. With [plan] it calls
    [plan.get_districts_at_version(plan.version, include_geom=False)];
    the method takes no such keyword, and the call raises [TypeError].
    The [while] loop passes each key of [arg_dict] at most once, so one
    more step than the dictionary has keys is fuel enough. *)
Definition Sum_compute (arg_dict : ArgDict) (kwargs : Kwargs) (db : Database)
    (result : option Number) : option (Outcome unit * option Number) :=
  match kw_district kwargs, kw_plan kwargs with
  | Some district, _ =>
      match Sum_districts (S (size arg_dict)) arg_dict [district] db (Int 0) with
      | Some (o, result) => Some (o, Some result)
      | None => None
      end
  | None, Some plan => Some (Raises TypeError, result)
  | None, None => Some (Returns tt, result)
  end.

End Calculators.

(** Whole numbers in the place of the floating-point numbers, to run
    the model: [float] reads a text of digits. *)
Definition float_whole (v : Value) : Outcome Z :=
  match v with
  | Str s => and_then (int s) (λ n, Returns (Z.of_N n))
  | Decimal n => Returns n
  end.

Definition add_whole (result : Number Z) (x : Z) : Z :=
  match result with
  | Int _ n => n + x
  | Flt _ y => y + x
  end.

(** Three literal arguments, the third numbered after a gap, and the
    first two of them. *)
Definition args_first : ArgDict :=
  {[ "value1" := ("literal", "1"); "value2" := ("literal", "2") ]}.

Definition args_gap : ArgDict :=
  <[ "value4" := ("literal", "8") ]> args_first.

End calculators.

(** * Properties *)

(** ** Sorting *)

Section SortedFacts.
Context {A : Type} (key : A → Z).

Lemma insert_sorted_Permutation x l : insert_sorted key x l ≡ₚ x :: l.
Proof.
  induction l as [|y l IH]; simpl; [done|].
  case_bool_decide; [done|]. rewrite IH. apply Permutation_swap.
Qed.

Lemma sorted_Permutation l : sorted key l ≡ₚ l.
Proof.
  induction l as [|x l IH]; simpl; [done|].
  by rewrite insert_sorted_Permutation, IH.
Qed.

Lemma insert_sorted_StronglySorted x l :
  StronglySorted (key_le key) l → StronglySorted (key_le key) (insert_sorted key x l).
Proof.
  induction 1 as [|y l Hs IH Hall]; simpl.
  - repeat constructor.
  - case_bool_decide as Hxy.
    + constructor; [by constructor|].
      constructor; [done|].
      eapply Forall_impl; [exact Hall|]. unfold key_le. intros; lia.
    + constructor; [done|].
      rewrite insert_sorted_Permutation. constructor; [|done].
      unfold key_le. lia.
Qed.

Lemma sorted_StronglySorted l : StronglySorted (key_le key) (sorted key l).
Proof.
  induction l as [|x l IH]; simpl; [constructor|].
  by apply insert_sorted_StronglySorted.
Qed.

(** Stability: the rows of one key keep their order. *)
Lemma insert_sorted_filter_key k x l :
  filter (λ a, key a = k) (insert_sorted key x l)
  = filter (λ a, key a = k) (x :: l).
Proof.
  induction l as [|y l IH]; simpl; [done|].
  case_bool_decide as Hxy; [done|].
  rewrite filter_cons, IH, !filter_cons.
  destruct (decide (key y = k)), (decide (key x = k)); try done. lia.
Qed.

Lemma sorted_filter_key k l :
  filter (λ a, key a = k) (sorted key l) = filter (λ a, key a = k) l.
Proof.
  induction l as [|x l IH]; simpl; [done|].
  by rewrite insert_sorted_filter_key, !filter_cons, IH.
Qed.

(** The same for the rows a filter keeps, when they all have one key. *)
Lemma insert_sorted_filter_same (P : A → Prop) `{!∀ a, Decision (P a)} x l :
  (∀ a b, P a → P b → key a = key b) →
  filter P (insert_sorted key x l) = filter P (x :: l).
Proof.
  intros Hsame. induction l as [|y l IH]; simpl; [done|].
  case_bool_decide as Hxy; [done|].
  rewrite filter_cons, IH, !filter_cons.
  destruct (decide (P y)) as [Hy|], (decide (P x)) as [Hx|]; try done.
  destruct Hxy. rewrite (Hsame x y Hx Hy). lia.
Qed.

Lemma sorted_filter_same (P : A → Prop) `{!∀ a, Decision (P a)} l :
  (∀ a b, P a → P b → key a = key b) →
  filter P (sorted key l) = filter P l.
Proof.
  intros Hsame. induction l as [|x l IH]; simpl; [done|].
  by rewrite insert_sorted_filter_same, !filter_cons, IH.
Qed.

Lemma StronglySorted_filter_keep (P : A → Prop) `{!∀ a, Decision (P a)} l :
  StronglySorted (key_le key) l → StronglySorted (key_le key) (filter P l).
Proof.
  induction 1 as [|y l Hs IH Hall]; [constructor|].
  rewrite filter_cons. destruct (decide (P y)); [|done].
  constructor; [done|].
  apply Forall_forall. intros z Hz. apply list_elem_of_filter in Hz as [_ Hz].
  by eapply Forall_forall in Hall.
Qed.

Lemma StronglySorted_last_max l d :
  StronglySorted (key_le key) l → last l = Some d → ∀ s, s ∈ l → key s ≤ key d.
Proof.
  intros Hs Hl s Hin. apply last_Some in Hl as [l' ->].
  apply elem_of_app in Hin as [Hin|Hin].
  - eapply (StronglySorted_app_1_elem_of (key_le key)); [exact Hs|exact Hin|]. set_solver.
  - apply list_elem_of_singleton in Hin as ->. lia.
Qed.

End SortedFacts.

(** ** Resolution of the districts at a version *)

Section Resolution.
Context `{GeometryEngine}.

Lemma foldl_dvers_lookup V l (m : gmap Z District) i :
  foldl (dvers_step V) m l !! i
  = match last (filter (qualifies V i) l) with
    | Some d => Some d
    | None => m !! i
    end.
Proof.
  revert m. induction l as [|x l IH]; intros m; simpl; [done|].
  rewrite IH, filter_cons. unfold dvers_step at 1.
  destruct (decide (qualifies V i x)) as [[Hi Hv]|Hn].
  - rewrite last_cons. destruct (last (filter _ l)); [done|].
    rewrite bool_decide_eq_false_2 by lia. subst i. apply lookup_insert_eq.
  - destruct (last (filter _ l)); [done|].
    case_bool_decide as Hgt; [done|].
    apply lookup_insert_ne. intros Hi. apply Hn. split; [done|lia].
Qed.

Lemma dvers_lookup_Some rows V i d :
  foldl (dvers_step V) ∅ (sorted sortVer rows) !! i = Some d →
  district_id d = i ∧ latest_at rows V d.
Proof.
  rewrite foldl_dvers_lookup, lookup_empty.
  destruct (last _) as [d'|] eqn:Hl; [|done]. intros [= ->].
  pose proof (last_Some_elem_of _ _ Hl) as Hin.
  apply list_elem_of_filter in Hin as [[Hi Hv] Hin].
  rewrite sorted_Permutation in Hin.
  split; [done|]. split; [done|]. split; [done|].
  intros s Hs Hid Hsv.
  assert (sortVer s ≤ sortVer d) as Hk.
  { eapply (StronglySorted_last_max sortVer); [|exact Hl|].
    - apply StronglySorted_filter_keep. apply sorted_StronglySorted.
    - apply list_elem_of_filter. split; [split; [congruence|done]|].
      by rewrite sorted_Permutation. }
  unfold sortVer in Hk. rewrite Hid in Hk. lia.
Qed.

Lemma dvers_lookup_None rows V i :
  foldl (dvers_step V) ∅ (sorted sortVer rows) !! i = None →
  ∀ s, s ∈ rows → district_id s = i → ¬ district_version s ≤ V.
Proof.
  rewrite foldl_dvers_lookup, lookup_empty.
  destruct (last _) eqn:Hl; [done|]. intros _ s Hs Hi Hv.
  apply last_None in Hl.
  assert (s ∈ filter (qualifies V i) (sorted sortVer rows)) as Hin.
  { apply list_elem_of_filter. split; [done|]. by rewrite sorted_Permutation. }
  rewrite Hl in Hin. by apply not_elem_of_nil in Hin.
Qed.

Lemma elem_of_districts_at_version rows V d :
  d ∈ districts_at_version rows V ↔
  foldl (dvers_step V) ∅ (sorted sortVer rows) !! district_id d = Some d.
Proof.
  unfold districts_at_version. rewrite list_elem_of_fmap. split.
  - intros [[i d'] [-> Hin]]. apply elem_of_map_to_list in Hin. simpl.
    pose proof (dvers_lookup_Some _ _ _ _ Hin) as [<- _]. done.
  - intros Hl. exists (district_id d, d). split; [done|].
    by apply elem_of_map_to_list.
Qed.

Lemma keyed_values_ids (l : list (Z * District)) :
  Forall (λ p, district_id p.2 = p.1) l → district_id <$> l.*2 = l.*1.
Proof.
  induction 1 as [|p l Hp _ IH]; [done|].
  rewrite !fmap_cons. by f_equal.
Qed.

Lemma districts_at_version_ids rows V :
  district_id <$> districts_at_version rows V
  = (map_to_list (foldl (dvers_step V) ∅ (sorted sortVer rows))).*1.
Proof.
  unfold districts_at_version. apply keyed_values_ids.
  apply Forall_forall. intros [i d] Hin. apply elem_of_map_to_list in Hin.
  by apply dvers_lookup_Some in Hin as [? _].
Qed.

Lemma districts_at_version_NoDup rows V :
  NoDup (district_id <$> districts_at_version rows V).
Proof. rewrite districts_at_version_ids. apply NoDup_fst_map_to_list. Qed.

Lemma districts_at_version_latest rows V d :
  d ∈ districts_at_version rows V → latest_at rows V d.
Proof.
  intros Hd. apply elem_of_districts_at_version in Hd.
  by apply dvers_lookup_Some in Hd as [_ ?].
Qed.

Lemma districts_at_version_covers rows V s :
  s ∈ rows → district_version s ≤ V →
  ∃ d, d ∈ districts_at_version rows V ∧ district_id d = district_id s.
Proof.
  intros Hs Hv.
  destruct (foldl (dvers_step V) ∅ (sorted sortVer rows) !! district_id s)
    as [d|] eqn:Hl.
  - pose proof (dvers_lookup_Some _ _ _ _ Hl) as [Hi _].
    exists d. split; [|done]. apply elem_of_districts_at_version. by rewrite Hi.
  - exfalso. by eapply dvers_lookup_None.
Qed.


Lemma latest_at_unique rows V d1 d2 :
  unique_snapshots rows → latest_at rows V d1 → latest_at rows V d2 →
  district_id d1 = district_id d2 → d1 = d2.
Proof.
  intros Hu (Hin1 & Hv1 & Hmax1) (Hin2 & Hv2 & Hmax2) Hid.
  apply Hu; try done.
  pose proof (Hmax1 d2 Hin2 (eq_sym Hid) Hv2).
  pose proof (Hmax2 d1 Hin1 Hid Hv1). lia.
Qed.


Lemma get_districts_at_version_run (self : Plan) V db :
  get_districts_at_version self V db
  = (Ok (districts_at_version (snapshots_of db self) V), db).
Proof. done. Qed.


End Resolution.

(** ** Running the monad *)

Section Runs.
Context `{GeometryEngine}.

Lemma bind_Ok {A B} (m : M A) (f : A → M B) db a db1 :
  m db = (Ok a, db1) → bind m f db = f a db1.
Proof. unfold bind. by intros ->. Qed.

Lemma bind_Raise {A B} (m : M A) (f : A → M B) db e db1 :
  m db = (Raise e, db1) → bind m f db = (Raise e, db1).
Proof. unfold bind. by intros ->. Qed.

Lemma bind_inv_Ok {A B} (m : M A) (f : A → M B) db b db' :
  bind m f db = (Ok b, db') →
  ∃ a db1, m db = (Ok a, db1) ∧ f a db1 = (Ok b, db').
Proof.
  unfold bind. destruct (m db) as [[a|e] db1]; [|done]. intros Hf. by exists a, db1.
Qed.

Lemma bind_inv {A B} (m : M A) (f : A → M B) db r db' :
  bind m f db = (r, db') →
  (∃ a db1, m db = (Ok a, db1) ∧ f a db1 = (r, db')) ∨
  (∃ e, m db = (Raise e, db') ∧ r = Raise e).
Proof.
  unfold bind. destruct (m db) as [[a|e] db1].
  - intros Hf. left. by exists a, db1.
  - intros [= <- <-]. right. by exists e.
Qed.

End Runs.

(** ** The geometry helpers *)

Section GeometryFacts.
Context `{GeometryEngine}.

(** C7, as amended. [enforce_multi] leaves a false operand ([None], or
    a geometry whose [len()] is zero) as it is; on any other geometry
    it is [toMultiRegion]: a multi-polygon comes back unchanged, a
    polygon wrapped, anything else as [empty_geom] of its srid. *)
Theorem enforce_multi_truthy_or_unchanged (geom : option Geometry) :
  enforce_multi geom
  = match geom with
    | Some g => if truthy geom then toMultiRegion g else Ok geom
    | None => Ok None
    end.
Proof.
  destruct geom as [g|]; [|done]. unfold enforce_multi, toMultiRegion.
  destruct (truthy (Some g)); [|done]. by destruct (geom_type g).
Qed.

End GeometryFacts.

(** ** The handlers of the district store *)

Section StoreFacts.
Context `{GeometryEngine}.
Variable ref : Reference.

Lemma filter_replace_row_plan (p : Plan) k rows :
  filter (λ q, plan_pk q = Some k) (replace_row plan_pk p rows)
  = (λ q, if bool_decide (plan_pk p = Some k) then p else q)
      <$> filter (λ q, plan_pk q = Some k) rows.
Proof.
  unfold replace_row. induction rows as [|q rows IH]; [done|].
  rewrite fmap_cons, !filter_cons, IH.
  destruct (bool_decide (plan_pk q = plan_pk p)) eqn:Hq.
  - apply bool_decide_eq_true in Hq.
    destruct (decide (plan_pk p = Some k)) as [Hp|Hp].
    + rewrite decide_True by congruence. rewrite fmap_cons.
      by rewrite bool_decide_eq_true_2.
    + rewrite decide_False by congruence. done.
  - apply bool_decide_eq_false in Hq.
    destruct (decide (plan_pk q = Some k)) as [Hk|Hk]; [|done].
    rewrite fmap_cons. rewrite bool_decide_eq_false_2 by congruence. done.
Qed.


Lemma stored_plan_pk db k p : stored_plan db k = Some p → plan_pk p = Some k.
Proof.
  unfold stored_plan. intros Hp.
  destruct (filter _ (plan_rows db)) as [|q l] eqn:Hf; [done|].
  injection Hp as ->.
  assert (p ∈ filter (λ q, plan_pk q = Some k) (plan_rows db)) as Hin
    by (rewrite Hf; left).
  by apply list_elem_of_filter in Hin as [? _].
Qed.

(** Saving a plan that was read from its row leaves every stored plan
    as it was. *)
Lemma stored_plan_replace_self db k p k' :
  stored_plan db k = Some p →
  head (filter (λ q, plan_pk q = Some k') (replace_row plan_pk p (plan_rows db)))
  = stored_plan db k'.
Proof.
  unfold stored_plan. intros Hp. rewrite filter_replace_row_plan.
  assert (plan_pk p = Some k) as Hpk.
  { destruct (filter _ (plan_rows db)) as [|q l] eqn:Hf; [done|].
    injection Hp as ->.
    assert (p ∈ filter (λ q, plan_pk q = Some k) (plan_rows db)) as Hin
      by (rewrite Hf; left).
    by apply list_elem_of_filter in Hin as [? _]. }
  destruct (decide (k = k')) as [<-|Hne].
  - rewrite bool_decide_eq_true_2 by done.
    destruct (filter _ (plan_rows db)) as [|q l]; [done|].
    simpl in *. congruence.
  - rewrite bool_decide_eq_false_2 by congruence.
    by rewrite list_fmap_id.
Qed.

Lemma has_row_stored_plan db k :
  has_row plan_pk k (plan_rows db) = true ↔ is_Some (stored_plan db k).
Proof.
  unfold has_row, stored_plan. rewrite bool_decide_eq_true, Exists_exists.
  split.
  - intros (p & Hin & Hp).
    assert (p ∈ filter (λ q, plan_pk q = Some k) (plan_rows db)) as Hf
      by (by apply list_elem_of_filter).
    destruct (filter _ _); [by apply not_elem_of_nil in Hf|]. simpl. eauto.
  - intros [p Hp]. exists p.
    destruct (filter _ (plan_rows db)) as [|q l] eqn:Hf; [done|].
    injection Hp as ->.
    assert (p ∈ filter (λ q, plan_pk q = Some k) (plan_rows db)) as Hin
      by (rewrite Hf; left).
    apply list_elem_of_filter in Hin as [? ?]. done.
Qed.

Lemma Plan_get_run k db :
  Plan_get k db
  = match stored_plan db k with
    | Some p => (Ok p, db)
    | None => (Raise DoesNotExist, db)
    end.
Proof.
  unfold Plan_get, stored_plan, bind, get_db.
  by destruct (filter _ (plan_rows db)).
Qed.

End StoreFacts.

Section MaxFacts.

Lemma foldl_max_ge (l : list Z) x : x ≤ foldl Z.max x l.
Proof.
  revert x. induction l as [|y l IH]; intros x; simpl; [lia|].
  specialize (IH (Z.max x y)). lia.
Qed.

Lemma foldl_max_elem (l : list Z) x : foldl Z.max x l = x ∨ foldl Z.max x l ∈ l.
Proof.
  revert x. induction l as [|y l IH]; intros x; simpl; [by left|].
  destruct (IH (Z.max x y)) as [Hm|Hm].
  - rewrite Hm. destruct (Z.max_spec x y) as [[_ ->]|[_ ->]]; [right; left|by left].
  - right. by right.
Qed.

Lemma foldl_max_upper (l : list Z) x y : y ∈ l → y ≤ foldl Z.max x l.
Proof.
  revert x. induction l as [|z l IH]; intros x Hy; [by apply not_elem_of_nil in Hy|].
  simpl. apply elem_of_cons in Hy as [->|Hy].
  - pose proof (foldl_max_ge l (Z.max x z)). lia.
  - by apply IH.
Qed.

Lemma Max_None (l : list Z) : Max l = None ↔ l = [].
Proof. by destruct l. Qed.

Lemma Max_Some (l : list Z) m :
  Max l = Some m ↔ m ∈ l ∧ ∀ y, y ∈ l → y ≤ m.
Proof.
  destruct l as [|x l]; simpl.
  - split; [done|]. intros [Hm _]. by apply not_elem_of_nil in Hm.
  - split.
    + intros [= <-]. split.
      * destruct (foldl_max_elem l x) as [->|?]; [left|by right].
      * intros y Hy. apply elem_of_cons in Hy as [->|Hy];
          [apply foldl_max_ge|by apply foldl_max_upper].
    + intros [Hm Hub]. f_equal. apply Z.le_antisymm.
      * apply Hub. destruct (foldl_max_elem l x) as [->|?]; [left|by right].
      * apply elem_of_cons in Hm as [->|Hm];
          [apply foldl_max_ge|by apply foldl_max_upper].
Qed.

End MaxFacts.

Section HandlerFacts.
Context `{GeometryEngine}.
Variable ref : Reference.

Lemma District_plan_run (d : District) db k p :
  district_plan d = Some k → stored_plan db k = Some p →
  District_plan d db = (Ok p, db).
Proof.
  intros Hk Hp. unfold District_plan. by rewrite Hk, Plan_get_run, Hp.
Qed.

Lemma District_plan_None (d : District) db k :
  district_plan d = Some k → stored_plan db k = None →
  District_plan d db = (Raise DoesNotExist, db).
Proof.
  intros Hk Hp. unfold District_plan. by rewrite Hk, Plan_get_run, Hp.
Qed.

Lemma District_plan_unattached (d : District) db :
  district_plan d = None → District_plan d db = (Raise DoesNotExist, db).
Proof. intros Hk. unfold District_plan. by rewrite Hk. Qed.

Lemma District_plan_same (d : District) db : (District_plan d db).2 = db.
Proof.
  unfold District_plan. destruct (district_plan d) as [k|]; [|done].
  rewrite Plan_get_run. by destruct (stored_plan db k).
Qed.

Lemma District_plan_inv (d : District) db p db' :
  District_plan d db = (Ok p, db') →
  ∃ k, district_plan d = Some k ∧ stored_plan db k = Some p ∧ db' = db.
Proof.
  unfold District_plan. destruct (district_plan d) as [k|]; [|done].
  rewrite Plan_get_run. destruct (stored_plan db k) as [q|] eqn:Hq; [|done].
  intros [= <- <-]. by exists k.
Qed.

Lemma set_district_id_run (d : District) db k p :
  district_id d = 0 → district_plan d = Some k → stored_plan db k = Some p →
  set_district_id ref d db
  = if bool_decide (next_district_id db (Some k) > MAX_DISTRICTS ref + 1)
    then (Raise ValidationError, db)
    else (Ok (District_with_district_id d (next_district_id db (Some k))), db).
Proof.
  intros Hd Hk Hp. unfold set_district_id, next_district_id.
  rewrite bool_decide_eq_true_2 by done. unfold bind at 1.
  rewrite (District_plan_run d db k p Hk Hp). unfold bind at 1, get_db.
  rewrite (stored_plan_pk db k p Hp).
  destruct (Max _) as [m|]; simpl; [|by case_bool_decide].
  destruct (Z.eqb_spec m 0) as [->|Hm]; simpl.
  - change (0 + 1) with 1. by case_bool_decide.
  - by case_bool_decide.
Qed.



Lemma is_latest_version_no_plan (self : District) (db : Database) :
  district_plan self = None →
  is_latest_version self db = (Raise DoesNotExist, db).
Proof.
  intros Hp. unfold is_latest_version. unfold bind at 1.
  by rewrite District_plan_unattached.
Qed.

(** C8, at the failing input. On a district with no plan
    [is_latest_version] raises [Plan.DoesNotExist] when it reads
    [self.plan]; it does not return. *)
Theorem is_latest_version_unattached_raises (self : District) (db : Database) :
  district_plan self = None →
  is_latest_version self db = (Raise DoesNotExist, db).
Proof. apply is_latest_version_no_plan. Qed.

Lemma is_latest_version_run (self : District) db k p :
  district_plan self = Some k → stored_plan db k = Some p →
  is_latest_version self db
  = (Ok (bool_decide
           (Some (district_version self)
            = Max (district_version <$>
                   filter (λ d, district_id d = district_id self)
                     (filter (λ d, district_plan d = Some k) (district_rows db))))),
     db).
Proof.
  intros Hk Hp. unfold is_latest_version. unfold bind at 1.
  rewrite (District_plan_run self db k p Hk Hp).
  unfold district_set, bind, get_db, ret.
  by rewrite (stored_plan_pk db k p Hp).
Qed.

(** For a stored snapshot the test is the one the docstring gives: no
    snapshot of the same district under the plan has a higher
    version. *)
Lemma is_latest_version_stored (self : District) db k p :
  district_plan self = Some k → stored_plan db k = Some p →
  self ∈ district_rows db →
  ∃ b, is_latest_version self db = (Ok b, db) ∧
       (b = true ↔
        ∀ s, s ∈ district_rows db → district_plan s = Some k →
             district_id s = district_id self →
             district_version s ≤ district_version self).
Proof.
  intros Hk Hp Hin. eexists. split; [by eapply is_latest_version_run|].
  rewrite bool_decide_eq_true. split.
  - intros Hm s Hs Hsp Hsi. symmetry in Hm. apply Max_Some in Hm as [_ Hub].
    apply Hub. apply list_elem_of_fmap. exists s. split; [done|].
    apply list_elem_of_filter. split; [done|]. by apply list_elem_of_filter.
  - intros Hub. symmetry. apply Max_Some. split.
    + apply list_elem_of_fmap. exists self. split; [done|].
      apply list_elem_of_filter. split; [done|]. by apply list_elem_of_filter.
    + intros y Hy. apply list_elem_of_fmap in Hy as (s & -> & Hs).
      apply list_elem_of_filter in Hs as [Hsi Hs].
      apply list_elem_of_filter in Hs as [Hsp Hs]. by apply Hub.
Qed.

End HandlerFacts.

Section CreationFacts.
Context `{GeometryEngine}.
Variable ref : Reference.

Lemma name_taken_self db k p :
  stored_plan db k = Some p →
  name_taken p (plan_rows db)
  = bool_decide (Exists (λ q, plan_name q = plan_name p ∧ plan_pk q ≠ Some k)
                   (plan_rows db)).
Proof. intros Hp. unfold name_taken. by rewrite (stored_plan_pk db k p Hp). Qed.

Lemma Plan_write_taken (p : Plan) db :
  name_taken p (plan_rows db) = true → Plan_write p db = (Raise IntegrityError, db).
Proof. intros Ht. unfold Plan_write, bind, get_db. simpl. by rewrite Ht. Qed.


Lemma Plan_write_update (p : Plan) db k :
  name_taken p (plan_rows db) = false →
  plan_pk p = Some k → has_row plan_pk k (plan_rows db) = true →
  Plan_write p db
  = (Ok (p, false),
     mkDatabase (replace_row plan_pk p (plan_rows db))
       (district_rows db) (computed_rows db)
       (plan_seq db) (district_seq db) (computed_seq db)).
Proof.
  intros Ht Hp Hr. unfold Plan_write, bind, get_db. simpl. by rewrite Ht, Hp, Hr.
Qed.

(** The handler re-saves the plan it has read: the row is rewritten as
    it is, unless another plan has its name. *)
Lemma update_plan_edited_time_run (d : District) db k p :
  district_plan d = Some k → stored_plan db k = Some p →
  update_plan_edited_time d db
  = if name_taken p (plan_rows db) then (Raise IntegrityError, db)
    else (Ok tt, mkDatabase (replace_row plan_pk p (plan_rows db)) (district_rows db)
                   (computed_rows db) (plan_seq db) (district_seq db) (computed_seq db)).
Proof.
  intros Hk Hp. unfold update_plan_edited_time. unfold bind at 1.
  rewrite (District_plan_run d db k p Hk Hp).
  destruct (name_taken p (plan_rows db)) eqn:Ht.
  - unfold bind at 1. by rewrite Plan_write_taken.
  - unfold bind at 1. erewrite Plan_write_update; [done|done| |].
    + by apply (stored_plan_pk db k).
    + apply has_row_stored_plan. eauto.
Qed.

Lemma update_plan_edited_time_None (d : District) db k :
  district_plan d = Some k → stored_plan db k = None →
  update_plan_edited_time d db = (Raise DoesNotExist, db).
Proof.
  intros Hk Hp. unfold update_plan_edited_time. unfold bind at 1.
  by rewrite (District_plan_None d db k Hk Hp).
Qed.

(** What a returning run of the handler has done. *)
Lemma update_plan_edited_time_inv (d : District) db db' :
  update_plan_edited_time d db = (Ok tt, db') →
  ∃ k p, district_plan d = Some k ∧ stored_plan db k = Some p ∧
         name_taken p (plan_rows db) = false ∧
         db' = mkDatabase (replace_row plan_pk p (plan_rows db)) (district_rows db)
                 (computed_rows db) (plan_seq db) (district_seq db) (computed_seq db).
Proof.
  intros Hrun. destruct (district_plan d) as [k|] eqn:Hk.
  - destruct (stored_plan db k) as [p|] eqn:Hp.
    + rewrite (update_plan_edited_time_run d db k p Hk Hp) in Hrun.
      destruct (name_taken p (plan_rows db)) eqn:Ht; [done|].
      injection Hrun as <-. by exists k, p.
    + by rewrite (update_plan_edited_time_None d db k Hk Hp) in Hrun.
  - unfold update_plan_edited_time in Hrun. unfold bind at 1 in Hrun.
    by rewrite District_plan_unattached in Hrun.
Qed.


Lemma District_write_insert (d : District) db k :
  district_plan d = Some k → district_pk d = None →
  District_write d db
  = (Ok (District_with_pk d (Some (district_seq db))),
     mkDatabase (plan_rows db)
       (district_rows db ++ [District_with_pk d (Some (district_seq db))])
       (computed_rows db)
       (plan_seq db) (district_seq db + 1) (computed_seq db)).
Proof. intros Hk Hp. unfold District_write, bind, get_db. by rewrite Hk, Hp. Qed.

Lemma District_write_unattached (d : District) db :
  district_plan d = None → District_write d db = (Raise IntegrityError, db).
Proof. intros Hk. unfold District_write, bind, get_db. by rewrite Hk. Qed.


End CreationFacts.

Section StepFacts.
Context `{GeometryEngine}.
Variable ref : Reference.

Lemma same_store_refl db : same_store db db.
Proof. done. Qed.

Lemma same_store_trans db1 db2 db3 :
  same_store db1 db2 → same_store db2 db3 → same_store db1 db3.
Proof. intros (?&?&?) (?&?&?). repeat split; congruence. Qed.

Lemma grows_refl P db : grows P db db.
Proof. split; [done|]. exists []. by rewrite app_nil_r. Qed.

Lemma grows_trans P db1 db2 db3 :
  grows P db1 db2 → grows P db2 db3 → grows P db1 db3.
Proof.
  intros [Hp1 (n1 & Hr1 & Hn1)] [Hp2 (n2 & Hr2 & Hn2)]. split.
  - intros k. by rewrite Hp2, Hp1.
  - exists (n1 ++ n2). rewrite Hr2, Hr1, app_assoc. split; [done|].
    by apply Forall_app.
Qed.

Lemma grows_impl (P Q : District → Prop) db db' :
  (∀ c, P c → Q c) → grows P db db' → grows Q db db'.
Proof.
  intros HPQ [Hp (n & Hr & Hn)]. split; [done|]. exists n. split; [done|].
  by eapply Forall_impl.
Qed.

Lemma same_store_grows P db db' : same_store db db' → grows P db db'.
Proof.
  intros (Hp & Hd & _). split.
  - intros k. unfold stored_plan. by rewrite Hp.
  - exists []. by rewrite app_nil_r.
Qed.

Lemma keeps_impl {A} (R S : Database → Database → Prop) (m : M A) :
  (∀ db db', R db db' → S db db') → keeps R m → keeps S m.
Proof. intros HRS Hm db. apply HRS, Hm. Qed.

Lemma keeps_ret {A} R (a : A) : (∀ db, R db db) → keeps R (ret a).
Proof. intros HR db. apply HR. Qed.

Lemma keeps_raise {A} R e : (∀ db, R db db) → keeps R (@raise _ A e).
Proof. intros HR db. apply HR. Qed.

Lemma keeps_lift {A} R (r : Result A) : (∀ db, R db db) → keeps R (lift r).
Proof. intros HR db. apply HR. Qed.

Lemma keeps_get R : (∀ db, R db db) → keeps R get_db.
Proof. intros HR db. apply HR. Qed.

Lemma keeps_bind {A B} R (m : M A) (f : A → M B) :
  (∀ db1 db2 db3, R db1 db2 → R db2 db3 → R db1 db3) →
  keeps R m → (∀ a, keeps R (f a)) → keeps R (bind m f).
Proof.
  intros Ht Hm Hf db. unfold bind. specialize (Hm db).
  destruct (m db) as [[a|e] db1]; simpl in *; [|done].
  eapply Ht; [exact Hm|]. apply Hf.
Qed.

Lemma keeps_for_each {A} R (l : list A) (body : A → M unit) :
  (∀ db, R db db) →
  (∀ db1 db2 db3, R db1 db2 → R db2 db3 → R db1 db3) →
  (∀ a, keeps R (body a)) → keeps R (for_each l body).
Proof.
  intros Hr Ht Hb. induction l as [|a l IH]; simpl.
  - by apply keeps_ret.
  - apply keeps_bind; [done|apply Hb|]. intros _. apply IH.
Qed.

(** The statistics tables are written without touching plans or
    districts. *)
Lemma Computed_save_same_store c : keeps same_store (Computed_save c).
Proof.
  intros db. unfold Computed_save, bind, get_db, put_db, raise. simpl.
  destruct (negb (fits_decimal (cc_number c))); [done|].
  destruct (cc_district c); [|done].
  destruct (cc_pk c); [|done]. by destruct (has_row _ _ _).
Qed.

Lemma clone_characteristics_from_same_store (self origin : District) :
  keeps same_store (clone_characteristics_from ref self origin).
Proof.
  unfold clone_characteristics_from.
  apply keeps_bind; [apply same_store_trans|by apply keeps_get|].
  intros db0. apply keeps_for_each;
    [apply same_store_refl|apply same_store_trans|].
  intros c. apply Computed_save_same_store.
Qed.

Lemma delta_subject_same_store (self : District) geounits combine changed subject :
  keeps same_store (delta_subject ref self geounits combine changed subject).
Proof.
  unfold delta_subject. destruct (truthy_number _); [|by apply keeps_ret].
  apply keeps_bind; [apply same_store_trans|by apply keeps_get|].
  intros db0. apply keeps_bind; [apply same_store_trans| |].
  - apply Computed_save_same_store.
  - intros _. by apply keeps_ret.
Qed.

Lemma delta_subjects_same_store (self : District) geounits combine changed subjects :
  keeps same_store (delta_subjects ref self geounits combine changed subjects).
Proof.
  revert changed. induction subjects as [|s l IH]; intros changed; simpl.
  - by apply keeps_ret.
  - apply keeps_bind; [apply same_store_trans|apply delta_subject_same_store|].
    intros c. apply IH.
Qed.

Lemma delta_stats_same_store (self : District) geounits combine :
  keeps same_store (delta_stats ref self geounits combine).
Proof. apply delta_subjects_same_store. Qed.

Lemma update_plan_edited_time_grows P (d : District) :
  keeps (grows P) (update_plan_edited_time d).
Proof.
  intros db. destruct (district_plan d) as [k|] eqn:Hk.
  - destruct (stored_plan db k) as [p|] eqn:Hp.
    + erewrite update_plan_edited_time_run by done.
      destruct (name_taken p (plan_rows db)); [apply grows_refl|]. simpl. split.
      * intros k'. by apply stored_plan_replace_self with k.
      * exists []. by rewrite app_nil_r.
    + erewrite update_plan_edited_time_None by done. apply grows_refl.
  - unfold update_plan_edited_time. unfold bind at 1.
    rewrite District_plan_unattached by done. apply grows_refl.
Qed.

Lemma set_district_id_same (d : District) db :
  (set_district_id ref d db).2 = db.
Proof.
  unfold set_district_id. case_bool_decide; [|done].
  unfold bind at 1. pose proof (District_plan_same d db) as Hsame.
  destruct (District_plan d db) as [[p|e] db1]; simpl in Hsame; subst db1; [|done].
  unfold bind, get_db. simpl. by case_bool_decide.
Qed.

Lemma set_district_id_result (d d' : District) db db' :
  set_district_id ref d db = (Ok d', db') →
  ∃ i, d' = District_with_district_id d i ∧ (district_id d ≠ 0 → i = district_id d).
Proof.
  unfold set_district_id. case_bool_decide as Hd.
  - unfold bind at 1. destruct (District_plan d db) as [[p|e] db1]; [|done].
    unfold bind, get_db. simpl.
    destruct (truthy_number _); (case_bool_decide; [done|]);
      intros [= <- <-]; (eexists; split; [reflexivity|done]).
  - intros [= <- <-]. exists (district_id d). split; [by destruct d|done].
Qed.

(** Saving a district that has no primary key yet adds one row. *)
Lemma District_save_grows (P : District → Prop) (d : District) :
  district_pk d = None →
  (∀ i k, (district_id d ≠ 0 → i = district_id d) →
          P (District_with_pk (District_with_district_id d i) (Some k))) →
  keeps (grows P) (District_save ref d).
Proof.
  intros Hpk HP db. unfold District_save. unfold bind at 1.
  pose proof (set_district_id_same d db) as Hdb.
  destruct (set_district_id ref d db) as [[d1|e] db1] eqn:Hs; simpl in *; subst db1;
    [|apply grows_refl].
  apply set_district_id_result in Hs as (i & -> & Hi).
  unfold bind at 1.
  destruct (district_plan d) as [k|] eqn:Hk.
  - erewrite District_write_insert by done.
    eapply grows_trans with (db2 := mkDatabase _ _ _ _ _ _).
    + split; [done|]. simpl. eexists [_]. split; [done|].
      constructor; [|done]. by apply HP.
    + apply (keeps_bind (grows P)); [apply grows_trans|apply update_plan_edited_time_grows|].
      intros _. apply keeps_ret, grows_refl.
  - rewrite District_write_unattached by done. apply grows_refl.
Qed.

Lemma snapshot_grows (self : Plan) (d : District) :
  keeps (grows (copy_at (plan_version self + 1) d)) (snapshot ref self d).
Proof.
  unfold snapshot.
  apply keeps_bind; [apply grows_trans| |].
  - apply District_save_grows; [done|]. intros i k Hi. by split.
  - intros c. apply keeps_bind; [apply grows_trans| |].
    + eapply keeps_impl; [|apply clone_characteristics_from_same_store].
      intros ??. apply same_store_grows.
    + intros _. apply keeps_ret, grows_refl.
Qed.

End StepFacts.

Section EditFacts.
Context `{GeometryEngine}.
Variable ref : Reference.

Lemma Plan_get_same k db : (Plan_get k db).2 = db.
Proof. rewrite Plan_get_run. by destruct (stored_plan db k). Qed.

Lemma is_latest_version_same (d : District) db : (is_latest_version d db).2 = db.
Proof.
  unfold is_latest_version, District_plan.
  destruct (district_plan d) as [k|]; [|done].
  unfold bind at 1. unfold bind at 1.
  pose proof (Plan_get_same k db) as Hs.
  destruct (Plan_get k db) as [[p|e] db1]; simpl in *; subst; done.
Qed.

Lemma keeps_same {A} R (m : M A) :
  (∀ db, R db db) → (∀ db, (m db).2 = db) → keeps R m.
Proof. intros Hr Hm db. rewrite Hm. apply Hr. Qed.

Lemma add_geounits_loop_grows (self : Plan) districtid ids geolevel inc districts fixed target :
  keeps (grows (new_version self))
    (add_geounits_loop ref self districtid ids geolevel inc districts fixed target).
Proof.
  revert fixed target. induction districts as [|d l IH]; intros fixed target; simpl.
  - apply keeps_ret, grows_refl.
  - destruct (district_id d =? districtid); [apply IH|].
    apply keeps_bind; [apply grows_trans|apply keeps_lift, grows_refl|].
    intros hit. destruct hit; simpl.
    + apply keeps_bind; [apply grows_trans|apply keeps_lift, grows_refl|].
      intros geounits.
      apply keeps_bind; [apply grows_trans|apply keeps_lift, grows_refl|].
      intros d'.
      apply keeps_bind; [apply grows_trans| |].
      { eapply keeps_impl; [|apply snapshot_grows].
        intros ??. apply grows_impl. by intros c [? _]. }
      intros c.
      apply keeps_bind; [apply grows_trans| |].
      { eapply keeps_impl; [|apply delta_stats_same_store].
        intros ??. apply same_store_grows. }
      intros changed. apply IH.
    + apply keeps_bind; [apply grows_trans| |].
      { apply keeps_same; [apply grows_refl|apply is_latest_version_same]. }
      intros latest. destruct latest; simpl; [apply IH|].
      apply keeps_bind; [apply grows_trans| |].
      { eapply keeps_impl; [|apply snapshot_grows].
        intros ??. apply grows_impl. by intros c [? _]. }
      intros _. apply IH.
Qed.


End EditFacts.

Section HistoryFacts.
Context `{GeometryEngine}.
Variable ref : Reference.

(** A call of [add_geounits] that returns has gone through every
    step. *)
Lemma add_geounits_Ok_inv (self : Plan) districtid ids geolevel version db fixed self' db' :
  add_geounits ref self districtid ids geolevel version db = (Ok (fixed, self'), db') →
  ∃ fixed1 target db1 geounits target' c db2 changed db3,
    add_geounits_loop ref self districtid ids geolevel (incremental_of ref ids)
      (districts_at_version (snapshots_of db self) version) 0 None db
    = (Ok (fixed1, Some target), db1) ∧
    get_mixed_geounits ref ids geolevel (district_geom target) false = Ok geounits ∧
    merge_incremental target (incremental_of ref ids) = Ok target' ∧
    snapshot ref self target' db1 = (Ok c, db2) ∧
    (if truthy (district_geom c) then delta_stats ref c geounits true else ret false) db2
    = (Ok changed, db3) ∧
    Plan_save ref (Plan_with_version self (plan_version self + 1)) db3 = (Ok self', db') ∧
    fixed = (if changed then fixed1 + 1 else fixed1).
Proof.
  unfold add_geounits. fold (incremental_of ref ids).
  erewrite bind_Ok by apply get_districts_at_version_run.
  intros Hrun. apply bind_inv_Ok in Hrun as ([fixed1 target] & db1 & Hloop & Hrun).
  simpl in Hrun. unfold add_geounits_target in Hrun.
  destruct target as [target|]; [|done].
  apply bind_inv_Ok in Hrun as (geounits & db1' & Hg & Hrun).
  unfold lift in Hg. injection Hg as Hg <-.
  apply bind_inv_Ok in Hrun as (target' & db1' & Hm & Hrun).
  unfold lift in Hm. injection Hm as Hm <-.
  apply bind_inv_Ok in Hrun as (c & db2 & Hs & Hrun).
  apply bind_inv_Ok in Hrun as (changed & db3 & Hd & Hrun).
  apply bind_inv_Ok in Hrun as (p & db4 & Hp & Hrun).
  injection Hrun as <- <- <-.
  by exists fixed1, target, db1, geounits, target', c, db2, changed, db3.
Qed.

(** Saving a plan that has a row: an [UPDATE], refused when another
    plan has the name. *)
Lemma Plan_save_stored (p : Plan) k db :
  plan_pk p = Some k → is_Some (stored_plan db k) →
  Plan_save ref p db
  = if name_taken p (plan_rows db) then (Raise IntegrityError, db)
    else (Ok p, mkDatabase (replace_row plan_pk p (plan_rows db)) (district_rows db)
                  (computed_rows db) (plan_seq db) (district_seq db) (computed_seq db)).
Proof.
  intros Hk Hs. unfold Plan_save. destruct (name_taken p (plan_rows db)) eqn:Ht.
  - unfold bind at 1. by rewrite Plan_write_taken.
  - erewrite bind_Ok;
      [|apply Plan_write_update with k; [done|done|by apply has_row_stored_plan]].
    done.
Qed.

Lemma Plan_save_stored_inv (p p' : Plan) k db db' :
  plan_pk p = Some k → is_Some (stored_plan db k) →
  Plan_save ref p db = (Ok p', db') →
  name_taken p (plan_rows db) = false ∧ p' = p ∧
  db' = mkDatabase (replace_row plan_pk p (plan_rows db)) (district_rows db)
          (computed_rows db) (plan_seq db) (district_seq db) (computed_seq db).
Proof.
  intros Hk Hs Hrun. rewrite (Plan_save_stored p k db Hk Hs) in Hrun.
  destruct (name_taken p (plan_rows db)); [done|]. by injection Hrun as <- <-.
Qed.

Lemma stored_plan_replace (p : Plan) k db :
  plan_pk p = Some k → is_Some (stored_plan db k) →
  head (filter (λ q, plan_pk q = Some k) (replace_row plan_pk p (plan_rows db))) = Some p.
Proof.
  intros Hk [q Hq]. rewrite filter_replace_row_plan.
  rewrite bool_decide_eq_true_2 by done. unfold stored_plan in Hq.
  by destruct (filter _ (plan_rows db)).
Qed.


Lemma stored_plan_fresh_insert (p : Plan) k db :
  (∀ q, q ∈ plan_rows db → plan_pk q ≠ Some k) → plan_pk p = Some k →
  head (filter (λ q, plan_pk q = Some k) (plan_rows db ++ [p])) = Some p.
Proof.
  intros Hfresh Hk. rewrite filter_app.
  assert (filter (λ q, plan_pk q = Some k) (plan_rows db) = []) as ->.
  { destruct (filter _ (plan_rows db)) as [|q l] eqn:Hf; [done|].
    assert (q ∈ filter (λ q, plan_pk q = Some k) (plan_rows db)) as Hin
      by (rewrite Hf; left).
    apply list_elem_of_filter in Hin as [Hq Hin]. by destruct (Hfresh q Hin). }
  by rewrite filter_cons, decide_True.
Qed.



End HistoryFacts.

Section CountFacts.
Context `{GeometryEngine}.
Variable ref : Reference.

Lemma count_of_cons {A} (f : A → bool) a l :
  count_of f (a :: l) = (if f a then 1 else 0) + count_of f l.
Proof.
  unfold count_of. rewrite filter_cons.
  destruct (decide (f a = true)) as [->|Hf].
  - simpl length. lia.
  - destruct (f a); [done|lia].
Qed.

Lemma count_of_ext {A} (f g : A → bool) l :
  (∀ a, a ∈ l → f a = g a) → count_of f l = count_of g l.
Proof.
  induction l as [|a l IH]; intros Hfg; [done|].
  rewrite !count_of_cons, IH.
  - rewrite (Hfg a); [done|left].
  - intros b Hb. apply Hfg. by right.
Qed.

(** [delta_stats], when it returns, reports whether some subject had a
    sum to apply. *)
Lemma delta_subjects_result (self : District) geounits combine changed subjects db b db' :
  delta_subjects ref self geounits combine changed subjects db = (Ok b, db') →
  b = changed || existsb (λ s, truthy_number (stats_delta ref geounits s)) subjects.
Proof.
  revert changed db. induction subjects as [|s l IH]; intros changed db; simpl.
  - intros [= <- _]. by rewrite orb_false_r.
  - intros Hrun. apply bind_inv_Ok in Hrun as (c & db1 & Hs & Hrun).
    apply IH in Hrun as ->.
    unfold delta_subject in Hs. fold (stats_delta ref geounits s) in Hs.
    destruct (truthy_number (stats_delta ref geounits s)).
    + apply bind_inv_Ok in Hs as (db0 & ? & _ & Hs).
      apply bind_inv_Ok in Hs as (? & ? & _ & Hs). injection Hs as <- _.
      by rewrite orb_true_r.
    + injection Hs as <- _. by rewrite orb_false_l.
Qed.

Lemma delta_stats_result (self : District) geounits combine db b db' :
  delta_stats ref self geounits combine db = (Ok b, db') →
  b = stats_change ref geounits.
Proof. intros Hrun. by apply delta_subjects_result in Hrun as ->. Qed.

Lemma is_latest_version_result (d : District) db b db' :
  is_latest_version d db = (Ok b, db') → b = latest_in db d.
Proof.
  intros Hrun. destruct (district_plan d) as [k|] eqn:Hk.
  - destruct (stored_plan db k) as [p|] eqn:Hp.
    + erewrite is_latest_version_run in Hrun by done. injection Hrun as <- _.
      unfold latest_in. by rewrite Hk.
    + unfold is_latest_version, District_plan in Hrun. rewrite Hk in Hrun.
      unfold bind at 1 in Hrun. unfold bind at 1 in Hrun.
      by rewrite Plan_get_run, Hp in Hrun.
  - by rewrite is_latest_version_no_plan in Hrun.
Qed.

Lemma latest_in_grows (d : District) db db' :
  grows (λ c, district_id c ≠ district_id d) db db' →
  latest_in db' d = latest_in db d.
Proof.
  intros [_ (new & Hrows & Hnew)]. unfold latest_in. rewrite Hrows, !filter_app.
  assert (filter (λ s, district_id s = district_id d)
            (filter (λ s, district_plan s = district_plan d) new) = []) as ->;
    [|by rewrite app_nil_r].
  clear Hrows. induction Hnew as [|c l Hc _ IH]; [done|].
  rewrite (filter_cons (λ s, district_plan s = district_plan d)).
  destruct (decide (district_plan c = district_plan d)); [|done].
  by rewrite filter_cons, decide_False.
Qed.

Lemma subtract_incremental_id (d d' : District) inc :
  subtract_incremental d inc = Ok d' →
  district_id d' = district_id d ∧ district_plan d' = district_plan d ∧
  district_pk d' = district_pk d.
Proof.
  unfold subtract_incremental.
  destruct (difference_or_empty _ _) as [g|]; cbn [rbind]; [|done].
  destruct (enforce_multi (Some g)) as [g1|]; cbn [rbind]; [|done].
  destruct (attr g1) as [g2|]; cbn [rbind]; [|done].
  destruct (negb (empty g2)); [|by intros [= <-]].
  destruct (enforce_multi _); cbn [rbind]; [|done]. by intros [= <-].
Qed.

Lemma counts_district_grows db db' districtid ids geolevel i (l : list District) :
  grows (λ c, district_id c = i) db db' →
  (∀ d, d ∈ l → district_id d ≠ i) →
  count_of (counts_district ref db' districtid ids geolevel) l
  = count_of (counts_district ref db districtid ids geolevel) l.
Proof.
  intros Hg Hl. apply count_of_ext. intros d Hd. unfold counts_district.
  destruct (district_id d =? districtid); [done|].
  destruct (touches _ _) as [[]|]; try done.
  f_equal. apply latest_in_grows. eapply grows_impl; [|exact Hg].
  intros c ->. intros Heq. by apply (Hl d Hd).
Qed.

Lemma add_geounits_loop_count (self : Plan) districtid ids geolevel districts
    fixed target db fixed' target' db' :
  NoDup (district_id <$> districts) →
  (∀ d, d ∈ districts → district_id d ≠ 0) →
  add_geounits_loop ref self districtid ids geolevel (incremental_of ref ids)
    districts fixed target db = (Ok (fixed', target'), db') →
  fixed' = fixed + count_of (counts_district ref db districtid ids geolevel) districts ∧
  (target' = target ∨
   ∃ t, target' = Some t ∧ t ∈ districts ∧ district_id t = districtid).
Proof.
  revert fixed target db. induction districts as [|d l IH];
    intros fixed target db Hnd Hnz; simpl.
  - intros [= <- <- _]. split; [unfold count_of; simpl; lia|by left].
  - rewrite fmap_cons in Hnd. apply NoDup_cons in Hnd as [Hd Hnd].
    assert (∀ d', d' ∈ l → district_id d' ≠ district_id d) as Hother.
    { intros d' Hd' Heq. apply Hd. apply list_elem_of_fmap. by exists d'. }
    assert (∀ d', d' ∈ l → district_id d' ≠ 0) as Hnz'
      by (intros d' ?; apply Hnz; by right).
    assert (district_id d ≠ 0) as Hdnz by (apply Hnz; left).
    rewrite count_of_cons. unfold counts_district at 1.
    destruct (district_id d =? districtid) eqn:Hid.
    + intros Hrun. apply IH in Hrun as [-> Ht]; [|done..]. split; [lia|].
      right. destruct Ht as [->|(t & -> & Ht & Hti)].
      * exists d. split; [done|]. split; [left|by apply Z.eqb_eq].
      * exists t. split; [done|]. split; [by right|done].
    + intros Hrun.
      apply bind_inv_Ok in Hrun as (hit & db1 & Hhit & Hrun).
      unfold lift in Hhit. injection Hhit as Hhit <-. rewrite Hhit.
      assert (∀ (d1 : District) c db1 db2,
                district_id d1 = district_id d →
                snapshot ref self d1 db1 = (Ok c, db2) →
                count_of (counts_district ref db2 districtid ids geolevel) l
                = count_of (counts_district ref db1 districtid ids geolevel) l) as Hsnap.
      { intros d1 c dba dbb Hd1 Hs. apply counts_district_grows with (district_id d);
          [|done].
        pose proof (snapshot_grows ref self d1 dba) as G. rewrite Hs in G.
        eapply grows_impl; [|exact G].
        intros c' (_ & _ & Hc'). rewrite <- Hd1. apply Hc'. congruence. }
      destruct hit; simpl in Hrun.
      * apply bind_inv_Ok in Hrun as (geounits & db2 & Hg & Hrun).
        unfold lift in Hg. injection Hg as Hg <-. rewrite Hg.
        apply bind_inv_Ok in Hrun as (d' & db2 & Hsub & Hrun).
        unfold lift in Hsub. injection Hsub as Hsub <-.
        apply subtract_incremental_id in Hsub as (Hd' & _ & _).
        apply bind_inv_Ok in Hrun as (c & db2 & Hs & Hrun).
        apply bind_inv_Ok in Hrun as (changed & db3 & Hdelta & Hrun).
        pose proof (delta_stats_same_store ref c geounits false db2) as Hsame.
        rewrite Hdelta in Hsame. simpl in Hsame.
        apply delta_stats_result in Hdelta as ->.
        apply IH in Hrun as [-> Ht]; [|done..].
        assert (count_of (counts_district ref db3 districtid ids geolevel) l
                = count_of (counts_district ref db districtid ids geolevel) l) as ->.
        { rewrite <- (Hsnap d' c db db2 Hd' Hs).
          apply counts_district_grows with (district_id d); [|done].
          apply same_store_grows, Hsame. }
        split; [destruct (stats_change ref geounits); lia|].
        destruct Ht as [->|(t & -> & Ht & Hti)]; [by left|].
        right. exists t. split; [done|]. split; [by right|done].
      * apply bind_inv_Ok in Hrun as (latest & db2 & Hl & Hrun).
        pose proof (is_latest_version_same d db) as Hsame.
        rewrite Hl in Hsame. simpl in Hsame. subst db2.
        apply is_latest_version_result in Hl as ->.
        destruct (latest_in db d); simpl in *.
        -- apply IH in Hrun as [-> Ht]; [|done..]. split; [lia|].
           destruct Ht as [->|(t & -> & Ht & Hti)]; [by left|].
           right. exists t. split; [done|]. split; [by right|done].
        -- apply bind_inv_Ok in Hrun as (c & db2 & Hs & Hrun).
           apply IH in Hrun as [-> Ht]; [|done..].
           rewrite (Hsnap d c db db2 eq_refl Hs). split; [lia|].
           destruct Ht as [->|(t & -> & Ht & Hti)]; [by left|].
           right. exists t. split; [done|]. split; [by right|done].
Qed.

End CountFacts.

Section CountTheorem.
Context `{GeometryEngine}.
Variable ref : Reference.

(** What a returning save of a new row has done. *)
Lemma District_save_new_inv (d c : District) db db' :
  district_pk d = None →
  District_save ref d db = (Ok c, db') →
  ∃ i, (district_id d ≠ 0 → i = district_id d) ∧
       c = District_with_pk (District_with_district_id d i) (Some (district_seq db)) ∧
       district_rows db' = district_rows db ++ [c] ∧
       computed_rows db' = computed_rows db ∧
       district_seq db' = district_seq db + 1 ∧
       computed_seq db' = computed_seq db.
Proof.
  intros Hpk Hrun. unfold District_save in Hrun.
  apply bind_inv_Ok in Hrun as (d1 & db1 & Hs & Hrun).
  pose proof (set_district_id_same ref d db) as Hdb. rewrite Hs in Hdb.
  simpl in Hdb. subst db1.
  apply set_district_id_result in Hs as (i & -> & Hi).
  apply bind_inv_Ok in Hrun as (d2 & db2 & Hw & Hrun).
  apply bind_inv_Ok in Hrun as ([] & db3 & Hu & Hrun). injection Hrun as <- <-.
  exists i. split; [done|].
  destruct (district_plan d) as [k|] eqn:Hk.
  - erewrite District_write_insert in Hw by done. injection Hw as <- <-.
    by apply update_plan_edited_time_inv in Hu as (k' & p & _ & _ & _ & ->).
  - by rewrite District_write_unattached in Hw.
Qed.

Lemma clone_characteristics_from_rows (self origin : District) db :
  district_rows (clone_characteristics_from ref self origin db).2 = district_rows db ∧
  district_seq (clone_characteristics_from ref self origin db).2 = district_seq db.
Proof.
  by destruct (clone_characteristics_from_same_store ref self origin db) as (_ & ? & ?).
Qed.

Lemma snapshot_Ok_inv (self : Plan) (d c : District) db db' :
  snapshot ref self d db = (Ok c, db') →
  ∃ i, (district_id d ≠ 0 → i = district_id d) ∧
       c = mkDistrict (Some (district_seq db)) i (district_name d) (district_plan d)
             (district_geom d) (district_simple d) (plan_version self + 1) ∧
       district_rows db' = district_rows db ++ [c] ∧
       district_seq db' = district_seq db + 1.
Proof.
  unfold snapshot. intros Hrun.
  apply bind_inv_Ok in Hrun as (c' & db1 & Hs & Hrun).
  apply District_save_new_inv in Hs as (i & Hi & -> & Hrows & _ & Hseq & _); [|done].
  apply bind_inv_Ok in Hrun as ([] & db2 & Hc & Hrun). injection Hrun as <- <-.
  exists i. split; [done|]. split; [done|].
  pose proof (clone_characteristics_from_rows
                (District_with_pk
                   (District_with_district_id
                      (District_with_pk
                         (District_with_version d (plan_version self + 1)) None) i)
                   (Some (district_seq db))) d db1) as [Hr Hq].
  rewrite Hc in Hr, Hq. simpl in Hr, Hq. by rewrite Hr, Hq.
Qed.

(** C2, as amended. The count [add_geounits] returns is the number of
    districts other than the target that were carried forward (they do
    not touch the selection and are not the latest version) or that
    touch the selection and had a statistic changed by the units found
    inside them, plus one when the target has a geometry after the
    edit and a statistic changed by the units found outside its old
    boundary. *)
Theorem add_geounits_counts_carried_forward (self : Plan) (districtid : Z)
    (geounit_ids : list Z) (geolevel version : Z) (db : Database)
    (fixed : Z) (self' : Plan) (db' : Database) :
  (∀ d, d ∈ district_rows db → district_id d ≠ 0) →
  add_geounits ref self districtid geounit_ids geolevel version db
    = (Ok (fixed, self'), db') →
  ∃ target,
    target ∈ districts_at_version (snapshots_of db self) version ∧
    district_id target = districtid ∧
    fixed
    = count_of (counts_district ref db districtid geounit_ids geolevel)
        (districts_at_version (snapshots_of db self) version)
      + (if counts_target ref geounit_ids geolevel target then 1 else 0).
Proof.
  intros Hnz Hrun.
  apply add_geounits_Ok_inv in Hrun
    as (fixed1 & target & db1 & geounits & target' & c & db2 & changed & db3
        & Hloop & Hunits & Hmerge & Hsnap & Hdelta & _ & ->).
  apply add_geounits_loop_count in Hloop as [-> Ht].
  - destruct Ht as [Ht|(t & Ht & Hin & Hid)]; [done|]. injection Ht as <-.
    exists target. split; [done|]. split; [done|]. rewrite Z.add_0_l.
    unfold counts_target. rewrite Hmerge, Hunits.
    apply snapshot_Ok_inv in Hsnap as (i & _ & -> & _). simpl in Hdelta.
    destruct (truthy (district_geom target')); simpl.
    + apply delta_stats_result in Hdelta as ->.
      destruct (stats_change ref geounits); lia.
    + injection Hdelta as <- _. lia.
  - apply districts_at_version_NoDup.
  - intros d Hd. apply Hnz. apply districts_at_version_latest in Hd as [Hd _].
    unfold snapshots_of in Hd. destruct (plan_pk self); [|by apply not_elem_of_nil in Hd].
    by apply list_elem_of_filter in Hd as [_ ?].
Qed.

End CountTheorem.

Section AggregateFacts.
Context `{GeometryEngine}.
Variable ref : Reference.

Lemma aggregate_eq db (d : District) k S :
  district_pk d = Some k → aggregate db d S = aggregate_of db k S.
Proof.
  intros Hk. unfold aggregate. by rewrite Hk.
Qed.

Lemma Computed_save_overflow (c : ComputedCharacteristic) db :
  fits_decimal (cc_number c) = false → Computed_save c db = (Raise DatabaseError, db).
Proof. intros Hf. unfold Computed_save, bind, get_db. simpl. by rewrite Hf. Qed.

Lemma Computed_save_Ok_fits (c : ComputedCharacteristic) db db' :
  Computed_save c db = (Ok tt, db') → fits_decimal (cc_number c) = true.
Proof.
  intros Hrun. destruct (fits_decimal (cc_number c)) eqn:Hf; [done|].
  by rewrite Computed_save_overflow in Hrun.
Qed.

Lemma Computed_save_insert (c : ComputedCharacteristic) k db :
  fits_decimal (cc_number c) = true → cc_pk c = None → cc_district c = Some k →
  Computed_save c db
  = (Ok tt, mkDatabase (plan_rows db) (district_rows db)
              (computed_rows db
               ++ [mkComputed (Some (computed_seq db)) (cc_subject c)
                     (cc_district c) (cc_number c)])
              (plan_seq db) (district_seq db) (computed_seq db + 1)).
Proof.
  intros Hf Hp Hk. unfold Computed_save, bind, get_db. simpl. by rewrite Hf, Hk, Hp.
Qed.

Lemma Computed_save_update (c : ComputedCharacteristic) p k db :
  fits_decimal (cc_number c) = true → cc_pk c = Some p → cc_district c = Some k →
  has_row cc_pk p (computed_rows db) = true →
  Computed_save c db
  = (Ok tt, mkDatabase (plan_rows db) (district_rows db)
              (replace_row cc_pk c (computed_rows db))
              (plan_seq db) (district_seq db) (computed_seq db)).
Proof.
  intros Hf Hp Hk Hr. unfold Computed_save, bind, get_db. simpl.
  by rewrite Hf, Hk, Hp, Hr.
Qed.

Lemma well_formed_fresh_pk db c :
  well_formed db → c ∈ computed_rows db → cc_pk c ≠ Some (computed_seq db).
Proof.
  intros (_ & Hpk & _) Hc Heq. eapply Forall_forall in Hpk as (p & Hp & Hlt); [|exact Hc].
  rewrite Hp in Heq. injection Heq as ->. lia.
Qed.

Lemma well_formed_fresh_district db c :
  well_formed db → c ∈ computed_rows db → cc_district c ≠ Some (district_seq db).
Proof.
  intros (_ & _ & Hd & _) Hc Heq. eapply Forall_forall in Hd as (p & Hp & Hlt); [|exact Hc].
  rewrite Hp in Heq. injection Heq as ->. lia.
Qed.

(** Appending a row for [(k, S)]. *)
Lemma rows_for_app db rows k S :
  filter (λ c, cc_subject c = S)
    (filter (λ c, cc_district c = Some k) (computed_rows db ++ rows))
  = rows_for db k S
    ++ filter (λ c, cc_subject c = S) (filter (λ c, cc_district c = Some k) rows).
Proof. unfold rows_for. by rewrite !filter_app. Qed.

Lemma well_formed_insert db c k :
  well_formed db → k < district_seq db →
  well_formed
    (mkDatabase (plan_rows db) (district_rows db)
       (computed_rows db ++ [mkComputed (Some (computed_seq db)) (cc_subject c) (Some k)
                               (cc_number c)])
       (plan_seq db) (district_seq db) (computed_seq db + 1)).
Proof.
  intros Hwf Hk. pose proof Hwf as (Hnd & Hpk & Hd & Hdr).
  split; [|split; [|split]]; simpl.
  - rewrite fmap_app. apply NoDup_app. split; [done|]. split.
    + intros x Hx Hx'. apply list_elem_of_singleton in Hx' as ->.
      apply list_elem_of_fmap in Hx as (c' & Hc' & Hin).
      by eapply well_formed_fresh_pk.
    + apply NoDup_singleton.
  - apply Forall_app. split.
    + eapply Forall_impl; [exact Hpk|]. intros c' (p & ? & ?). exists p. split; [done|lia].
    + constructor; [|done]. eexists. split; [done|]. simpl. lia.
  - apply Forall_app. split; [done|]. constructor; [|done]. by exists k.
  - done.
Qed.

End AggregateFacts.

Section DeltaFacts.
Context `{GeometryEngine}.
Variable ref : Reference.

Lemma NoDup_fmap_inj {A B} (f : A → B) (l : list A) x y :
  NoDup (f <$> l) → x ∈ l → y ∈ l → f x = f y → x = y.
Proof.
  induction l as [|a l IH]; intros Hnd Hx Hy Hf; [by apply not_elem_of_nil in Hx|].
  rewrite fmap_cons in Hnd. apply NoDup_cons in Hnd as [Ha Hnd].
  apply elem_of_cons in Hx as [->|Hx]; apply elem_of_cons in Hy as [->|Hy]; try done.
  - destruct Ha. rewrite Hf. apply list_elem_of_fmap. by exists y.
  - destruct Ha. rewrite <- Hf. apply list_elem_of_fmap. by exists x.
  - by apply IH.
Qed.

Lemma filter_fmap_commute {A} (P : A → Prop) `{!∀ a, Decision (P a)} (f : A → A)
    (l : list A) :
  (∀ a, P (f a) ↔ P a) → filter P (f <$> l) = f <$> filter P l.
Proof.
  intros Hf. induction l as [|a l IH]; [done|].
  rewrite fmap_cons, !filter_cons, IH.
  destruct (decide (P a)) as [Ha|Ha].
  - by rewrite decide_True by (by apply Hf).
  - by rewrite decide_False by (by rewrite Hf).
Qed.

(** The table after [computed.save()] on the row [c] with a new
    number: only that row differs. *)
Lemma replace_row_number db (c : ComputedCharacteristic) n :
  well_formed db → c ∈ computed_rows db →
  replace_row cc_pk (mkComputed (cc_pk c) (cc_subject c) (cc_district c) n)
    (computed_rows db)
  = (λ r, if bool_decide (r = c)
          then mkComputed (cc_pk c) (cc_subject c) (cc_district c) n else r)
      <$> computed_rows db.
Proof.
  intros (Hnd & _) Hc. unfold replace_row. apply list_fmap_ext.
  intros i r Hr. apply list_elem_of_lookup_2 in Hr. simpl.
  destruct (decide (r = c)) as [->|Hne].
  - by rewrite !bool_decide_eq_true_2.
  - rewrite (bool_decide_eq_false_2 (r = c)) by done.
    rewrite bool_decide_eq_false_2; [done|].
    intros Heq. apply Hne. by eapply (NoDup_fmap_inj cc_pk).
Qed.

Lemma rows_for_elem db k S c :
  c ∈ rows_for db k S ↔
  cc_subject c = S ∧ cc_district c = Some k ∧ c ∈ computed_rows db.
Proof. unfold rows_for. by rewrite !list_elem_of_filter. Qed.

Lemma aggregate_of_update db (c : ComputedCharacteristic) n k0 S0 rest :
  well_formed db → rows_for db k0 S0 = c :: rest →
  let db' := mkDatabase (plan_rows db) (district_rows db)
               (replace_row cc_pk
                  (mkComputed (cc_pk c) (cc_subject c) (cc_district c) n)
                  (computed_rows db))
               (plan_seq db) (district_seq db) (computed_seq db) in
  well_formed db' ∧
  (∀ k S, aggregate_of db' k S
          = if bool_decide (k = k0 ∧ S = S0) then n else aggregate_of db k S) ∧
  (∀ k S, ¬ (k = k0 ∧ S = S0) → rows_for db' k S = rows_for db k S).
Proof.
  intros Hwf Hrows.
  assert (c ∈ rows_for db k0 S0) as Hc by (rewrite Hrows; left).
  apply rows_for_elem in Hc as (HcS & Hck & Hc).
  simpl. rewrite replace_row_number by done.
  set (f := λ r, if bool_decide (r = c)
                 then mkComputed (cc_pk c) (cc_subject c) (cc_district c) n else r).
  assert (∀ r, cc_pk (f r) = cc_pk r) as Hfpk
    by (intros r; unfold f; case_bool_decide; by subst).
  assert (∀ r, cc_district (f r) = cc_district r) as Hfd
    by (intros r; unfold f; case_bool_decide; by subst).
  assert (∀ r, cc_subject (f r) = cc_subject r) as Hfs
    by (intros r; unfold f; case_bool_decide; by subst).
  assert (∀ k S, rows_for
                   (mkDatabase (plan_rows db) (district_rows db)
                      (f <$> computed_rows db)
                      (plan_seq db) (district_seq db) (computed_seq db)) k S
                 = f <$> rows_for db k S) as Hrf.
  { intros k S. unfold rows_for. simpl.
    rewrite (filter_fmap_commute (λ c, cc_district c = Some k))
      by (intros r; by rewrite Hfd).
    by rewrite (filter_fmap_commute (λ c, cc_subject c = S))
      by (intros r; by rewrite Hfs). }
  destruct Hwf as (Hnd & Hpk & Hd & Hdr). split; [|split].
  - split; [|split; [|split]]; simpl.
    + rewrite <- list_fmap_compose.
      erewrite list_fmap_ext; [exact Hnd|]. intros i r _. simpl. apply Hfpk.
    + apply Forall_fmap. eapply Forall_impl; [exact Hpk|].
      intros r Hr. simpl. by rewrite Hfpk.
    + apply Forall_fmap. eapply Forall_impl; [exact Hd|].
      intros r Hr. simpl. by rewrite Hfd.
    + done.
  - intros k S. unfold aggregate_of at 1. rewrite Hrf.
    case_bool_decide as Hks.
    + destruct Hks as [-> ->]. rewrite Hrows. simpl. unfold f.
      by rewrite bool_decide_eq_true_2.
    + unfold aggregate_of.
      destruct (rows_for db k S) as [|r l] eqn:Hr; [done|]. simpl.
      assert (r ∈ rows_for db k S) as Hin by (rewrite Hr; left).
      apply rows_for_elem in Hin as (HrS & Hrk & _).
      unfold f. rewrite bool_decide_eq_false_2; [done|].
      intros ->. apply Hks. split; congruence.
  - intros k S Hks. rewrite Hrf. rewrite <- (list_fmap_id (rows_for db k S)) at 2.
    apply list_fmap_ext. intros i r Hr. apply list_elem_of_lookup_2 in Hr.
    apply rows_for_elem in Hr as (HrS & Hrk & _).
    unfold f. rewrite bool_decide_eq_false_2; [done|].
    intros ->. apply Hks. split; congruence.
Qed.

Lemma aggregate_of_insert db k0 S0 n :
  well_formed db → k0 < district_seq db →
  let db' := mkDatabase (plan_rows db) (district_rows db)
               (computed_rows db ++ [mkComputed (Some (computed_seq db)) S0 (Some k0) n])
               (plan_seq db) (district_seq db) (computed_seq db + 1) in
  well_formed db' ∧
  (∀ k S, aggregate_of db' k S
          = if bool_decide (k = k0 ∧ S = S0 ∧ rows_for db k0 S0 = [])
            then n else aggregate_of db k S) ∧
  (∀ k S, ¬ (k = k0 ∧ S = S0) → rows_for db' k S = rows_for db k S).
Proof.
  intros Hwf Hk. simpl. split; [|split].
  - apply (well_formed_insert db (mkComputed None S0 None n) k0 Hwf Hk).
  - intros k S. unfold aggregate_of at 1. unfold rows_for at 1. simpl.
    rewrite rows_for_app.
    rewrite (filter_cons (λ c, cc_district c = Some k)). simpl.
    destruct (decide (Some k0 = Some k)) as [Hkk|Hkk].
    + injection Hkk as ->. rewrite filter_cons. simpl.
      destruct (decide (S0 = S)) as [->|HS].
      * unfold aggregate_of. destruct (rows_for db k S) eqn:Hr; simpl.
        -- by rewrite bool_decide_eq_true_2.
        -- rewrite bool_decide_eq_false_2; [done|]. by intros (_ & _ & ?).
      * rewrite app_nil_r. rewrite bool_decide_eq_false_2; [done|].
        intros (_ & ? & _). congruence.
    + rewrite filter_nil, app_nil_r.
      rewrite bool_decide_eq_false_2; [done|]. intros (? & _). congruence.
  - intros k S Hks. unfold rows_for at 1. simpl. rewrite rows_for_app.
    rewrite (filter_cons (λ c, cc_district c = Some k)). simpl.
    destruct (decide (Some k0 = Some k)) as [Hkk|Hkk];
      [|by rewrite filter_nil, app_nil_r].
    injection Hkk as ->. rewrite filter_cons. simpl.
    destruct (decide (S0 = S)) as [->|HS]; [by destruct Hks|].
    by rewrite app_nil_r.
Qed.

Lemma truthy_number_false_default o :
  truthy_number o = false → default 0 o = 0.
Proof.
  destruct o as [n|]; simpl; [|done].
  destruct (Z.eqb_spec n 0); [done|discriminate].
Qed.

(** The rows of one subject have one place in the order of
    [computed_of], so the row looked up is the first in the table. *)
Lemma computed_of_subject db (self : District) k S :
  district_pk self = Some k →
  filter (λ c, cc_subject c = S) (computed_of ref db self) = rows_for db k S.
Proof.
  intros Hk. unfold computed_of, rows_for. rewrite Hk.
  apply (sorted_filter_same _ (λ c, cc_subject c = S)).
  by intros a b -> ->.
Qed.

(** One pass of [delta_stats]: a subject whose sum is absent or zero is
    skipped and the database is untouched; otherwise the row of the
    district for the subject is looked up, or created at zero, and the
    sum is added or subtracted. No other aggregate moves. *)
Lemma delta_subject_spec (self : District) k units combine changed S db :
  well_formed db → district_pk self = Some k → k < district_seq db →
  delta_fits ref db k units combine [S] →
  ∃ db',
    delta_subject ref self units combine changed S db
    = (Ok (changed || truthy_number (stats_delta ref units S)), db') ∧
    well_formed db' ∧
    district_seq db' = district_seq db ∧
    (∀ k' S',
       aggregate_of db' k' S'
       = if bool_decide (k' = k ∧ S' = S)
         then (if combine
               then aggregate_of db k S + default 0 (stats_delta ref units S)
               else aggregate_of db k S - default 0 (stats_delta ref units S))
         else aggregate_of db k' S') ∧
    (truthy_number (stats_delta ref units S) = false → db' = db) ∧
    (∀ k' S', ¬ (k' = k ∧ S' = S) → rows_for db' k' S' = rows_for db k' S').
Proof.
  intros Hwf Hk Hlt Hfit. unfold delta_subject. fold (stats_delta ref units S).
  destruct (truthy_number (stats_delta ref units S)) eqn:Ht.
  - specialize (Hfit S (list_elem_of_here _ _) Ht). unfold aggregate_of in Hfit.
    unfold bind at 1, get_db. rewrite (computed_of_subject db self k S Hk).
    destruct (rows_for db k S) as [|c rest] eqn:Hrows.
    + rewrite Hk. erewrite bind_Ok; [|by eapply Computed_save_insert].
      simpl cc_subject. simpl cc_district. simpl cc_number.
      destruct (aggregate_of_insert db k S
                  (if combine then 0 + default 0 (stats_delta ref units S)
                   else 0 - default 0 (stats_delta ref units S)) Hwf Hlt)
        as (Hwf' & Hagg & Hrf).
      eexists. split; [rewrite orb_true_r; unfold ret; reflexivity|]. split; [exact Hwf'|].
      split; [done|]. split; [|split; [intros Hx; discriminate Hx|exact Hrf]].
      intros k' S'. rewrite Hagg.
      assert (aggregate_of db k S = 0) as ->
        by (unfold aggregate_of; by rewrite Hrows).
      rewrite Hrows.
      case_bool_decide as H1; case_bool_decide as H2; try done.
      * destruct H2. by destruct H1 as (? & ? & _).
      * destruct H1. by destruct H2.
    + assert (c ∈ rows_for db k S) as Hc by (rewrite Hrows; left).
      apply rows_for_elem in Hc as (HcS & Hck & Hc).
      pose proof Hwf as (_ & Hpk & _).
      eapply Forall_forall in Hpk as (p & Hp & _); [|exact Hc].
      erewrite bind_Ok.
      2:{ eapply (Computed_save_update _ p k); [exact Hfit|done|done|].
          unfold has_row. apply bool_decide_eq_true. apply Exists_exists.
          by exists c. }
      destruct (aggregate_of_update db c
                  (if combine then cc_number c + default 0 (stats_delta ref units S)
                   else cc_number c - default 0 (stats_delta ref units S))
                  k S rest Hwf Hrows) as (Hwf' & Hagg & Hrf).
      eexists. split; [rewrite orb_true_r; unfold ret; reflexivity|]. split; [exact Hwf'|].
      split; [done|]. split; [|split; [intros Hx; discriminate Hx|exact Hrf]].
      intros k' S'. rewrite Hagg.
      assert (aggregate_of db k S = cc_number c) as ->
        by (unfold aggregate_of; by rewrite Hrows).
      done.
  - exists db. split; [by rewrite orb_false_r|]. split; [done|]. split; [done|].
    split; [|done]. intros k' S'.
    rewrite (truthy_number_false_default _ Ht).
    case_bool_decide as Hks; [|done]. destruct Hks as [-> ->].
    destruct combine; lia.
Qed.

(** A pass that returns has written a number that fits. *)
Lemma delta_subject_Ok_fits (self : District) k units combine changed S db b db' :
  district_pk self = Some k →
  delta_subject ref self units combine changed S db = (Ok b, db') →
  delta_fits ref db k units combine [S].
Proof.
  intros Hk Hrun S' HS' Ht. apply list_elem_of_singleton in HS' as ->.
  unfold delta_subject in Hrun. fold (stats_delta ref units S) in Hrun.
  rewrite Ht in Hrun. unfold bind at 1, get_db in Hrun.
  rewrite (computed_of_subject db self k S Hk) in Hrun.
  apply bind_inv_Ok in Hrun as ([] & db1 & Hsave & _).
  apply Computed_save_Ok_fits in Hsave. unfold aggregate_of.
  by destruct (rows_for db k S).
Qed.

Lemma delta_fits_cons db k units combine s l :
  delta_fits ref db k units combine (s :: l) ↔
  delta_fits ref db k units combine [s] ∧ delta_fits ref db k units combine l.
Proof.
  unfold delta_fits. split.
  - intros Hf. split; intros S HS; apply Hf.
    + apply list_elem_of_singleton in HS as ->. left.
    + by right.
  - intros [H1 H2] S HS. apply elem_of_cons in HS as [->|HS].
    + apply H1. left.
    + by apply H2.
Qed.

Lemma delta_fits_ext db db' k units combine l :
  (∀ S, S ∈ l → aggregate_of db' k S = aggregate_of db k S) →
  delta_fits ref db k units combine l → delta_fits ref db' k units combine l.
Proof. intros Heq Hf S HS Ht. rewrite (Heq S HS). by apply Hf. Qed.

End DeltaFacts.

Section SnapshotFacts.
Context `{GeometryEngine}.
Variable ref : Reference.

Lemma advances_refl db : well_formed db → advances db db.
Proof. intros Hwf. split; [done|]. split; [lia|]. by split. Qed.

Lemma advances_trans db1 db2 db3 :
  advances db1 db2 → advances db2 db3 → advances db1 db3.
Proof.
  intros (_ & Hs1 & Ha1 & Hr1) (Hwf & Hs2 & Ha2 & Hr2).
  split; [done|]. split; [lia|]. split.
  - intros k S Hk. rewrite Ha2 by lia. by apply Ha1.
  - intros d Hd. by apply Hr2, Hr1.
Qed.

(** [delta_stats] on a stored district: it returns, it says whether
    some subject had a sum to apply, every listed subject's aggregate
    has gained or lost the sum of the units, no other district's
    aggregate has moved, and with nothing to apply the database is
    untouched. *)
Lemma delta_subjects_spec (self : District) k units combine changed subjects db :
  well_formed db → district_pk self = Some k → k < district_seq db →
  NoDup subjects → delta_fits ref db k units combine subjects →
  ∃ db',
    delta_subjects ref self units combine changed subjects db
    = (Ok (changed || existsb (λ s, truthy_number (stats_delta ref units s)) subjects),
       db') ∧
    well_formed db' ∧
    district_seq db' = district_seq db ∧
    district_rows db' = district_rows db ∧
    (∀ k' S',
       aggregate_of db' k' S'
       = if bool_decide (k' = k ∧ S' ∈ subjects)
         then (if combine
               then aggregate_of db k S' + default 0 (stats_delta ref units S')
               else aggregate_of db k S' - default 0 (stats_delta ref units S'))
         else aggregate_of db k' S') ∧
    (existsb (λ s, truthy_number (stats_delta ref units s)) subjects = false → db' = db) ∧
    (∀ k' S',
       ¬ (k' = k ∧ S' ∈ subjects ∧ truthy_number (stats_delta ref units S') = true) →
       rows_for db' k' S' = rows_for db k' S').
Proof.
  intros Hwf Hk Hlt Hnd. revert changed db Hwf Hlt.
  induction Hnd as [|s l Hs Hnd IH]; intros changed db Hwf Hlt Hfit; simpl.
  - exists db. split; [by rewrite orb_false_r|]. split; [done|]. split; [done|].
    split; [done|]. split; [|done]. intros k' S'.
    rewrite bool_decide_eq_false_2; [done|]. intros [_ Hin].
    by apply not_elem_of_nil in Hin.
  - apply delta_fits_cons in Hfit as [Hfit1 Hfit].
    destruct (delta_subject_spec ref self k units combine changed s db Hwf Hk Hlt Hfit1)
      as (db1 & Hrun1 & Hwf1 & Hseq1 & Hagg1 & Hsame1 & Hrf1).
    pose proof (delta_subject_same_store ref self units combine changed s db) as Hst1.
    rewrite Hrun1 in Hst1. destruct Hst1 as (_ & Hrows1 & _). simpl in Hrows1.
    destruct (IH (changed || truthy_number (stats_delta ref units s)) db1 Hwf1)
      as (db' & Hrun & Hwf' & Hseq & Hrows & Hagg & Hsame & Hrf); [lia| |].
    { eapply delta_fits_ext; [|exact Hfit]. intros S HS. rewrite Hagg1.
      rewrite bool_decide_eq_false_2; [done|]. intros [_ ->]. by apply Hs. }
    exists db'. split; [|split; [done|split; [lia|split; [congruence|split; [|split]]]]].
    + erewrite bind_Ok by exact Hrun1. rewrite Hrun. by rewrite orb_assoc.
    + intros k' S'. rewrite Hagg.
      case_bool_decide as H1.
      * destruct H1 as [-> HS']. rewrite bool_decide_eq_true_2 by (split; [done|by right]).
        rewrite Hagg1. rewrite bool_decide_eq_false_2; [done|].
        intros [_ ->]. by apply Hs.
      * rewrite Hagg1. case_bool_decide as H2; case_bool_decide as H3; try done.
        -- by destruct H2 as [-> ->].
        -- destruct H3. destruct H2 as [-> ->]. split; [done|]. left.
        -- destruct H3 as [-> HS']. apply elem_of_cons in HS' as [->|HS'].
           ++ by destruct H2.
           ++ by destruct H1.
    + intros He. apply orb_false_iff in He as [He1 He2].
      rewrite (Hsame He2). by apply Hsame1.
    + intros k' S' Hno. rewrite Hrf.
      * destruct (truthy_number (stats_delta ref units s)) eqn:Hts.
        -- apply Hrf1. intros [-> ->]. apply Hno. split; [done|]. split; [left|done].
        -- by rewrite (Hsame1 eq_refl).
      * intros (-> & HS' & Ht). apply Hno. split; [done|]. split; [by right|done].
Qed.

(** A run of [delta_stats] that returns has written numbers that
    fit. *)
Lemma delta_subjects_Ok_fits (self : District) k units combine changed subjects db b db' :
  well_formed db → district_pk self = Some k → k < district_seq db →
  NoDup subjects →
  delta_subjects ref self units combine changed subjects db = (Ok b, db') →
  delta_fits ref db k units combine subjects.
Proof.
  intros Hwf Hk Hlt Hnd. revert changed db Hwf Hlt.
  induction Hnd as [|s l Hs Hnd IH]; intros changed db Hwf Hlt Hrun.
  - by intros S ?%not_elem_of_nil.
  - cbn [delta_subjects] in Hrun.
    apply bind_inv_Ok in Hrun as (b1 & db1 & Hrun1 & Hrun).
    pose proof (delta_subject_Ok_fits ref self k units combine changed s db b1 db1
                  Hk Hrun1) as Hfit1.
    destruct (delta_subject_spec ref self k units combine changed s db Hwf Hk Hlt Hfit1)
      as (db1' & Hrun1' & Hwf1 & Hseq1 & Hagg1 & _).
    rewrite Hrun1 in Hrun1'. injection Hrun1' as _ <-.
    apply delta_fits_cons. split; [done|].
    apply (delta_fits_ext ref db1 db).
    + intros S HS. symmetry. rewrite Hagg1.
      rewrite bool_decide_eq_false_2; [done|]. intros [_ ->]. by apply Hs.
    + eapply IH; [done|lia|exact Hrun].
Qed.

Lemma clone_rows_spec kn (cs : list ComputedCharacteristic) db :
  well_formed db → kn < district_seq db →
  Forall (λ c, fits_decimal (cc_number c) = true) cs →
  ∃ db',
    for_each cs
      (λ c, Computed_save (mkComputed None (cc_subject c) (Some kn) (cc_number c))) db
    = (Ok tt, db') ∧
    well_formed db' ∧
    district_seq db' = district_seq db ∧
    district_rows db' = district_rows db ∧
    computed_rows db' = computed_rows db ++ clones (computed_seq db) kn cs.
Proof.
  revert db. induction cs as [|c cs IH]; intros db Hwf Hk Hfit; simpl.
  - exists db. by rewrite app_nil_r.
  - apply Forall_cons in Hfit as [Hc Hfit].
    erewrite bind_Ok; [|by eapply Computed_save_insert].
    destruct (IH (mkDatabase (plan_rows db) (district_rows db)
                    (computed_rows db
                     ++ [mkComputed (Some (computed_seq db)) (cc_subject c) (Some kn)
                           (cc_number c)])
                    (plan_seq db) (district_seq db) (computed_seq db + 1)))
      as (db' & Hrun & Hwf' & Hseq & Hrows & Hcomp).
    + apply (well_formed_insert db c kn Hwf Hk).
    + done.
    + done.
    + exists db'. split; [done|]. split; [done|]. split; [done|]. split; [done|].
      rewrite Hcomp. simpl. by rewrite <- app_assoc.
Qed.

(** A run of the copies that returns has copied numbers that fit. *)
Lemma clone_rows_Ok_fits kn (cs : list ComputedCharacteristic) db db' :
  for_each cs
    (λ c, Computed_save (mkComputed None (cc_subject c) (Some kn) (cc_number c))) db
  = (Ok tt, db') →
  Forall (λ c, fits_decimal (cc_number c) = true) cs.
Proof.
  revert db. induction cs as [|c cs IH]; intros db Hrun; [done|].
  cbn [for_each] in Hrun. apply bind_inv_Ok in Hrun as ([] & db1 & Hsave & Hrun).
  constructor; [by apply Computed_save_Ok_fits in Hsave|by eapply IH].
Qed.

Lemma clones_district seq kn cs k :
  filter (λ c, cc_district c = Some k) (clones seq kn cs)
  = if bool_decide (k = kn) then clones seq kn cs else [].
Proof.
  revert seq. induction cs as [|c cs IH]; intros seq; simpl.
  - by case_bool_decide.
  - rewrite filter_cons, IH. simpl. case_bool_decide as Hk.
    + subst. by rewrite decide_True.
    + rewrite decide_False; [done|]. congruence.
Qed.

Lemma clones_head_number seq kn cs S :
  head_number (filter (λ c, cc_subject c = S) (clones seq kn cs))
  = head_number (filter (λ c, cc_subject c = S) cs).
Proof.
  revert seq. induction cs as [|c cs IH]; intros seq; simpl; [done|].
  rewrite !filter_cons. simpl. destruct (decide (cc_subject c = S)); [done|]. apply IH.
Qed.

End SnapshotFacts.

Section SnapshotStats.
Context `{GeometryEngine}.
Variable ref : Reference.

Lemma aggregate_of_head db k S : aggregate_of db k S = head_number (rows_for db k S).
Proof. done. Qed.

Lemma rows_for_fresh db k S :
  well_formed db → district_seq db ≤ k → rows_for db k S = [].
Proof.
  intros (_ & _ & Hd & _) Hk. unfold rows_for.
  destruct (filter _ (filter _ _)) as [|c l] eqn:Hf; [done|].
  assert (c ∈ c :: l) as Hc by left. rewrite <- Hf in Hc.
  apply list_elem_of_filter in Hc as [_ Hc].
  apply list_elem_of_filter in Hc as [Hck Hc].
  eapply Forall_forall in Hd as (k' & Hk' & Hlt); [|exact Hc].
  rewrite Hck in Hk'. injection Hk' as ->. lia.
Qed.

(** A snapshot that returns: one district row more, with the next
    key, and its aggregates are those of the district it copies. *)
Lemma snapshot_advances (self : Plan) (d c : District) kd db db' :
  well_formed db → district_pk d = Some kd →
  snapshot ref self d db = (Ok c, db') →
  advances db db' ∧
  district_seq db' = district_seq db + 1 ∧
  c ∈ district_rows db' ∧
  c = mkDistrict (Some (district_seq db)) (district_id c) (district_name d)
        (district_plan d) (district_geom d) (district_simple d)
        (plan_version self + 1) ∧
  (district_id d ≠ 0 → district_id c = district_id d) ∧
  ∀ S, aggregate_of db' (district_seq db) S = aggregate_of db kd S.
Proof.
  intros Hwf Hkd Hrun. unfold snapshot in Hrun.
  apply bind_inv_Ok in Hrun as (c1 & db1 & Hs & Hrun).
  apply District_save_new_inv in Hs
    as (i & Hi & -> & Hrows1 & Hcomp1 & Hseq1 & Hcseq1); [|done].
  apply bind_inv_Ok in Hrun as ([] & db2 & Hc & Hrun). injection Hrun as <- <-.
  assert (well_formed db1) as Hwf1.
  { destruct Hwf as (Hnd & Hpk & Hd & Hdr).
    split; [|split; [|split]].
    - by rewrite Hcomp1.
    - rewrite Hcomp1, Hcseq1. done.
    - rewrite Hcomp1, Hseq1. eapply Forall_impl; [exact Hd|].
      intros c' (k & ? & ?). exists k. split; [done|lia].
    - rewrite Hrows1, Hseq1. apply Forall_app. split.
      + eapply Forall_impl; [exact Hdr|]. intros c' (k & ? & ?). exists k. split; [done|lia].
      + constructor; [|done]. eexists. split; [done|]. simpl. lia. }
  unfold clone_characteristics_from in Hc. unfold bind at 1, get_db in Hc.
  simpl district_pk in Hc.
  pose proof (clone_rows_Ok_fits _ _ _ _ Hc) as Hfit.
  destruct (clone_rows_spec (district_seq db) (computed_of ref db1 d) db1 Hwf1)
    as (db2' & Hrun2 & Hwf2 & Hseq2 & Hrows2 & Hcomp2); [lia|done|].
  rewrite Hrun2 in Hc. injection Hc as <-.
  assert (∀ k S, rows_for db2' k S
                 = rows_for db k S
                   ++ filter (λ c, cc_subject c = S)
                        (if bool_decide (k = district_seq db)
                         then clones (computed_seq db1) (district_seq db)
                                (computed_of ref db1 d)
                         else [])) as Hrf.
  { intros k S. unfold rows_for at 1. rewrite Hcomp2, rows_for_app.
    unfold rows_for. by rewrite Hcomp1, clones_district. }
  split; [|split; [lia|split; [|split; [|split]]]].
  - split; [done|]. split; [lia|]. split.
    + intros k S Hk. rewrite !aggregate_of_head, Hrf.
      rewrite bool_decide_eq_false_2 by lia. by rewrite filter_nil, app_nil_r.
    + intros d' Hd'. rewrite Hrows2, Hrows1. apply elem_of_app. by left.
  - rewrite Hrows2, Hrows1. apply elem_of_app. right. left.
  - done.
  - intros Hnz. simpl. by apply Hi.
  - intros S. rewrite !aggregate_of_head, Hrf.
    rewrite bool_decide_eq_true_2 by done.
    rewrite rows_for_fresh by (done || lia). simpl.
    rewrite clones_head_number.
    rewrite (computed_of_subject ref db1 d kd S Hkd).
    unfold rows_for. by rewrite Hcomp1.
Qed.

End SnapshotStats.

Section LoopStats.
Context `{GeometryEngine}.
Variable ref : Reference.

Lemma merge_incremental_id (d d' : District) inc :
  merge_incremental d inc = Ok d' →
  district_id d' = district_id d ∧ district_plan d' = district_plan d ∧
  district_pk d' = district_pk d.
Proof.
  unfold merge_incremental.
  destruct (match district_geom d with
            | Some g => union_or_absent g inc
            | None => enforce_multi inc
            end) as [g|]; cbn [rbind]; [|done].
  destruct (truthy g); [|by intros [= <-]].
  destruct (attr g) as [g1|]; cbn [rbind]; [|done].
  destruct (enforce_multi _); cbn [rbind]; [|done]. by intros [= <-].
Qed.

(** A snapshot followed by [delta_stats] on it. *)
Lemma snapshot_delta_advances (self : Plan) (d c : District) kd units combine
    db db1 changed db2 :
  well_formed db → NoDup (subject_rows ref) → district_pk d = Some kd →
  snapshot ref self d db = (Ok c, db1) →
  delta_stats ref c units combine db1 = (Ok changed, db2) →
  advances db db2 ∧
  district_seq db2 = district_seq db + 1 ∧
  c ∈ district_rows db2 ∧
  ∀ S, S ∈ subject_rows ref →
       aggregate_of db2 (district_seq db) S
       = if combine
         then aggregate_of db kd S + default 0 (stats_delta ref units S)
         else aggregate_of db kd S - default 0 (stats_delta ref units S).
Proof.
  intros Hwf Hnd Hkd Hsnap Hdelta.
  destruct (snapshot_advances ref self d c kd db db1 Hwf Hkd Hsnap)
    as ((Hwf1 & Hs1 & Ha1 & Hr1) & Hseq1 & Hc & Hceq & _ & Hagg1).
  assert (district_pk c = Some (district_seq db)) as Hpk by (by rewrite Hceq).
  assert (delta_fits ref db1 (district_seq db) units combine (subject_rows ref)) as Hfit.
  { eapply delta_subjects_Ok_fits; [exact Hwf1|exact Hpk|lia|done|exact Hdelta]. }
  destruct (delta_subjects_spec ref c (district_seq db) units combine false
              (subject_rows ref) db1 Hwf1 Hpk)
    as (db2' & Hrun & Hwf2 & Hseq2 & Hrows2 & Hagg2 & _); [lia|done|done|].
  unfold delta_stats in Hdelta. rewrite Hrun in Hdelta. injection Hdelta as _ <-.
  split; [|split; [lia|split; [by rewrite Hrows2|]]].
  - split; [done|]. split; [lia|]. split.
    + intros k S Hk. rewrite Hagg2.
      rewrite bool_decide_eq_false_2 by (intros [? _]; lia). by apply Ha1.
    + intros d' Hd'. rewrite Hrows2. by apply Hr1.
  - intros S HS. rewrite Hagg2. rewrite bool_decide_eq_true_2 by done.
    by rewrite Hagg1.
Qed.

Lemma add_geounits_loop_stats (self : Plan) districtid ids geolevel districts
    fixed target db fixed' target' db' :
  well_formed db → NoDup (subject_rows ref) →
  (∀ d, d ∈ districts → ∃ k, district_pk d = Some k ∧ k < district_seq db) →
  add_geounits_loop ref self districtid ids geolevel (incremental_of ref ids)
    districts fixed target db = (Ok (fixed', target'), db') →
  advances db db' ∧
  ∀ A kA UA,
    A ∈ districts → district_id A ≠ districtid → district_pk A = Some kA →
    touches (district_geom A) (incremental_of ref ids) = Ok true →
    get_mixed_geounits ref ids geolevel (district_geom A) true = Ok UA →
    ∃ A_new kn,
      A_new ∈ district_rows db' ∧ district_pk A_new = Some kn ∧
      district_seq db ≤ kn < district_seq db' ∧
      district_version A_new = plan_version self + 1 ∧
      (district_id A ≠ 0 → district_id A_new = district_id A) ∧
      ∀ S, S ∈ subject_rows ref →
           aggregate_of db' kn S
           = aggregate_of db kA S - default 0 (stats_delta ref UA S).
Proof.
  intros Hwf Hnd. revert fixed target db Hwf.
  induction districts as [|d l IH]; intros fixed target db Hwf Hpks; simpl.
  - intros [= _ _ <-]. split; [by apply advances_refl|].
    intros A kA UA HA. by apply not_elem_of_nil in HA.
  - assert (∃ kd, district_pk d = Some kd ∧ kd < district_seq db) as (kd & Hkd & Hkdlt)
      by (apply Hpks; left).
    assert (∀ db1, advances db db1 →
              ∀ d', d' ∈ l → ∃ k, district_pk d' = Some k ∧ k < district_seq db1)
      as Hpks'.
    { intros db1 (_ & Hs & _) d' Hd'. destruct (Hpks d') as (k & ? & ?); [by right|].
      exists k. split; [done|lia]. }
    (* the districts of the tail, seen from a later database *)
    assert (∀ db1 fixed1 target1,
              advances db db1 →
              add_geounits_loop ref self districtid ids geolevel (incremental_of ref ids)
                l fixed1 target1 db1 = (Ok (fixed', target'), db') →
              advances db db' ∧
              ∀ A kA UA,
                A ∈ l → district_id A ≠ districtid → district_pk A = Some kA →
                touches (district_geom A) (incremental_of ref ids) = Ok true →
                get_mixed_geounits ref ids geolevel (district_geom A) true = Ok UA →
                ∃ A_new kn,
                  A_new ∈ district_rows db' ∧ district_pk A_new = Some kn ∧
                  district_seq db ≤ kn < district_seq db' ∧
                  district_version A_new = plan_version self + 1 ∧
                  (district_id A ≠ 0 → district_id A_new = district_id A) ∧
                  ∀ S, S ∈ subject_rows ref →
                       aggregate_of db' kn S
                       = aggregate_of db kA S - default 0 (stats_delta ref UA S))
      as Htail.
    { intros db1 fixed1 target1 Hadv Hrun.
      pose proof Hadv as (Hwf1 & Hs1 & Ha1 & _).
      destruct (IH fixed1 target1 db1 Hwf1 (Hpks' db1 Hadv) Hrun) as [Hadv' Hprop].
      split; [by eapply advances_trans|].
      intros A kA UA HA Hid HkA Ht Hu.
      destruct (Hprop A kA UA HA Hid HkA Ht Hu)
        as (A_new & kn & ? & ? & ? & ? & ? & Hagg).
      exists A_new, kn. repeat (split; [done || lia|]).
      intros S HS. rewrite Hagg by done. rewrite Ha1; [done|].
      destruct (Hpks A) as (k & Hk & ?); [by right|]. congruence. }
    destruct (district_id d =? districtid) eqn:Hid.
    + intros Hrun. apply Z.eqb_eq in Hid.
      destruct (Htail db fixed (Some d) (advances_refl db Hwf) Hrun) as [Hadv Hprop].
      split; [done|]. intros A kA UA HA HAid. apply elem_of_cons in HA as [->|HA].
      * done.
      * by apply Hprop.
    + intros Hrun.
      apply bind_inv_Ok in Hrun as (hit & db1 & Hhit & Hrun).
      unfold lift in Hhit. injection Hhit as Hhit <-.
      destruct hit; simpl in Hrun.
      * apply bind_inv_Ok in Hrun as (geounits & db1 & Hg & Hrun).
        unfold lift in Hg. injection Hg as Hg <-.
        apply bind_inv_Ok in Hrun as (d' & db1 & Hsub & Hrun).
        unfold lift in Hsub. injection Hsub as Hsub <-.
        apply subtract_incremental_id in Hsub as (Hd'id & _ & Hd'pk).
        apply bind_inv_Ok in Hrun as (c & db1 & Hs & Hrun).
        apply bind_inv_Ok in Hrun as (changed & db2 & Hdelta & Hrun).
        rewrite Hkd in Hd'pk.
        destruct (snapshot_advances ref self d' c kd db db1 Hwf Hd'pk Hs)
          as (_ & _ & _ & Hceq & Hcid & _).
        destruct (snapshot_delta_advances self d' c kd geounits false db db1 changed db2
                    Hwf Hnd Hd'pk Hs Hdelta) as (Hadv & Hseq2 & Hc & Hagg).
        destruct (Htail db2 _ target Hadv Hrun) as [Hadv' Hprop].
        split; [done|]. intros A kA UA HA HAid HkA Ht Hu.
        apply elem_of_cons in HA as [->|HA]; [|by apply Hprop].
        rewrite Hg in Hu. injection Hu as <-.
        rewrite Hkd in HkA. injection HkA as <-.
        assert (advances db2 db') as (Hwf' & Hs' & Ha' & Hr').
        { pose proof Hadv as (Hwf2 & _).
          by destruct (IH _ _ db2 Hwf2 (Hpks' db2 Hadv) Hrun). }
        exists c, (district_seq db). split; [by apply Hr'|].
        split; [by rewrite Hceq|]. split; [lia|]. split; [by rewrite Hceq|].
        split; [intros Hnz; rewrite <- Hd'id; apply Hcid; congruence|].
        intros S HS. rewrite Ha' by lia. by apply Hagg.
      * apply bind_inv_Ok in Hrun as (latest & db2 & Hl & Hrun).
        pose proof (is_latest_version_same d db) as Hsame.
        rewrite Hl in Hsame. simpl in Hsame. subst db2.
        assert (∀ A, A = d →
                  touches (district_geom A) (incremental_of ref ids) = Ok true → False)
          as Hnot by (intros A -> Ht; congruence).
        destruct latest; simpl in Hrun.
        -- destruct (Htail db fixed target (advances_refl db Hwf) Hrun) as [Hadv Hprop].
           split; [done|]. intros A kA UA HA HAid HkA Ht Hu.
           apply elem_of_cons in HA as [->|HA]; [by destruct (Hnot d)|by apply Hprop].
        -- apply bind_inv_Ok in Hrun as (c & db2 & Hs & Hrun).
           destruct (snapshot_advances ref self d c kd db db2 Hwf Hkd Hs) as (Hadv & _).
           destruct (Htail db2 _ target Hadv Hrun) as [Hadv' Hprop].
           split; [done|]. intros A kA UA HA HAid HkA Ht Hu.
           apply elem_of_cons in HA as [->|HA]; [by destruct (Hnot d)|by apply Hprop].
Qed.

End LoopStats.

Section StatConsistency.
Context `{GeometryEngine}.
Variable ref : Reference.



Lemma aggregate_of_computed db db' k S :
  computed_rows db' = computed_rows db → aggregate_of db' k S = aggregate_of db k S.
Proof. intros Hc. unfold aggregate_of, rows_for. by rewrite Hc. Qed.



Lemma well_formed_stored db (d : District) :
  well_formed db → d ∈ district_rows db →
  ∃ k, district_pk d = Some k ∧ k < district_seq db.
Proof. intros (_ & _ & _ & Hdr) Hd. by eapply Forall_forall in Hdr. Qed.

Lemma resolved_stored db (self : Plan) version d :
  d ∈ districts_at_version (snapshots_of db self) version → d ∈ district_rows db.
Proof.
  intros Hd. apply districts_at_version_latest in Hd as [Hd _].
  unfold snapshots_of in Hd. destruct (plan_pk self); [|by apply not_elem_of_nil in Hd].
  by apply list_elem_of_filter in Hd as [_ ?].
Qed.

(** The target the loop leaves is a listed district with the requested
    id, unless none was met. *)
Lemma add_geounits_loop_target (self : Plan) districtid ids geolevel inc districts
    fixed target db fixed' target' db' :
  add_geounits_loop ref self districtid ids geolevel inc districts fixed target db
    = (Ok (fixed', target'), db') →
  target' = target ∨
  ∃ t, target' = Some t ∧ t ∈ districts ∧ district_id t = districtid.
Proof.
  revert fixed target db. induction districts as [|d l IH]; intros fixed target db; simpl.
  - intros [= _ <- _]. by left.
  - assert (∀ fixed1 target1 db1,
              target1 = target →
              add_geounits_loop ref self districtid ids geolevel inc l fixed1 target1 db1
                = (Ok (fixed', target'), db') →
              target' = target ∨
              ∃ t, target' = Some t ∧ t ∈ d :: l ∧ district_id t = districtid) as Htail.
    { intros fixed1 target1 db1 -> Hrun.
      apply IH in Hrun as [->|(t & -> & Ht & Hid)]; [by left|].
      right. exists t. split; [done|]. split; [by right|done]. }
    destruct (district_id d =? districtid) eqn:Hid.
    + intros Hrun. right.
      apply IH in Hrun as [->|(t & -> & Ht & Hti)].
      * exists d. split; [done|]. split; [left|by apply Z.eqb_eq].
      * exists t. split; [done|]. split; [by right|done].
    + intros Hrun.
      apply bind_inv_Ok in Hrun as (hit & db1 & _ & Hrun). destruct hit; simpl in Hrun.
      * apply bind_inv_Ok in Hrun as (geounits & db2 & _ & Hrun).
        apply bind_inv_Ok in Hrun as (d' & db3 & _ & Hrun).
        apply bind_inv_Ok in Hrun as (c & db4 & _ & Hrun).
        apply bind_inv_Ok in Hrun as (changed & db5 & _ & Hrun).
        by eapply Htail.
      * apply bind_inv_Ok in Hrun as (latest & db2 & _ & Hrun).
        destruct latest; simpl in Hrun; [by eapply Htail|].
        apply bind_inv_Ok in Hrun as (c & db3 & _ & Hrun). by eapply Htail.
Qed.


End StatConsistency.
(** ** Failures of the geometry engine *)

Section GuardFacts.
Context `{GeometryEngine}.
Variable ref : Reference.

(** What the search does with the canonical empty geometry as the
    remainder: nothing is selected at the level. *)
Lemma normalize_remainder_empty (b e : Geometry) :
  empty_geom (srid b) = Ok e → empty e = true →
  normalize_remainder (Some b) e = Ok e.
Proof.
  intros He Hempty. unfold normalize_remainder. rewrite Hempty.
  rewrite andb_false_r. cbn [negb orb attr rbind]. exact He.
Qed.

(** A level below the requested one at which the remainder is the
    canonical empty geometry: the search goes on to the next level with
    the units it has. *)
Lemma mixed_levels_recovered ids geolevel inside level rest selection (b : Geometry)
    units u i e :
  geolevel < level →
  union_units None units = Ok u → intersects_of selection u = Ok i →
  remainder_of inside selection (Some b) i = Ok e →
  empty_geom (srid b) = Ok e → empty e = true →
  mixed_levels ref ids geolevel inside (level :: rest) selection (Some b) units
  = mixed_levels ref ids geolevel inside rest selection (Some b) units.
Proof.
  intros Hlt Hu Hi Hr He Hempty. cbn [mixed_levels].
  destruct (Z.eqb_spec geolevel level) as [?|_]; [lia|].
  destruct (Z.ltb_spec geolevel level) as [_|?]; [|lia].
  rewrite Hu. cbn [rbind]. rewrite Hi. cbn [rbind]. rewrite Hr. cbn [rbind].
  rewrite (normalize_remainder_empty b e He Hempty). cbn [rbind].
  by rewrite Hempty.
Qed.

(** C6, as amended. Each of the guarded operations recovers from a
    [GEOSException] on its own, where the canonical empty geometry can
    be built and is empty. In the containment search a failed
    [boundary.intersection(intersects)] (inside), or a failed
    [selection.difference(boundary)] or
    [remainder.intersection(intersects)] (outside), makes the remainder
    the canonical empty geometry of the boundary's srid, and the search
    goes on to the next level with the units it has. In the edit a
    failed [district.geom.difference(incremental)] makes the geometry
    the canonical empty geometry of the selection's srid, and the
    district goes on with no geometry; a failed
    [target.geom.union(incremental)] leaves the target with no
    geometry, full or simplified. *)
Theorem guarded_failures_recovered :
  (∀ ids geolevel level rest selection (b : Geometry) units u i e,
     geolevel < level →
     union_units None units = Ok u → intersects_of selection u = Ok (Some i) →
     intersection b i = Raise GEOSException →
     empty_geom (srid b) = Ok e → empty e = true →
     remainder_of true selection (Some b) (Some i) = Ok e ∧
     mixed_levels ref ids geolevel true (level :: rest) selection (Some b) units
     = mixed_levels ref ids geolevel true rest selection (Some b) units) ∧
  (∀ ids geolevel level rest (s b : Geometry) units u i e,
     geolevel < level →
     union_units None units = Ok u → intersects_of (Some s) u = Ok (Some i) →
     (difference s b = Raise GEOSException ∨
      ∃ r, difference s b = Ok r ∧ intersection r i = Raise GEOSException) →
     empty_geom (srid b) = Ok e → empty e = true →
     remainder_of false (Some s) (Some b) (Some i) = Ok e ∧
     mixed_levels ref ids geolevel false (level :: rest) (Some s) (Some b) units
     = mixed_levels ref ids geolevel false rest (Some s) (Some b) units) ∧
  (∀ (district : District) (g inc e : Geometry),
     district_geom district = Some g →
     difference g inc = Raise GEOSException →
     empty_geom (srid inc) = Ok e → empty e = true → py_len e = 0%nat →
     difference_or_empty (Some g) (Some inc) = Ok e ∧
     subtract_incremental district (Some inc)
     = Ok (District_with_geom district None None)) ∧
  (∀ (target : District) (g inc : Geometry),
     district_geom target = Some g →
     union g inc = Raise GEOSException →
     union_or_absent g (Some inc) = Ok None ∧
     merge_incremental target (Some inc) = Ok (District_with_geom target None None)).
Proof.
  split; [|split; [|split]].
  - intros ids geolevel level rest selection b units u i e Hlt Hu Hi Hfail He Hempty.
    assert (remainder_of true selection (Some b) (Some i) = Ok e) as Hr.
    { unfold remainder_of. cbn [attr rbind]. rewrite Hfail. cbn [try_GEOSException].
      exact He. }
    split; [exact Hr|]. by eapply mixed_levels_recovered.
  - intros ids geolevel level rest s b units u i e Hlt Hu Hi Hfail He Hempty.
    assert (remainder_of false (Some s) (Some b) (Some i) = Ok e) as Hr.
    { unfold remainder_of. cbn [attr rbind].
      destruct Hfail as [Hd|(r & Hd & Hfail)]; rewrite Hd; cbn [rbind attr];
        [|rewrite Hfail]; cbn [try_GEOSException]; exact He. }
    split; [exact Hr|]. by eapply mixed_levels_recovered.
  - intros district g inc e Hg Hfail He Hempty Hlen.
    assert (difference_or_empty (Some g) (Some inc) = Ok e) as Hd.
    { unfold difference_or_empty. cbn [attr rbind]. rewrite Hfail.
      cbn [try_GEOSException]. exact He. }
    split; [exact Hd|]. unfold subtract_incremental. rewrite Hg, Hd. cbn [rbind].
    assert (enforce_multi (Some e) = Ok (Some e)) as ->.
    { unfold enforce_multi, truthy. by rewrite Hlen. }
    cbn [rbind attr]. by rewrite Hempty.
  - intros target g inc Hg Hfail.
    assert (union_or_absent g (Some inc) = Ok None) as Hu.
    { unfold union_or_absent. cbn [attr rbind]. by rewrite Hfail. }
    split; [exact Hu|]. unfold merge_incremental. by rewrite Hg, Hu.
Qed.

End GuardFacts.

(** ** More on sorting and on the resolution of versions *)

Section MoreSorted.
Context {A : Type} (key : A → Z).

Lemma insert_sorted_filter (P : A → Prop) `{!∀ a, Decision (P a)} x l :
  StronglySorted (key_le key) l →
  filter P (insert_sorted key x l)
  = if decide (P x) then insert_sorted key x (filter P l) else filter P l.
Proof.
  induction 1 as [|y l Hs IH Hall].
  - cbn [insert_sorted]. rewrite filter_cons, filter_nil.
    by destruct (decide (P x)).
  - cbn [insert_sorted]. case_bool_decide as Hxy.
    + rewrite (filter_cons P x). destruct (decide (P x)) as [Hx|Hx]; [|done].
      rewrite (filter_cons P y). destruct (decide (P y)) as [Hy|Hy].
      * cbn [insert_sorted]. by rewrite bool_decide_eq_true_2.
      * destruct (filter P l) as [|z l'] eqn:Hf; [done|].
        cbn [insert_sorted]. rewrite bool_decide_eq_true_2; [done|].
        assert (z ∈ filter P l) as Hz by (rewrite Hf; left).
        apply list_elem_of_filter in Hz as [_ Hz].
        eapply Forall_forall in Hall; [|exact Hz]. unfold key_le in Hall. lia.
    + rewrite (filter_cons P y), IH, (filter_cons P y).
      destruct (decide (P x)), (decide (P y)); try done.
      cbn [insert_sorted]. by rewrite bool_decide_eq_false_2.
Qed.

(** A stable sort commutes with a filter. *)
Lemma sorted_filter (P : A → Prop) `{!∀ a, Decision (P a)} l :
  filter P (sorted key l) = sorted key (filter P l).
Proof.
  induction l as [|x l IH]; [done|].
  change (sorted key (x :: l)) with (insert_sorted key x (sorted key l)).
  rewrite insert_sorted_filter by apply sorted_StronglySorted.
  rewrite filter_cons, IH. by destruct (decide (P x)).
Qed.

End MoreSorted.

Lemma filter_ext_elem {A} (P Q : A → Prop) `{!∀ a, Decision (P a)} `{!∀ a, Decision (Q a)}
    (l : list A) :
  (∀ a, a ∈ l → P a ↔ Q a) → filter P l = filter Q l.
Proof.
  induction l as [|a l IH]; intros Hpq; [done|].
  rewrite !filter_cons, IH by (intros b Hb; apply Hpq; by right).
  destruct (decide (P a)) as [Ha|Ha].
  - rewrite decide_True; [done|]. apply Hpq; [left|done].
  - rewrite decide_False; [done|]. intros Hq. apply Ha. apply Hpq; [left|done].
Qed.

Section MoreResolution.
Context `{GeometryEngine}.

(** The districts resolved depend on the rows only through the
    snapshots that qualify for each [district_id], in table order. *)
Lemma districts_at_version_ext (rows rows' : list District) V V' :
  (∀ i, filter (qualifies V i) rows = filter (qualifies V' i) rows') →
  districts_at_version rows V = districts_at_version rows' V'.
Proof.
  intros Hq. unfold districts_at_version. f_equal. f_equal.
  apply map_eq. intros i. rewrite !foldl_dvers_lookup, !lookup_empty.
  by rewrite !(sorted_filter sortVer), Hq.
Qed.

Lemma districts_at_version_nil V : districts_at_version (@nil District) V = [].
Proof. unfold districts_at_version. simpl. by rewrite map_to_list_empty. Qed.

Lemma qualifies_app_new (rows new : list District) V i :
  Forall (λ c, V < district_version c) new →
  filter (qualifies V i) (rows ++ new) = filter (qualifies V i) rows.
Proof.
  intros Hnew. rewrite filter_app.
  assert (filter (qualifies V i) new = []) as ->; [|by rewrite app_nil_r].
  induction Hnew as [|c l Hc _ IH]; [done|].
  rewrite filter_cons, decide_False; [done|]. intros [_ ?]. lia.
Qed.

End MoreResolution.

(** ** The edit only appends *)

Section AppendOnly.
Context `{GeometryEngine}.
Variable ref : Reference.

Lemma District_write_result (d d' : District) db db' :
  District_write d db = (Ok d', db') →
  district_plan d' = district_plan d ∧ district_id d' = district_id d ∧
  plan_rows db' = plan_rows db.
Proof.
  unfold District_write, bind, get_db, put_db, ret, raise. simpl.
  destruct (district_plan d) as [k|] eqn:Hk; [|done].
  destruct (district_pk d); [destruct (has_row _ _ _)|];
    intros [= <- <-]; by rewrite ?Hk.
Qed.

(** A save of a district that returns has found the district's plan. *)
Lemma District_save_plan_stored (d c : District) k db db' :
  district_plan d = Some k →
  District_save ref d db = (Ok c, db') → is_Some (stored_plan db' k).
Proof.
  intros Hk Hrun. unfold District_save in Hrun.
  apply bind_inv_Ok in Hrun as (d1 & db1 & Hs & Hrun).
  pose proof (set_district_id_same ref d db) as Hdb. rewrite Hs in Hdb.
  simpl in Hdb. subst db1.
  apply set_district_id_result in Hs as (i & -> & _).
  apply bind_inv_Ok in Hrun as (d2 & db2 & Hw & Hrun).
  apply District_write_result in Hw as (Hp2 & _ & _). simpl in Hp2.
  apply bind_inv_Ok in Hrun as ([] & db3 & Hu & Hrun). injection Hrun as _ <-.
  rewrite Hk in Hp2.
  apply update_plan_edited_time_inv in Hu as (k' & p & Hk' & Hp & _ & ->).
  assert (k' = k) as -> by congruence.
  unfold stored_plan at 1. simpl.
  rewrite (stored_plan_replace_self db2 k p k Hp), Hp. eauto.
Qed.

Lemma snapshot_plan_stored (self : Plan) (d c : District) k db db' :
  district_plan d = Some k →
  snapshot ref self d db = (Ok c, db') → is_Some (stored_plan db' k).
Proof.
  intros Hk Hrun. unfold snapshot in Hrun.
  apply bind_inv_Ok in Hrun as (c1 & db1 & Hs & Hrun).
  apply District_save_plan_stored with (k := k) in Hs; [|done].
  apply bind_inv_Ok in Hrun as ([] & db2 & Hc & Hrun). injection Hrun as _ <-.
  pose proof (clone_characteristics_from_same_store ref c1 d db1) as (Hp & _).
  rewrite Hc in Hp. simpl in Hp. unfold stored_plan. by rewrite Hp.
Qed.

(** The district table after the part of [add_geounits] that follows
    the loop, whatever its outcome. *)
Lemma add_geounits_target_rows (self : Plan) ids geolevel inc fixed (t : District) k db :
  district_plan t = Some k → plan_pk self = Some k →
  ∃ new,
    district_rows (add_geounits_target ref self ids geolevel inc fixed (Some t) db).2
    = district_rows db ++ new ∧
    Forall (new_version self) new.
Proof.
  intros Htk Hsk. unfold add_geounits_target.
  unfold bind at 1, lift.
  destruct (get_mixed_geounits ref ids geolevel (district_geom t) false) as [geounits|e];
    [|exists []; by rewrite app_nil_r].
  unfold bind at 1.
  destruct (merge_incremental t inc) as [t'|e] eqn:Hm;
    [|exists []; by rewrite app_nil_r].
  apply merge_incremental_id in Hm as (_ & Hp' & _). rewrite Htk in Hp'.
  unfold bind at 1.
  pose proof (snapshot_grows ref self t' db) as [_ (new & Hrows & Hnew)].
  assert (Forall (new_version self) new) as Hnew'.
  { eapply Forall_impl; [exact Hnew|]. by intros c [? _]. }
  destruct (snapshot ref self t' db) as [[c|e] db2] eqn:Hs; simpl in Hrows;
    [|by exists new].
  apply snapshot_plan_stored with (k := k) in Hs; [|done].
  set (m := if truthy (district_geom c) then delta_stats ref c geounits true
            else ret false).
  assert (same_store db2 (m db2).2) as (Hp3 & Hr3 & _).
  { unfold m. destruct (truthy (district_geom c)).
    - apply delta_stats_same_store.
    - apply same_store_refl. }
  unfold bind at 1.
  destruct (m db2) as [[changed|e] db3]; simpl in Hp3, Hr3;
    [|exists new; simpl; by rewrite Hr3].
  unfold bind at 1.
  rewrite (Plan_save_stored ref _ k db3);
    [|done|unfold stored_plan; by rewrite Hp3].
  exists new. destruct (name_taken _ _); simpl; by rewrite Hr3.
Qed.

(** The district table after [add_geounits], whatever its outcome. *)
Lemma add_geounits_rows (self : Plan) districtid ids geolevel version db :
  ∃ new,
    district_rows (add_geounits ref self districtid ids geolevel version db).2
    = district_rows db ++ new ∧
    Forall (new_version self) new.
Proof.
  unfold add_geounits. fold (incremental_of ref ids).
  erewrite bind_Ok by apply get_districts_at_version_run.
  pose proof (add_geounits_loop_grows ref self districtid ids geolevel
                (incremental_of ref ids)
                (districts_at_version (snapshots_of db self) version) 0 None db)
    as [_ (new1 & Hrows1 & Hnew1)].
  unfold bind at 1.
  destruct (add_geounits_loop _ _ _ _ _ _ _ _ _ _) as [[[fixed target]|e] db1] eqn:Hloop;
    simpl in Hrows1 |- *; [|by exists new1].
  destruct target as [t|]; [|by exists new1].
  apply add_geounits_loop_target in Hloop as [?|(t' & [= <-] & Hin & _)]; [done|].
  apply districts_at_version_latest in Hin as [Hin _]. unfold snapshots_of in Hin.
  destruct (plan_pk self) as [k|] eqn:Hk; [|by apply not_elem_of_nil in Hin].
  apply list_elem_of_filter in Hin as [Htk _].
  destruct (add_geounits_target_rows self ids geolevel (incremental_of ref ids)
              fixed t k db1 Htk Hk) as (new2 & Hrows2 & Hnew2).
  exists (new1 ++ new2). rewrite Hrows2, Hrows1, app_assoc. split; [done|].
  by apply Forall_app.
Qed.

End AppendOnly.

Section HistoryKept.
Context `{GeometryEngine}.
Variable ref : Reference.

(** X1. [add_geounits] only appends to the district table: whether it
    returns or raises, every district row it found is still there, in
    place and unchanged, and every row it added is a snapshot at the
    version after the plan's. *)
Theorem add_geounits_appends_new_versions (self : Plan) (districtid : Z)
    (geounit_ids : list Z) (geolevel version : Z) (db : Database) :
  ∃ new,
    district_rows (add_geounits ref self districtid geounit_ids geolevel version db).2
    = district_rows db ++ new ∧
    Forall (λ c, district_version c = plan_version self + 1) new.
Proof.
  destruct (add_geounits_rows ref self districtid geounit_ids geolevel version db)
    as (new & Hrows & Hnew).
  exists new. split; [exact Hrows|]. exact Hnew.
Qed.

(** X2. An edit does not rewrite history: for every version [V] up to
    the plan's own, [get_districts_at_version] returns, after
    [add_geounits] has run (and whether it returned or raised), the
    districts it returned before. *)
Theorem add_geounits_keeps_earlier_versions (self : Plan) (districtid : Z)
    (geounit_ids : list Z) (geolevel version : Z) (db : Database) (V : Z) :
  V ≤ plan_version self →
  (get_districts_at_version self V
     (add_geounits ref self districtid geounit_ids geolevel version db).2).1
  = (get_districts_at_version self V db).1.
Proof.
  intros HV. rewrite !get_districts_at_version_run. simpl. f_equal.
  destruct (add_geounits_rows ref self districtid geounit_ids geolevel version db)
    as (new & Hrows & Hnew).
  apply districts_at_version_ext. intros i. unfold snapshots_of.
  destruct (plan_pk self) as [k|]; [|done].
  rewrite Hrows, filter_app. apply qualifies_app_new.
  apply Forall_forall. intros c Hc. apply list_elem_of_filter in Hc as [_ Hc].
  eapply Forall_forall in Hnew; [|exact Hc]. unfold new_version in Hnew. lia.
Qed.

(** X9. The districts at a version depend only on the snapshots at or
    below it: when no snapshot of the plan has a version above [V] and
    at or below [V'], both versions resolve to the same districts. In
    particular every version at or above the latest snapshot resolves
    like the latest. *)
Theorem get_districts_at_version_between (self : Plan) (V V' : Z) (db : Database) :
  (∀ d, d ∈ snapshots_of db self → district_version d ≤ V' → district_version d ≤ V) →
  V ≤ V' →
  get_districts_at_version self V' db = get_districts_at_version self V db.
Proof.
  intros Hno HV. rewrite !get_districts_at_version_run. f_equal. f_equal.
  apply districts_at_version_ext. intros i. apply filter_ext_elem.
  intros d Hd. unfold qualifies. split.
  - intros [Hi Hv]. split; [done|]. by apply Hno.
  - intros [Hi Hv]. split; [done|]. lia.
Qed.

(** X10. Below the first snapshot there is nothing: when every
    snapshot of the plan has a version above [V],
    [get_districts_at_version] returns the empty list. *)
Theorem get_districts_at_version_before_first (self : Plan) (V : Z) (db : Database) :
  (∀ d, d ∈ snapshots_of db self → V < district_version d) →
  get_districts_at_version self V db = (Ok [], db).
Proof.
  intros Hall. rewrite get_districts_at_version_run. f_equal. f_equal.
  rewrite <- (districts_at_version_nil V).
  apply districts_at_version_ext. intros i. rewrite filter_nil.
  destruct (filter (qualifies V i) (snapshots_of db self)) as [|d l] eqn:Hf; [done|].
  assert (d ∈ filter (qualifies V i) (snapshots_of db self)) as Hd by (rewrite Hf; left).
  apply list_elem_of_filter in Hd as [[_ Hv] Hd]. specialize (Hall d Hd). lia.
Qed.

End HistoryKept.

(** ** What an edit that returns keeps *)

Section EditKeeps.
Context `{GeometryEngine}.
Variable ref : Reference.

(** What a returning [add_geounits] has done after its loop, with the
    plan found in its table. *)
Lemma add_geounits_Ok_stored (self : Plan) districtid ids geolevel version db fixed self' db' :
  add_geounits ref self districtid ids geolevel version db = (Ok (fixed, self'), db') →
  ∃ k fixed1 target db1 geounits target' c db2 changed db3,
    plan_pk self = Some k ∧
    target ∈ districts_at_version (snapshots_of db self) version ∧
    district_id target = districtid ∧
    add_geounits_loop ref self districtid ids geolevel (incremental_of ref ids)
      (districts_at_version (snapshots_of db self) version) 0 None db
    = (Ok (fixed1, Some target), db1) ∧
    get_mixed_geounits ref ids geolevel (district_geom target) false = Ok geounits ∧
    merge_incremental target (incremental_of ref ids) = Ok target' ∧
    snapshot ref self target' db1 = (Ok c, db2) ∧
    (if truthy (district_geom c) then delta_stats ref c geounits true else ret false) db2
    = (Ok changed, db3) ∧
    self' = Plan_with_version self (plan_version self + 1) ∧
    db' = mkDatabase (replace_row plan_pk self' (plan_rows db3)) (district_rows db3)
            (computed_rows db3) (plan_seq db3) (district_seq db3) (computed_seq db3) ∧
    is_Some (stored_plan db3 k).
Proof.
  intros Hrun. apply add_geounits_Ok_inv in Hrun
    as (fixed1 & target & db1 & geounits & target' & c & db2 & changed & db3
        & Hloop & Hunits & Hmerge & Hsnap & Hdelta & Hsave & _).
  pose proof Hloop as Ht.
  apply add_geounits_loop_target in Ht as [?|(t & [= <-] & Hin & Hid)]; [done|].
  pose proof Hin as Hin'.
  apply districts_at_version_latest in Hin' as [Hin' _]. unfold snapshots_of in Hin'.
  destruct (plan_pk self) as [k|] eqn:Hk; [|by apply not_elem_of_nil in Hin'].
  apply list_elem_of_filter in Hin' as [Htk _].
  pose proof Hmerge as Hm. apply merge_incremental_id in Hm as (_ & Hp' & _).
  rewrite Htk in Hp'.
  pose proof (snapshot_plan_stored ref self target' c k db1 db2 Hp' Hsnap) as Hst2.
  assert (is_Some (stored_plan db3 k)) as Hst3.
  { assert (same_store db2 db3) as (Hp3 & _).
    { destruct (truthy (district_geom c)).
      - pose proof (delta_stats_same_store ref c geounits true db2) as G.
        by rewrite Hdelta in G.
      - injection Hdelta as _ <-. apply same_store_refl. }
    unfold stored_plan. by rewrite Hp3. }
  apply (Plan_save_stored_inv ref _ _ k) in Hsave as (_ & -> & ->); [|done|done].
  exists k, fixed1, target, db1, geounits, target', c, db2, changed, db3.
  by repeat (split; [done|]).
Qed.

(** X3. An edit that returns keeps the tables sound and the
    statistics of history: the database is still well formed, every
    district row it found is still stored, and for every subject the
    aggregate of each of those rows is what it was. *)
Theorem add_geounits_keeps_statistics (self : Plan) (districtid : Z)
    (geounit_ids : list Z) (geolevel version : Z) (db : Database)
    (fixed : Z) (self' : Plan) (db' : Database) :
  well_formed db → NoDup (subject_rows ref) →
  add_geounits ref self districtid geounit_ids geolevel version db
    = (Ok (fixed, self'), db') →
  well_formed db' ∧
  ∀ d, d ∈ district_rows db →
       d ∈ district_rows db' ∧ ∀ S, aggregate db' d S = aggregate db d S.
Proof.
  intros Hwf Hnd Hrun. apply add_geounits_Ok_stored in Hrun
    as (k & fixed1 & target & db1 & geounits & target' & c & db2 & changed & db3
        & Hk & Hin & Hid & Hloop & Hunits & Hmerge & Hsnap & Hdelta & -> & -> & Hst).
  destruct (add_geounits_loop_stats ref self districtid geounit_ids geolevel
              (districts_at_version (snapshots_of db self) version)
              0 None db fixed1 (Some target) db1 Hwf Hnd) as [Hadv1 _]; [|exact Hloop|].
  { intros d Hd. apply (well_formed_stored db d Hwf). by eapply resolved_stored. }
  destruct (well_formed_stored db target Hwf (resolved_stored _ _ _ _ Hin))
    as (kB & HkB & HkBlt).
  apply merge_incremental_id in Hmerge as (_ & _ & Hpk'). rewrite HkB in Hpk'.
  pose proof Hadv1 as (Hwf1 & _).
  assert (advances db1 db3) as Hadv3.
  { destruct (truthy (district_geom c)).
    - by destruct (snapshot_delta_advances ref self target' c kB geounits true
                     db1 db2 changed db3 Hwf1 Hnd Hpk' Hsnap Hdelta) as [? _].
    - injection Hdelta as _ <-.
      by destruct (snapshot_advances ref self target' c kB db1 db2 Hwf1 Hpk' Hsnap)
        as [? _]. }
  destruct (advances_trans _ _ _ Hadv1 Hadv3) as (Hwf3 & Hs3 & Ha3 & Hr3).
  split; [exact Hwf3|].
  intros d Hd. split; [by apply Hr3|]. intros S.
  destruct (well_formed_stored db d Hwf Hd) as (kd & Hkd & Hkdlt).
  rewrite !(aggregate_eq _ d kd) by done.
  rewrite <- (Ha3 kd S Hkdlt). by apply aggregate_of_computed.
Qed.

(** X14. An edit that returns is visible at the new version: the plan
    object that comes back has the next version, and the districts
    resolved for it at that version include a snapshot of the target
    made at that version. *)
Theorem add_geounits_target_at_new_version (self : Plan) (districtid : Z)
    (geounit_ids : list Z) (geolevel version : Z) (db : Database)
    (fixed : Z) (self' : Plan) (db' : Database) :
  districtid ≠ 0 →
  add_geounits ref self districtid geounit_ids geolevel version db
    = (Ok (fixed, self'), db') →
  plan_version self' = plan_version self + 1 ∧
  ∃ r t,
    get_districts_at_version self' (plan_version self') db' = (Ok r, db') ∧
    t ∈ r ∧ district_id t = districtid ∧ district_version t = plan_version self'.
Proof.
  intros Hnz Hrun. apply add_geounits_Ok_stored in Hrun
    as (k & fixed1 & target & db1 & geounits & target' & c & db2 & changed & db3
        & Hk & Hin & Hid & Hloop & Hunits & Hmerge & Hsnap & Hdelta & Hself & Hdb & Hst).
  assert (plan_version self' = plan_version self + 1) as Hv by (by rewrite Hself).
  split; [done|].
  apply merge_incremental_id in Hmerge as (Hid' & Hp' & _).
  apply districts_at_version_latest in Hin as [Hin _]. unfold snapshots_of in Hin.
  rewrite Hk in Hin. apply list_elem_of_filter in Hin as [Htk _].
  apply snapshot_Ok_inv in Hsnap as (i & Hi & Hc & Hrows2 & _).
  assert (i = districtid) as -> by (rewrite <- Hid, <- Hid'; apply Hi; congruence).
  assert (district_rows db3 = district_rows db2) as Hrows3.
  { destruct (truthy (district_geom c)).
    - pose proof (delta_stats_same_store ref c geounits true db2) as G.
      rewrite Hdelta in G. by destruct G as (_ & ? & _).
    - by injection Hdelta as _ <-. }
  set (rows := snapshots_of db' self').
  assert (c ∈ rows) as Hcin.
  { unfold rows, snapshots_of. rewrite Hself, Hdb. simpl. rewrite Hk.
    apply list_elem_of_filter.
    split; [rewrite Hc; simpl; congruence|].
    rewrite Hrows3, Hrows2. apply elem_of_app. right. left. }
  destruct (districts_at_version_covers rows (plan_version self') c Hcin)
    as (t & Ht & Htid); [rewrite Hc; simpl; lia|].
  exists (districts_at_version rows (plan_version self')), t.
  split; [apply get_districts_at_version_run|].
  split; [done|]. split; [rewrite Htid, Hc; done|].
  apply districts_at_version_latest in Ht as (_ & Hle & Hmax).
  specialize (Hmax c Hcin (eq_sym Htid)). rewrite Hc in Hmax. simpl in Hmax. lia.
Qed.

(** Saving a district leaves every stored plan as it reads. *)
Lemma District_save_stored_plan (d : District) db k :
  district_pk d = None →
  stored_plan (District_save ref d db).2 k = stored_plan db k.
Proof.
  intros Hpk.
  pose proof (District_save_grows ref (λ _, True) d Hpk (λ _ _ _, I) db) as [Hp _].
  apply Hp.
Qed.

(** X15. A plan that was saved is the plan read back: after
    [plan.save()] returns, on a new plan as on a stored one,
    [Plan.objects.get] with the key of the object that came back
    returns that object, with the name and the version that were
    saved. *)
Theorem Plan_save_then_get (p p' : Plan) (db db' : Database) :
  (∀ q, q ∈ plan_rows db → plan_pk q ≠ Some (plan_seq db)) →
  Plan_save ref p db = (Ok p', db') →
  ∃ k, plan_pk p' = Some k ∧ Plan_get k db' = (Ok p', db') ∧
       plan_name p' = plan_name p ∧ plan_version p' = plan_version p.
Proof.
  intros Hfresh Hrun. unfold Plan_save in Hrun.
  apply bind_inv_Ok in Hrun as ([p1 created] & db1 & Hw & Hrun).
  apply bind_inv_Ok in Hrun as ([] & db2 & Hm & Hrun). injection Hrun as <- <-.
  simpl in *.
  assert (∀ k, stored_plan db2 k = stored_plan db1 k) as Hkeep.
  { intros k. unfold set_geounit_mapping in Hm. destruct created.
    - pose proof (District_save_stored_plan (District_init "Unassigned" 0 (plan_pk p1))
                    db1 k eq_refl) as Hs.
      apply bind_inv_Ok in Hm as (c & db3 & Hsave & Hm). injection Hm as <-.
      by rewrite Hsave in Hs.
    - by injection Hm as <-. }
  cut (∃ k, plan_pk p1 = Some k ∧ stored_plan db1 k = Some p1 ∧
            plan_name p1 = plan_name p ∧ plan_version p1 = plan_version p).
  { intros (k & Hk & Hst & Hn & Hv). exists k. split; [done|].
    split; [|done]. by rewrite Plan_get_run, Hkeep, Hst. }
  unfold Plan_write, bind, get_db, put_db, ret in Hw. simpl in Hw.
  destruct (name_taken p (plan_rows db)); [done|].
  destruct (plan_pk p) as [k|] eqn:Hk.
  - destruct (has_row plan_pk k (plan_rows db)) eqn:Hhas;
      injection Hw as <- <- <-; exists k; (split; [done|]); (split; [|done]).
    + unfold stored_plan. simpl. apply stored_plan_replace; [done|].
      by apply has_row_stored_plan.
    + unfold stored_plan. simpl. apply stored_plan_fresh_insert; [|done].
      intros q Hq Hqk. apply not_true_iff_false in Hhas. apply Hhas.
      unfold has_row. apply bool_decide_eq_true, Exists_exists. by exists q.
  - injection Hw as <- <- <-. exists (plan_seq db). split; [done|]. split; [|done].
    unfold stored_plan. simpl. by apply stored_plan_fresh_insert.
Qed.

End EditKeeps.

(** ** More on the statistics and on the handlers *)

Section StatisticsMore.
Context `{GeometryEngine}.
Variable ref : Reference.

Lemma numbers_fit_aggregate db k S :
  numbers_fit db → fits_decimal (aggregate_of db k S) = true.
Proof.
  intros Hfit. unfold aggregate_of.
  destruct (rows_for db k S) as [|c l] eqn:Hrows; [done|].
  assert (c ∈ rows_for db k S) as Hc by (rewrite Hrows; left).
  apply rows_for_elem in Hc as (_ & _ & Hc).
  by eapply Forall_forall in Hfit.
Qed.

Lemma computed_of_stored db (d : District) c :
  c ∈ computed_of ref db d → c ∈ computed_rows db.
Proof.
  unfold computed_of. destruct (district_pk d); [|by intros ?%not_elem_of_nil].
  rewrite sorted_Permutation. by intros [_ ?]%list_elem_of_filter.
Qed.

(** X4. Adding the statistics of some units to a stored district and
    then removing them (or the other way round) restores every
    aggregate of every district; when the numbers in the table and the
    numbers of the first call fit their field, both calls return, with
    the same answer. Rows created at zero on the way stay in the
    table. *)
Theorem delta_stats_round_trip (self : District) (k : Z) (units : list UnitRef)
    (combine : bool) (db : Database) :
  well_formed db → numbers_fit db → NoDup (subject_rows ref) →
  district_pk self = Some k → k < district_seq db →
  delta_fits ref db k units combine (subject_rows ref) →
  ∃ db1 db2,
    delta_stats ref self units combine db = (Ok (stats_change ref units), db1) ∧
    delta_stats ref self units (negb combine) db1 = (Ok (stats_change ref units), db2) ∧
    well_formed db2 ∧
    district_rows db2 = district_rows db ∧
    ∀ k' S, aggregate_of db2 k' S = aggregate_of db k' S.
Proof.
  intros Hwf Hstored Hnd Hk Hlt Hfit.
  destruct (delta_subjects_spec ref self k units combine false (subject_rows ref)
              db Hwf Hk Hlt Hnd Hfit)
    as (db1 & Hrun1 & Hwf1 & Hseq1 & Hrows1 & Hagg1 & _).
  destruct (delta_subjects_spec ref self k units (negb combine) false (subject_rows ref)
              db1 Hwf1 Hk) as (db2 & Hrun2 & Hwf2 & Hseq2 & Hrows2 & Hagg2 & _);
    [lia|done| |].
  { intros S HS Ht. rewrite Hagg1, bool_decide_eq_true_2 by done.
    pose proof (numbers_fit_aggregate db k S Hstored) as Hold.
    destruct combine; simpl;
      [replace (aggregate_of db k S + default 0 (stats_delta ref units S)
                - default 0 (stats_delta ref units S)) with (aggregate_of db k S) by lia
      |replace (aggregate_of db k S - default 0 (stats_delta ref units S)
                + default 0 (stats_delta ref units S)) with (aggregate_of db k S) by lia];
      done. }
  exists db1, db2. split; [exact Hrun1|]. split; [exact Hrun2|].
  split; [done|]. split; [congruence|].
  intros k' S. rewrite Hagg2. case_bool_decide as Hks.
  - destruct Hks as [-> HS]. rewrite Hagg1, bool_decide_eq_true_2 by done.
    destruct combine; simpl; lia.
  - rewrite Hagg1. by rewrite bool_decide_eq_false_2.
Qed.

Lemma stats_delta_no_units S : stats_delta ref [] S = None.
Proof.
  unfold stats_delta.
  assert (filter (λ c, char_geounit c ∈ unit_id <$> @nil UnitRef ∧ char_subject c = S)
            (characteristic_rows ref) = []) as ->; [|done].
  induction (characteristic_rows ref) as [|c l IH]; [done|].
  rewrite filter_cons, decide_False; [done|].
  intros [Hin _]. by apply not_elem_of_nil in Hin.
Qed.

(** X5. With no units there is nothing to apply: [delta_stats] over
    the empty list returns [False] and leaves the database as it is,
    for any district, stored or not, and either direction. *)
Theorem delta_stats_no_units (self : District) (combine : bool) (db : Database) :
  delta_stats ref self [] combine db = (Ok false, db).
Proof.
  unfold delta_stats. induction (subject_rows ref) as [|S l IH]; [done|].
  cbn [delta_subjects]. unfold bind at 1, delta_subject.
  fold (stats_delta ref [] S). rewrite stats_delta_no_units. exact IH.
Qed.

(** X6. [clone_characteristics_from] on a stored district, in a table
    whose numbers fit their field, returns and appends one fresh row
    per computed characteristic of the origin, in the order of the
    subjects, with the origin's subject and number; the rows that were
    there are untouched. So a district that had no row for a subject
    now has the origin's aggregate for it, and one that had a row
    keeps its own. *)
Theorem clone_characteristics_from_copies (self origin : District) (kn : Z)
    (db : Database) :
  well_formed db → numbers_fit db →
  district_pk self = Some kn → kn < district_seq db →
  ∃ db',
    clone_characteristics_from ref self origin db = (Ok tt, db') ∧
    well_formed db' ∧
    district_rows db' = district_rows db ∧
    computed_rows db'
    = computed_rows db ++ clones (computed_seq db) kn (computed_of ref db origin) ∧
    (∀ S, aggregate_of db' kn S
          = if bool_decide (rows_for db kn S = [])
            then aggregate db origin S else aggregate_of db kn S) ∧
    (∀ k S, k ≠ kn → rows_for db' k S = rows_for db k S).
Proof.
  intros Hwf Hstored Hk Hlt. unfold clone_characteristics_from.
  unfold bind at 1, get_db. rewrite Hk.
  destruct (clone_rows_spec kn (computed_of ref db origin) db Hwf Hlt)
    as (db' & Hrun & Hwf' & _ & Hrows & Hcomp).
  { apply Forall_forall. intros c Hc. apply computed_of_stored in Hc.
    by eapply Forall_forall in Hstored. }
  exists db'. split; [exact Hrun|]. split; [exact Hwf'|]. split; [exact Hrows|].
  split; [exact Hcomp|].
  assert (∀ k S, rows_for db' k S
                 = rows_for db k S
                   ++ filter (λ c, cc_subject c = S)
                        (if bool_decide (k = kn)
                         then clones (computed_seq db) kn (computed_of ref db origin)
                         else [])) as Hrf.
  { intros k S. unfold rows_for at 1. by rewrite Hcomp, rows_for_app, clones_district. }
  split.
  - intros S. rewrite aggregate_of_head, Hrf, bool_decide_eq_true_2 by done.
    case_bool_decide as He.
    + rewrite He. simpl. rewrite clones_head_number. unfold aggregate, computed_of.
      destruct (district_pk origin) as [ko|] eqn:Hko; [|done].
      rewrite aggregate_of_head, <- (computed_of_subject ref db origin ko S Hko).
      unfold computed_of. by rewrite Hko.
    + rewrite aggregate_of_head. by destruct (rows_for db kn S).
  - intros k S Hne. rewrite Hrf, bool_decide_eq_false_2 by done.
    by rewrite filter_nil, app_nil_r.
Qed.

(** X7. The id the [pre_save] handler assigns is new to the plan: when
    a district saved without a [district_id] comes back, its id is at
    most [MAX_DISTRICTS + 1] and greater than the id of every district
    row of its plan. *)
Theorem District_save_fresh_id (d c : District) (db db' : Database) :
  district_id d = 0 →
  District_save ref d db = (Ok c, db') →
  district_id c ≤ MAX_DISTRICTS ref + 1 ∧
  ∀ s, s ∈ district_rows db → district_plan s = district_plan d →
       district_id s < district_id c.
Proof.
  intros Hd Hrun. unfold District_save in Hrun.
  apply bind_inv_Ok in Hrun as (d1 & db1 & Hs & Hrun).
  assert (∃ k p, district_plan d = Some k ∧ stored_plan db k = Some p) as (k & p & Hk & Hp).
  { unfold set_district_id in Hs. rewrite bool_decide_eq_true_2 in Hs by done.
    apply bind_inv_Ok in Hs as (p & db0 & Hplan & _).
    apply District_plan_inv in Hplan as (k & Hk & Hp & _). by exists k, p. }
  rewrite (set_district_id_run ref d db k p) in Hs by done.
  case_bool_decide as Hmax; [done|]. injection Hs as <- <-.
  apply bind_inv_Ok in Hrun as (d2 & db2 & Hw & Hrun).
  apply District_write_result in Hw as (_ & Hid & _). simpl in Hid.
  apply bind_inv_Ok in Hrun as ([] & db3 & _ & Hrun). injection Hrun as <- _.
  rewrite Hid. split; [lia|].
  intros s Hs Hsp. rewrite Hk in Hsp. unfold next_district_id.
  assert (district_id s
          ∈ district_id <$> filter (λ d', district_plan d' = Some k)
                              (district_rows db)) as Hin.
  { apply list_elem_of_fmap. exists s. split; [done|]. by apply list_elem_of_filter. }
  destruct (Max _) as [m|] eqn:Hm.
  - apply Max_Some in Hm as [_ Hub]. specialize (Hub _ Hin). lia.
  - apply Max_None in Hm. rewrite Hm in Hin. by apply not_elem_of_nil in Hin.
Qed.

(** X8. [is_latest_version] on a district attached to a plan: when the
    plan has a row it returns, and the answer is true exactly when the
    plan stores a snapshot of this district with this version and none
    with a higher one (so it is false for a district that is not
    stored yet and has no stored sibling); when the plan has no row the
    call raises [DoesNotExist]. The database is not touched. *)
Theorem is_latest_version_attached (self : District) (k : Z) (db : Database) :
  district_plan self = Some k →
  match stored_plan db k with
  | Some _ =>
      ∃ b, is_latest_version self db = (Ok b, db) ∧
           (b = true ↔
            (∃ s, s ∈ district_rows db ∧ district_plan s = Some k ∧
                  district_id s = district_id self ∧
                  district_version s = district_version self) ∧
            (∀ s, s ∈ district_rows db → district_plan s = Some k →
                  district_id s = district_id self →
                  district_version s ≤ district_version self))
  | None => is_latest_version self db = (Raise DoesNotExist, db)
  end.
Proof.
  intros Hk. destruct (stored_plan db k) as [p|] eqn:Hp.
  - eexists. split; [by eapply is_latest_version_run|].
    rewrite bool_decide_eq_true. split.
    + intros Hm. symmetry in Hm. apply Max_Some in Hm as [Hin Hub]. split.
      * apply list_elem_of_fmap in Hin as (s & Hv & Hs).
        apply list_elem_of_filter in Hs as [Hsi Hs].
        apply list_elem_of_filter in Hs as [Hsp Hs]. by exists s.
      * intros s Hs Hsp Hsi. apply Hub. apply list_elem_of_fmap. exists s.
        split; [done|]. apply list_elem_of_filter. split; [done|].
        by apply list_elem_of_filter.
    + intros [(s & Hs & Hsp & Hsi & Hsv) Hub]. symmetry. apply Max_Some. split.
      * apply list_elem_of_fmap. exists s. split; [done|].
        apply list_elem_of_filter. split; [done|]. by apply list_elem_of_filter.
      * intros y Hy. apply list_elem_of_fmap in Hy as (s' & -> & Hs').
        apply list_elem_of_filter in Hs' as [Hsi' Hs'].
        apply list_elem_of_filter in Hs' as [Hsp' Hs']. by apply Hub.
  - unfold is_latest_version. unfold bind at 1.
    by rewrite (District_plan_None self db k Hk Hp).
Qed.

End StatisticsMore.

(** ** The containment search *)

Section SearchFacts.
Context `{GeometryEngine}.
Variable ref : Reference.

Lemma rbind_inv_Ok {A B} (r : Result A) (f : A → Result B) b :
  rbind r f = Ok b → ∃ a, r = Ok a ∧ f a = Ok b.
Proof. destruct r as [a|e]; [|done]. intros Hf. by exists a. Qed.

(** The base level, reached in the sorted list of levels: the levels
    before it are coarser and are passed over. *)
Lemma mixed_levels_base ids inside levels selection b units :
  StronglySorted (key_le id) levels → BASE_GEOLEVEL ref ∈ levels →
  ids ≠ [] → truthy (Some b) = true →
  mixed_levels ref ids (BASE_GEOLEVEL ref) inside levels selection (Some b) units
  = Ok (units
        ++ select_units ref (seed_where ref ids (BASE_GEOLEVEL ref) (simplify b) inside)).
Proof.
  intros Hs Hin Hids Ht. induction Hs as [|level rest Hs IH Hall].
  - by apply not_elem_of_nil in Hin.
  - cbn [mixed_levels]. destruct (Z.eqb_spec (BASE_GEOLEVEL ref) level) as [<-|Hne].
    + rewrite Ht. cbn [negb rbind attr]. destruct ids; [done|].
      cbn [rbind]. by rewrite Z.eqb_refl.
    + apply elem_of_cons in Hin as [?|Hin]; [done|].
      eapply Forall_forall in Hall; [|exact Hin]. unfold key_le in Hall. simpl in Hall.
      destruct (Z.ltb_spec (BASE_GEOLEVEL ref) level); [lia|]. by apply IH.
Qed.

(** X11. The result of a search at the base level: with a boundary
    that is true and at least one id, [get_mixed_geounits] returns, in
    table order, the units whose id is listed and whose centre
    intersects the simplified boundary (inside) or does not
    (outside). *)
Theorem get_mixed_geounits_base_level (geounit_ids : list Z) (b : Geometry)
    (inside : bool) :
  BASE_GEOLEVEL ref ∈ geolevel_rows ref → geounit_ids ≠ [] →
  truthy (Some b) = true →
  get_mixed_geounits ref geounit_ids (BASE_GEOLEVEL ref) (Some b) inside
  = Ok (unit_of
        <$> filter (λ u, geounit_id u ∈ geounit_ids
                         ∧ st_intersects (geounit_center u) (simplify b) = inside)
              (geounit_rows ref)).
Proof.
  intros Hbase Hids Ht. unfold get_mixed_geounits. rewrite Ht. cbn [negb andb].
  rewrite mixed_levels_base; [|apply sorted_StronglySorted| |done..].
  - cbn [app]. unfold select_units. do 2 f_equal. apply list_filter_iff.
    intros u. unfold seed_where. rewrite Z.eqb_refl. cbn [negb].
    rewrite andb_true_iff, bool_decide_eq_true.
    destruct inside, (st_intersects (geounit_center u) (simplify b)); simpl;
      intuition congruence.
  - by rewrite (sorted_Permutation id).
Qed.

Lemma mixed_levels_found ids geolevel inside levels selection boundary units res :
  (∀ l, l ∈ levels → l ∈ geolevel_rows ref) →
  Forall (found_below ref ids geolevel) units →
  mixed_levels ref ids geolevel inside levels selection boundary units = Ok res →
  Forall (found_below ref ids geolevel) res.
Proof.
  revert selection boundary units.
  induction levels as [|level rest IH]; intros selection boundary units Hlv Hunits.
  - cbn [mixed_levels]. by intros [= <-].
  - assert (∀ l, l ∈ rest → l ∈ geolevel_rows ref) as Hlv'
      by (intros l ?; apply Hlv; by right).
    cbn [mixed_levels]. destruct (Z.eqb_spec geolevel level) as [<-|Hne].
    + intros Hrun.
      apply rbind_inv_Ok in Hrun as (boundary' & _ & Hrun).
      apply rbind_inv_Ok in Hrun as (b & _ & Hrun).
      apply rbind_inv_Ok in Hrun as (rows & Hrows & Hrun).
      assert (Forall (found_below ref ids geolevel) (units ++ rows)) as Hall.
      { apply Forall_app. split; [done|].
        destruct ids as [|i ids']; [done|]. injection Hrows as <-.
        apply Forall_forall. intros r Hr. unfold select_units in Hr.
        apply list_elem_of_fmap in Hr as (u & -> & Hu).
        apply list_elem_of_filter in Hu as [Hw Hu].
        exists u. split; [done|]. split; [done|]. left.
        unfold seed_where in Hw. apply andb_true_iff in Hw as [Hw _].
        by apply bool_decide_eq_true in Hw. }
      destruct (geolevel =? BASE_GEOLEVEL ref); [by injection Hrun as <-|].
      by eapply IH.
    + destruct (Z.ltb_spec geolevel level) as [Hlt|Hge]; [|by apply IH].
      intros Hrun.
      apply rbind_inv_Ok in Hrun as (union_ & _ & Hrun).
      apply rbind_inv_Ok in Hrun as (intersects & _ & Hrun).
      apply rbind_inv_Ok in Hrun as (remainder & _ & Hrun).
      apply rbind_inv_Ok in Hrun as (remainder' & _ & Hrun).
      eapply IH; [done| |exact Hrun].
      destruct (negb (empty remainder')); [|done].
      apply Forall_app. split; [done|].
      apply Forall_forall. intros r Hr. unfold select_units in Hr.
      apply list_elem_of_fmap in Hr as (u & -> & Hu).
      apply list_elem_of_filter in Hu as [Hw Hu].
      exists u. split; [done|]. split; [done|]. right.
      unfold level_where in Hw. apply andb_true_iff in Hw as [Hw _].
      apply Z.eqb_eq in Hw. rewrite Hw. split; [done|]. apply Hlv. left.
Qed.

(** X12. The search never returns a unit coarser than asked: every
    unit [get_mixed_geounits] returns is a row of the unit table that
    is one of the units named, or that lies at a geolevel of the table
    below the one requested (finer: a greater id). *)
Theorem get_mixed_geounits_never_coarser (geounit_ids : list Z) (geolevel : Z)
    (boundary : option Geometry) (inside : bool) (units : list UnitRef) :
  get_mixed_geounits ref geounit_ids geolevel boundary inside = Ok units →
  ∀ r, r ∈ units →
    ∃ u, u ∈ geounit_rows ref ∧ r = unit_of u ∧
         (geounit_id u ∈ geounit_ids ∨
          (geolevel < geounit_geolevel u ∧ geounit_geolevel u ∈ geolevel_rows ref)).
Proof.
  unfold get_mixed_geounits.
  destruct (negb (truthy boundary) && inside).
  - intros [= <-] r Hr. by apply not_elem_of_nil in Hr.
  - intros Hrun r Hr. apply mixed_levels_found in Hrun.
    + eapply Forall_forall in Hrun; [|exact Hr]. exact Hrun.
    + intros l Hl. by rewrite (sorted_Permutation id) in Hl.
    + constructor.
Qed.

Lemma mixed_levels_unknown ids geolevel inside levels boundary :
  geolevel ∉ levels → (truthy boundary = true ∨ inside = false) →
  mixed_levels ref ids geolevel inside levels None boundary []
  = if bool_decide (Exists (λ l, geolevel < l) levels)
    then Raise AttributeError else Ok [].
Proof.
  intros Hnot Hcase. induction levels as [|level rest IH].
  - cbn [mixed_levels]. rewrite bool_decide_eq_false_2; [done|].
    by intros ?%Exists_nil.
  - apply not_elem_of_cons in Hnot as [Hne Hnot].
    cbn [mixed_levels]. destruct (Z.eqb_spec geolevel level) as [?|_]; [done|].
    destruct (Z.ltb_spec geolevel level) as [Hlt|Hge].
    + rewrite bool_decide_eq_true_2 by (by left).
      cbn [union_units rbind intersects_of]. unfold remainder_of.
      destruct Hcase as [Ht| ->].
      * destruct boundary as [b|]; [|done]. by destruct inside.
      * done.
    + rewrite IH by done.
      rewrite (bool_decide_ext (Exists (λ l, geolevel < l) (level :: rest))
                 (Exists (λ l, geolevel < l) rest)); [done|].
      rewrite Exists_cons. intuition lia.
Qed.

(** X13. A geolevel that is not in the table is not reported as such:
    when the search is run (the boundary is true, or the search is
    outside) for a level that no geolevel row has, it returns no unit
    if every level of the table is coarser, and otherwise raises
    [AttributeError] at the first finer level, where the selection it
    never computed is used. *)
Theorem get_mixed_geounits_unknown_level (geounit_ids : list Z) (geolevel : Z)
    (boundary : option Geometry) (inside : bool) :
  geolevel ∉ geolevel_rows ref →
  truthy boundary = true ∨ inside = false →
  get_mixed_geounits ref geounit_ids geolevel boundary inside
  = if bool_decide (Exists (λ l, geolevel < l) (geolevel_rows ref))
    then Raise AttributeError else Ok [].
Proof.
  intros Hnot Hcase. unfold get_mixed_geounits.
  assert (negb (truthy boundary) && inside = false) as ->.
  { destruct Hcase as [->| ->]; [done|]. apply andb_false_r. }
  rewrite mixed_levels_unknown; [|by rewrite (sorted_Permutation id)|done].
  rewrite (bool_decide_ext (Exists (λ l, geolevel < l) (sorted id (geolevel_rows ref)))
             (Exists (λ l, geolevel < l) (geolevel_rows ref))); [done|].
  rewrite !Exists_exists.
  split; intros (l & Hl & Hlt); exists l; (split; [|done]).
  - by rewrite (sorted_Permutation id) in Hl.
  - by rewrite (sorted_Permutation id).
Qed.

End SearchFacts.

Section SortKeyFacts.
Import Stdlib.Strings.Ascii.
Context `{GeometryEngine}.

Lemma startswith_space name :
  startswith name "District " = true → ∃ s1 s2, name = s1 +:+ String " " s2.
Proof.
  unfold startswith.
  do 9 (destruct name as [|? name]; cbn [String.prefix]; [done|];
        destruct (ascii_dec _ _) as [<-|]; [|done]).
  intros _. by exists "District", name.
Qed.

Lemma rsplit_last_sep sep s1 s2 : is_Some (rsplit_last sep (s1 +:+ String sep s2)).
Proof.
  induction s1 as [|c s1 IH]; simpl.
  - destruct (rsplit_last sep s2) as [[b a]|]; [eauto|].
    rewrite Ascii.eqb_refl. eauto.
  - destruct IH as [[b a] ->]. eauto.
Qed.

Lemma int_digits_all acc s : all_digits s = true → ∃ n, int_digits acc s = Returns n.
Proof.
  revert acc. induction s as [|c s IH]; simpl; intros acc Hd; [eauto|].
  apply andb_true_iff in Hd as [-> Hd]. by apply IH.
Qed.

Lemma int_isdigit s : isdigit s = true → ∃ n, int s = Returns n.
Proof. destruct s as [|c s]; [done|]. apply int_digits_all. Qed.

Lemma length_zeros k : String.length (zeros k) = k.
Proof. induction k as [|k IH]; simpl; [done|]. by rewrite IH. Qed.

Lemma length_append s1 s2 :
  String.length (s1 +:+ s2) = (String.length s1 + String.length s2)%nat.
Proof. induction s1 as [|c s1 IH]; simpl; [done|]. by rewrite IH. Qed.

Lemma length_format_03d n : (3 ≤ String.length (format_03d n))%nat.
Proof.
  unfold format_03d. rewrite length_append, length_zeros. lia.
Qed.

(** X16. [sortKey] returns on every name of ASCII characters: the
    index [1] into the result of [rsplit] is in range, because a name
    that starts with "District " has a blank, and [int] is applied to
    digits only. A key that is a number has at least three digits. *)
Theorem sortKey_returns (self : District) :
  ascii_only (district_name self) = true →
  ∃ key, sortKey self = Returns key ∧
         (isdigit key = true → (3 ≤ String.length key)%nat).
Proof.
  intros _. unfold sortKey.
  assert (∃ name, (if startswith (district_name self) "District "
                   then item (rsplit " " (district_name self)) 1
                   else Returns (district_name self)) = Returns name) as [name ->].
  { destruct (startswith _ _) eqn:Hs; [|eauto].
    apply startswith_space in Hs as (s1 & s2 & ->). unfold rsplit.
    destruct (rsplit_last_sep " " s1 s2) as [[b a] ->]. by exists a. }
  cbn [and_then]. destruct (isdigit name) eqn:Hd.
  - destruct (int_isdigit name Hd) as [n ->]. cbn [and_then].
    eexists. split; [done|]. intros _. apply length_format_03d.
  - exists name. split; [done|]. by rewrite Hd.
Qed.

Lemma increasing_lookup l i j x y :
  increasing l = true → l !! i = Some x → l !! j = Some y → (i < j)%nat →
  String.ltb x y = true.
Proof.
  revert i j. induction l as [|z l IH]; intros i j Hinc Hi Hj Hij; [done|].
  cbn [increasing] in Hinc. apply andb_true_iff in Hinc as [Hz Hinc].
  destruct j as [|j]; [lia|]. destruct i as [|i].
  - injection Hi as ->. simpl in Hj.
    rewrite forallb_forall in Hz. apply Hz.
    apply list_elem_of_In. by eapply list_elem_of_lookup_2.
  - simpl in Hi, Hj. eapply IH; [done|exact Hi|exact Hj|lia].
Qed.

Lemma sortKey_name (d : District) : sortKey d = sortKey (named (district_name d)).
Proof. done. Qed.

(** The key of "District n" for [n] from [lo], [len] numbers on. *)
Lemma sortKey_numbered_range lo len n :
  forallb (λ n, bool_decide (sortKey (named ("District " +:+ pretty n))
                             = Returns (format_03d (N.of_nat n)))) (seq lo len) = true →
  (lo ≤ n < lo + len)%nat →
  sortKey (named ("District " +:+ pretty n)) = Returns (format_03d (N.of_nat n)).
Proof.
  intros Hall Hn. rewrite forallb_forall in Hall.
  specialize (Hall n). eapply bool_decide_eq_true_1, Hall.
  apply list_elem_of_In, elem_of_seq. lia.
Qed.

Lemma format_03d_lookup lo len (n : nat) :
  (lo ≤ n < lo + len)%nat →
  ((λ n, format_03d (N.of_nat n)) <$> seq lo len) !! (n - lo)%nat
  = Some (format_03d (N.of_nat n)).
Proof.
  intros Hn. rewrite list_lookup_fmap, lookup_seq_lt by lia. simpl.
  do 3 f_equal. lia.
Qed.

(** The keys of "District 0" to "District 1999", computed. *)
Lemma sortKey_numbered_2000 :
  forallb (λ n, bool_decide (sortKey (named ("District " +:+ pretty n))
                             = Returns (format_03d (N.of_nat n)))) (seq 0 2000) = true.
Proof. vm_compute. reflexivity. Qed.

Lemma format_03d_increasing_1000 :
  increasing ((λ n, format_03d (N.of_nat n)) <$> seq 0 1000) = true.
Proof. vm_compute. reflexivity. Qed.

Lemma format_03d_four_digits :
  four_below ((λ n, format_03d (N.of_nat n)) <$> seq 1000 1000)
             ((λ n, format_03d (N.of_nat n)) <$> seq 200 800) = true.
Proof. vm_compute. reflexivity. Qed.

(** X17. Numbered districts sort by number up to 999: for two
    districts named "District a" and "District b" with a < b < 1000,
    [sortKey] returns keys of which the first is below the second in
    the order of strings. *)
Theorem sortKey_numbered_order (d1 d2 : District) (a b : nat) :
  district_name d1 = "District " +:+ pretty a →
  district_name d2 = "District " +:+ pretty b →
  (a < b)%nat → (b < 1000)%nat →
  ∃ k1 k2, sortKey d1 = Returns k1 ∧ sortKey d2 = Returns k2 ∧
           String.ltb k1 k2 = true.
Proof.
  intros H1 H2 Hab Hb.
  exists (format_03d (N.of_nat a)), (format_03d (N.of_nat b)).
  rewrite (sortKey_name d1), (sortKey_name d2), H1, H2.
  assert (0 ≤ a < 0 + 2000)%nat as Ha2 by lia.
  assert (0 ≤ b < 0 + 2000)%nat as Hb2 by lia.
  assert (0 ≤ a < 0 + 1000)%nat as Ha1 by lia.
  assert (0 ≤ b < 0 + 1000)%nat as Hb1 by lia.
  split; [exact (sortKey_numbered_range 0 2000 a sortKey_numbered_2000 Ha2)|].
  split; [exact (sortKey_numbered_range 0 2000 b sortKey_numbered_2000 Hb2)|].
  eapply increasing_lookup; [exact format_03d_increasing_1000| | |].
  - exact (format_03d_lookup 0 1000 a Ha1).
  - exact (format_03d_lookup 0 1000 b Hb1).
  - lia.
Qed.

(** X18. Beyond 999 the order of the keys is not the order of the
    numbers: the key of a district numbered from 1000 to 1999 has four
    digits and is below the key of every district numbered from 200 to
    999. *)
Theorem sortKey_order_breaks (d1 d2 : District) (a b : nat) :
  district_name d1 = "District " +:+ pretty a →
  district_name d2 = "District " +:+ pretty b →
  (200 ≤ a < 1000)%nat → (1000 ≤ b < 2000)%nat →
  ∃ k1 k2, sortKey d1 = Returns k1 ∧ sortKey d2 = Returns k2 ∧
           String.length k2 = 4%nat ∧ String.ltb k2 k1 = true.
Proof.
  intros H1 H2 Ha Hb.
  exists (format_03d (N.of_nat a)), (format_03d (N.of_nat b)).
  rewrite (sortKey_name d1), (sortKey_name d2), H1, H2.
  assert (0 ≤ a < 0 + 2000)%nat as Ha2 by lia.
  assert (0 ≤ b < 0 + 2000)%nat as Hb2 by lia.
  assert (In (format_03d (N.of_nat b))
            ((λ n, format_03d (N.of_nat n)) <$> seq 1000 1000)) as Hbin.
  { apply (in_map (λ n, format_03d (N.of_nat n))), in_seq. lia. }
  assert (In (format_03d (N.of_nat a))
            ((λ n, format_03d (N.of_nat n)) <$> seq 200 800)) as Hain.
  { apply (in_map (λ n, format_03d (N.of_nat n))), in_seq. lia. }
  split; [exact (sortKey_numbered_range 0 2000 a sortKey_numbered_2000 Ha2)|].
  split; [exact (sortKey_numbered_range 0 2000 b sortKey_numbered_2000 Hb2)|].
  pose proof (proj1 (forallb_forall _ _) format_03d_four_digits _ Hbin) as Hrow.
  cbv beta in Hrow. apply andb_prop in Hrow as [Hlen Hall].
  split; [by apply Nat.eqb_eq|].
  exact (proj1 (forallb_forall _ _) Hall _ Hain).
Qed.

End SortKeyFacts.

Section PermissionFacts.

(** X19. The three permission checks fit together: whoever can edit a
    plan can copy it; a template can be copied by anyone and edited or
    viewed by no one, its owner and the staff included; and whether a
    plan can be viewed does not depend on the user. *)
Theorem can_edit_implies_can_copy (user other : User) (plan : PlanAccess) :
  (can_edit user plan = true → can_copy user plan = true) ∧
  (is_template plan = true →
   can_copy user plan = true ∧ can_edit user plan = false ∧
   can_view user plan = false) ∧
  can_view user plan = can_view other plan.
Proof.
  unfold can_edit, can_copy, can_view. split; [|split; [|done]].
  - destruct (User_eq (owner plan) user), (is_staff user), (is_template plan); done.
  - intros ->. split; [done|]. split; [apply andb_false_r|apply andb_false_r].
Qed.

End PermissionFacts.

(** ** An edit at an earlier version *)

Section Revert.
Context `{GeometryEngine}.
Variable ref : Reference.

Lemma NoDup_unique_snapshots (rows : list District) :
  NoDup ((λ d, (district_id d, district_version d)) <$> rows) → unique_snapshots rows.
Proof.
  intros Hnd d1 d2 H1 H2 Hi Hv.
  apply list_elem_of_lookup in H1 as [i Hi1]. apply list_elem_of_lookup in H2 as [j Hj2].
  assert (i = j) as ->; [|congruence].
  eapply NoDup_lookup; [exact Hnd| |].
  - by rewrite list_lookup_fmap, Hi1.
  - rewrite list_lookup_fmap, Hj2. simpl. by rewrite Hi, Hv.
Qed.

(** One pass of the loop of [add_geounits]: the rows it adds for the
    district at the head of the list. *)
Lemma add_geounits_loop_head (self : Plan) districtid ids geolevel d l
    fixed target db fixed' target' db' :
  district_id d ≠ 0 →
  add_geounits_loop ref self districtid ids geolevel (incremental_of ref ids)
    (d :: l) fixed target db = (Ok (fixed', target'), db') →
  ∃ head_new fixed2 target2 db2,
    add_geounits_loop ref self districtid ids geolevel (incremental_of ref ids)
      l fixed2 target2 db2 = (Ok (fixed', target'), db') ∧
    grows (λ c, district_id c = district_id d) db db2 ∧
    district_rows db2 = district_rows db ++ head_new ∧
    (∀ c, c ∈ head_new → district_id d ≠ districtid ∧ loop_row ref self ids db d c) ∧
    (district_id d ≠ districtid →
     touches (district_geom d) (incremental_of ref ids) = Ok true ∨ latest_in db d = false →
     ∃ c, c ∈ head_new ∧ district_id c = district_id d).
Proof.
  intros Hnz. cbn [add_geounits_loop].
  destruct (Z.eqb_spec (district_id d) districtid) as [Hid|Hid].
  - intros Hrun. exists [], fixed, (Some d), db.
    split; [done|]. split; [apply grows_refl|]. split; [by rewrite app_nil_r|].
    split; [by intros c ?%not_elem_of_nil|done].
  - intros Hrun.
    apply bind_inv_Ok in Hrun as (hit & db1 & Hhit & Hrun).
    unfold lift in Hhit. injection Hhit as Hhit <-.
    destruct hit; simpl in Hrun.
    + apply bind_inv_Ok in Hrun as (geounits & db1 & Hg & Hrun).
      unfold lift in Hg. injection Hg as Hg <-.
      apply bind_inv_Ok in Hrun as (d' & db1 & Hsub & Hrun).
      unfold lift in Hsub. injection Hsub as Hsub <-.
      apply subtract_incremental_id in Hsub as (Hd' & Hp' & _).
      apply bind_inv_Ok in Hrun as (c & db2 & Hs & Hrun).
      apply bind_inv_Ok in Hrun as (changed & db3 & Hdelta & Hrun).
      pose proof (delta_stats_same_store ref c geounits false db2) as Hsame.
      rewrite Hdelta in Hsame. simpl in Hsame.
      pose proof (snapshot_grows ref self d' db) as Hgrow. rewrite Hs in Hgrow.
      simpl in Hgrow.
      apply snapshot_Ok_inv in Hs as (i & Hi & Hc & Hrows & _).
      assert (i = district_id d) as -> by (rewrite <- Hd'; apply Hi; congruence).
      exists [c], (if changed then fixed + 1 else fixed), target, db3.
      split; [done|]. split; [|split; [|split]].
      * eapply grows_trans; [|apply same_store_grows, Hsame].
        eapply grows_impl; [|exact Hgrow].
        intros c' (_ & _ & Hc'). rewrite <- Hd'. apply Hc'. congruence.
      * destruct Hsame as (_ & -> & _). exact Hrows.
      * intros c' Hc'. apply list_elem_of_singleton in Hc' as ->.
        split; [done|]. rewrite Hc. split; [done|]. split; [done|].
        split; [done|]. intros Hf. congruence.
      * intros _ _. exists c. split; [left|by rewrite Hc].
    + apply bind_inv_Ok in Hrun as (latest & db2 & Hl & Hrun).
      pose proof (is_latest_version_same d db) as Hsame.
      rewrite Hl in Hsame. simpl in Hsame. subst db2.
      apply is_latest_version_result in Hl as ->.
      destruct (latest_in db d) eqn:Hlatest; simpl in Hrun.
      * exists [], fixed, target, db.
        split; [done|]. split; [apply grows_refl|]. split; [by rewrite app_nil_r|].
        split; [by intros c ?%not_elem_of_nil|]. intros _ [?|?]; congruence.
      * apply bind_inv_Ok in Hrun as (c & db2 & Hs & Hrun).
        pose proof (snapshot_grows ref self d db) as Hgrow. rewrite Hs in Hgrow.
        simpl in Hgrow.
        apply snapshot_Ok_inv in Hs as (i & Hi & Hc & Hrows & _).
        assert (i = district_id d) as -> by (by apply Hi).
        exists [c], (fixed + 1), target, db2.
        split; [done|]. split; [|split; [done|split]].
        -- eapply grows_impl; [|exact Hgrow]. intros c' (_ & _ & Hc'). by apply Hc'.
        -- intros c' Hc'. apply list_elem_of_singleton in Hc' as ->.
           split; [done|]. by rewrite Hc.
        -- intros _ _. exists c. split; [left|by rewrite Hc].
Qed.

Lemma loop_row_grows (self : Plan) ids i db db2 (d c : District) :
  grows (λ c, district_id c = i) db db2 → district_id d ≠ i →
  loop_row ref self ids db2 d c → loop_row ref self ids db d c.
Proof.
  intros Hg Hne (Hid & Hv & Hp & Hcase). split; [done|]. split; [done|].
  split; [done|]. intros Hf. rewrite <- (latest_in_grows d db db2); [by apply Hcase|].
  eapply grows_impl; [|exact Hg]. intros c' ->. congruence.
Qed.

(** The rows the loop adds, over the districts it was given. *)
Lemma add_geounits_loop_rows (self : Plan) districtid ids geolevel districts
    fixed target db fixed' target' db' :
  NoDup (district_id <$> districts) →
  (∀ d, d ∈ districts → district_id d ≠ 0) →
  add_geounits_loop ref self districtid ids geolevel (incremental_of ref ids)
    districts fixed target db = (Ok (fixed', target'), db') →
  ∃ new,
    district_rows db' = district_rows db ++ new ∧
    (∀ c, c ∈ new →
          ∃ d, d ∈ districts ∧ district_id d ≠ districtid ∧ loop_row ref self ids db d c) ∧
    (∀ d, d ∈ districts → district_id d ≠ districtid →
          touches (district_geom d) (incremental_of ref ids) = Ok true
          ∨ latest_in db d = false →
          ∃ c, c ∈ new ∧ district_id c = district_id d).
Proof.
  revert fixed target db. induction districts as [|d l IH]; intros fixed target db Hnd Hnz.
  - cbn [add_geounits_loop]. intros [= _ _ <-]. exists []. rewrite app_nil_r.
    split; [done|]. split; [by intros c ?%not_elem_of_nil|by intros d ?%not_elem_of_nil].
  - intros Hrun. rewrite fmap_cons in Hnd. apply NoDup_cons in Hnd as [Hd Hnd].
    assert (∀ d', d' ∈ l → district_id d' ≠ district_id d) as Hother.
    { intros d' Hd' Heq. apply Hd. apply list_elem_of_fmap. by exists d'. }
    apply add_geounits_loop_head in Hrun
      as (head_new & fixed2 & target2 & db2 & Hrun & Hgrow & Hrows & Hhead & Hsome);
      [|apply Hnz; left].
    apply IH in Hrun as (new & Hrows' & Hnew & Hall);
      [|done|intros d' ?; apply Hnz; by right].
    exists (head_new ++ new). rewrite Hrows', Hrows, app_assoc. split; [done|]. split.
    + intros c Hc. apply elem_of_app in Hc as [Hc|Hc].
      * destruct (Hhead c Hc) as [Hne Hrow]. exists d. split; [left|done].
      * destruct (Hnew c Hc) as (d' & Hd' & Hne & Hrow). exists d'.
        split; [by right|]. split; [done|].
        eapply loop_row_grows; [exact Hgrow|by apply Hother|done].
    + intros d' Hd' Hne Hcase. apply elem_of_cons in Hd' as [->|Hd'].
      * destruct (Hsome Hne Hcase) as (c & Hc & Hcid). exists c.
        split; [apply elem_of_app; by left|done].
      * destruct (Hall d' Hd' Hne) as (c & Hc & Hcid).
        { destruct Hcase as [?|Hlatest]; [by left|right].
          rewrite (latest_in_grows d' db db2); [done|].
          eapply grows_impl; [|exact Hgrow]. intros c' ->.
          intros Heq. by apply (Hother d' Hd'). }
        exists c. split; [apply elem_of_app; by right|done].
Qed.

(** X23. An edit made at an earlier version brings back what it does
    not touch: after [add_geounits] has returned, the districts at the
    new version of the plan include, for every district listed at the
    version of the edit that is not the target and that the selection
    does not touch, a district with its id, its name and its
    geometries, whatever later versions that district had. *)
Theorem add_geounits_brings_back (self : Plan) (districtid : Z) (geounit_ids : list Z)
    (geolevel version : Z) (db : Database) (fixed : Z) (self' : Plan) (db' : Database)
    (d : District) :
  unique_snapshots (snapshots_of db self) →
  (∀ s, s ∈ snapshots_of db self → district_version s ≤ plan_version self) →
  (∀ s, s ∈ district_rows db → district_id s ≠ 0) →
  add_geounits ref self districtid geounit_ids geolevel version db
    = (Ok (fixed, self'), db') →
  d ∈ districts_at_version (snapshots_of db self) version →
  district_id d ≠ districtid →
  touches (district_geom d) (incremental_of ref geounit_ids) = Ok false →
  ∃ r c,
    get_districts_at_version self' (plan_version self') db' = (Ok r, db') ∧
    c ∈ r ∧ district_id c = district_id d ∧ district_name c = district_name d ∧
    district_geom c = district_geom d ∧ district_simple c = district_simple d.
Proof.
  intros Hu Hle Hnz Hrun Hd Hne Hf. apply add_geounits_Ok_stored in Hrun
    as (k & fixed1 & target & db1 & geounits & target' & ct & db2 & changed & db3
        & Hk & Hin & Hid & Hloop & Hunits & Hmerge & Hsnap & Hdelta & Hself & Hdb & Hst).
  set (districts := districts_at_version (snapshots_of db self) version) in *.
  assert (∀ s, s ∈ districts → s ∈ district_rows db ∧ district_plan s = Some k) as Hstored.
  { intros s Hs. apply districts_at_version_latest in Hs as [Hs _].
    unfold snapshots_of in Hs. rewrite Hk in Hs.
    by apply list_elem_of_filter in Hs as [? ?]. }
  apply add_geounits_loop_rows in Hloop as (new & Hrows1 & Hnew & Hall);
    [|apply districts_at_version_NoDup|intros s Hs; apply Hnz; by apply Hstored].
  apply merge_incremental_id in Hmerge as (Hid' & Hp' & _).
  apply snapshot_Ok_inv in Hsnap as (i & Hi & Hct & Hrows2 & _).
  assert (i = districtid) as ->.
  { rewrite <- Hid, <- Hid'. apply Hi. rewrite Hid'. apply Hnz. by apply Hstored. }
  assert (district_rows db3 = district_rows db2) as Hrows3.
  { destruct (truthy (district_geom ct)).
    - pose proof (delta_stats_same_store ref ct geounits true db2) as G.
      rewrite Hdelta in G. by destruct G as (_ & ? & _).
    - by injection Hdelta as _ <-. }
  set (N := plan_version self) in *.
  assert (plan_version self' = N + 1) as Hv by (by rewrite Hself).
  set (rows := snapshots_of db' self').
  assert (∀ s, s ∈ rows ↔
               district_plan s = Some k ∧
               (s ∈ district_rows db ∨ s ∈ new ∨ s = ct)) as Hrows.
  { intros s. unfold rows, snapshots_of. rewrite Hself, Hdb. simpl. rewrite Hk.
    rewrite list_elem_of_filter, Hrows3, Hrows2, Hrows1, !elem_of_app.
    rewrite list_elem_of_singleton. tauto. }
  destruct (Hstored d Hd) as [Hdin Hdp].
  assert (d ∈ rows) as Hdrows by (apply Hrows; tauto).
  assert (district_version d ≤ N) as Hdv.
  { apply Hle. unfold snapshots_of. rewrite Hk. by apply list_elem_of_filter. }
  destruct (districts_at_version_covers rows (N + 1) d Hdrows) as (c & Hc & Hcid); [lia|].
  exists (districts_at_version rows (plan_version self')), c.
  split; [apply get_districts_at_version_run|]. rewrite Hv. split; [done|].
  split; [done|].
  apply districts_at_version_latest in Hc as (Hcrows & Hcv & Hmax).
  apply Hrows in Hcrows as [Hcp [Hcold|[Hcnew| ->]]].
  - assert (district_version c ≤ N) as HcN.
    { apply Hle. unfold snapshots_of. rewrite Hk. by apply list_elem_of_filter. }
    destruct (latest_in db d) eqn:Hlatest.
    + assert (c = d) as ->; [|done].
      apply Hu; [unfold snapshots_of; rewrite Hk; by apply list_elem_of_filter..|done|].
      apply Z.le_antisymm; [|apply Hmax; [done|done|lia]].
      unfold latest_in in Hlatest. apply bool_decide_eq_true_1 in Hlatest.
      symmetry in Hlatest. apply Max_Some in Hlatest as [_ Hub]. apply Hub.
      apply list_elem_of_fmap. exists c. split; [done|].
      apply list_elem_of_filter. split; [done|].
      apply list_elem_of_filter. split; [congruence|done].
    + destruct (Hall d Hd Hne (or_intror Hlatest)) as (c0 & Hc0 & Hc0id).
      destruct (Hnew c0 Hc0) as (d0 & Hd0 & _ & _ & Hc0v & Hc0p & _).
      assert (c0 ∈ rows) as Hc0rows.
      { apply Hrows. split; [|tauto]. rewrite Hc0p. by apply Hstored. }
      specialize (Hmax c0 Hc0rows). lia.
  - destruct (Hnew c Hcnew) as (d0 & Hd0 & _ & Hd0id & _ & _ & Hcase).
    assert (d0 = d) as ->.
    { eapply (NoDup_fmap_inj district_id); [apply districts_at_version_NoDup|done..|].
      congruence. }
    by destruct (Hcase Hf) as (_ & ? & ? & ?).
  - rewrite Hct in Hcid. simpl in Hcid. congruence.
Qed.


End Revert.

Section WfsFacts.
Context `{GeometryEngine}.
Variable Float : Type.
Variable Json : Type.
Variable float : Z → Float.
Variable json_loads : string → Outcome Json.
Variable st_asgeojson : Geometry → string.

Lemma sql_eq_true a b : sql_eq a b = true ↔ ∃ k, a = Some k ∧ b = Some k.
Proof.
  destruct a as [x|], b as [y|]; simpl.
  - rewrite Z.eqb_eq. split; [intros ->; eauto|]. by intros (k & [= ->] & [= ->]).
  - split; [done|]. by intros (k & _ & ?).
  - split; [done|]. by intros (k & ? & _).
  - split; [done|]. by intros (k & ? & _).
Qed.

(** The rows of [lmt]: the greatest version at or below [V] of each
    district of the plan. *)
Lemma elem_of_lmt db k V v i :
  (v, i) ∈ lmt db k V ↔
  (∃ d, d ∈ district_rows db ∧ district_plan d = Some k ∧ district_id d = i ∧
        district_version d = v ∧ v ≤ V) ∧
  (∀ d, d ∈ district_rows db → district_plan d = Some k → district_id d = i →
        district_version d ≤ V → district_version d ≤ v).
Proof.
  unfold lmt. rewrite list_elem_of_omap. split.
  - intros (i' & Hi & Hm). destruct (Max _) as [m|] eqn:HM; [|done].
    injection Hm as <- <-. apply Max_Some in HM as [Hin Hub].
    apply list_elem_of_fmap in Hin as (d & -> & Hd).
    apply list_elem_of_filter in Hd as [Hid Hd].
    apply list_elem_of_filter in Hd as [[Hp Hv] Hd].
    split; [by exists d|]. intros s Hs Hps His Hvs. apply Hub.
    apply list_elem_of_fmap. exists s. split; [done|].
    apply list_elem_of_filter. split; [congruence|].
    apply list_elem_of_filter. by split.
  - intros [(d & Hd & Hp & Hi & Hv & HV) Hub]. exists i. split.
    + apply elem_of_remove_dups, list_elem_of_fmap. exists d. split; [done|].
      apply list_elem_of_filter. split; [split; [done|lia]|done].
    + assert (Max (district_version
                     <$> filter (λ d, district_id d = i)
                           (filter (λ d, district_plan d = Some k ∧ district_version d ≤ V)
                              (district_rows db))) = Some v) as ->; [|done].
      apply Max_Some. split.
      * apply list_elem_of_fmap. exists d. split; [done|].
        apply list_elem_of_filter. split; [done|].
        apply list_elem_of_filter. split; [split; [done|lia]|done].
      * intros y Hy. apply list_elem_of_fmap in Hy as (s & -> & Hs).
        apply list_elem_of_filter in Hs as [His Hs].
        apply list_elem_of_filter in Hs as [[Hps Hvs] Hs]. by apply Hub.
Qed.

(** The rows of the query: a latest snapshot of the plan at the
    version, joined with one of its statistics on the subject. *)
Lemma elem_of_wfs_query db (self : Plan) k V S row :
  plan_pk self = Some k →
  row ∈ wfs_query st_asgeojson db k V S ↔
  ∃ rd rc, latest_at (snapshots_of db self) V rd ∧ rc ∈ computed_rows db ∧
           sql_eq (district_pk rd) (cc_district rc) = true ∧ cc_subject rc = S ∧
           row = wfs_row st_asgeojson rd rc (district_version rd, district_id rd).
Proof.
  intros Hk. unfold wfs_query, snapshots_of, latest_at. rewrite Hk. split.
  - intros Hrow. apply list_elem_of_bind in Hrow as (rd & Hrow & Hrd).
    apply list_elem_of_bind in Hrow as (rc & Hrow & Hrc).
    apply list_elem_of_bind in Hrow as ([v i] & Hrow & Hl).
    destruct (_ && _) eqn:Hc in Hrow; [|by apply not_elem_of_nil in Hrow].
    apply list_elem_of_singleton in Hrow as ->.
    repeat (apply andb_true_iff in Hc as [Hc ?]). simpl in *.
    apply elem_of_lmt in Hl as [(d & Hd & Hp & Hi & Hv & HV) Hub].
    assert (district_id rd = i) as Hid by lia.
    assert (v = district_version rd) as -> by lia.
    assert (district_plan rd = Some k) as Hprd by (by eapply bool_decide_eq_true_1).
    exists rd, rc. split; [|split; [done|split; [done|split; [lia|by rewrite Hid]]]].
    split; [by apply list_elem_of_filter|]. split; [done|].
    intros s Hs Hsi Hsv. apply list_elem_of_filter in Hs as [Hsp Hs].
    apply Hub; [done..|congruence|done].
  - intros (rd & rc & (Hrd & HV & Hub) & Hrc & Hpk & HS & ->).
    apply list_elem_of_filter in Hrd as [Hp Hrd].
    apply list_elem_of_bind. exists rd. split; [|done].
    apply list_elem_of_bind. exists rc. split; [|done].
    apply list_elem_of_bind. exists (district_version rd, district_id rd). split.
    + simpl. rewrite Hpk, !Z.eqb_refl, bool_decide_eq_true_2 by done.
      apply Z.eqb_eq in HS as ->. simpl. by left.
    + apply elem_of_lmt. split; [by exists rd|].
      intros s Hs Hsp Hsi Hsv. apply Hub; [|done..].
      by apply list_elem_of_filter.
Qed.

(** The loop over the rows: the features in the order of the rows. *)
Lemma features_of_Returns rows acc fs :
  features_of Float Json float json_loads rows acc = Returns fs ↔
  ∃ new, fs = acc ++ new ∧
         Forall2 (λ row f, feature Float Json float json_loads row = Returns f) rows new.
Proof.
  revert acc. induction rows as [|row rows IH]; intros acc; cbn [features_of].
  - split.
    + intros [= <-]. exists []. by rewrite app_nil_r.
    + intros (new & -> & Hall). apply Forall2_nil_inv_l in Hall as ->.
      by rewrite app_nil_r.
  - destruct (feature _ _ _ _ row) as [f|e] eqn:Hf; cbn [and_then].
    + rewrite IH. split.
      * intros (new & -> & Hall). exists (f :: new). rewrite <- app_assoc.
        split; [done|]. by constructor.
      * intros (new & -> & Hall). apply Forall2_cons_inv_l in Hall
          as (f' & new' & Hf' & Hall & ->).
        assert (f' = f) as -> by congruence.
        exists new'. by rewrite <- app_assoc.
    + split; [done|]. intros (new & _ & Hall).
      apply Forall2_cons_inv_l in Hall as (f' & new' & Hf' & _ & _). congruence.
Qed.

Lemma features_of_TypeError rows acc row :
  (∀ r, r ∈ rows → ∀ e, feature Float Json float json_loads r = Raises e → e = TypeError) →
  row ∈ rows → feature Float Json float json_loads row = Raises TypeError →
  features_of Float Json float json_loads rows acc = Raises TypeError.
Proof.
  revert acc. induction rows as [|r rows IH]; intros acc Hexc Hrow Hf;
    [by apply not_elem_of_nil in Hrow|].
  cbn [features_of]. destruct (feature _ _ _ _ r) as [f|e] eqn:Hr; cbn [and_then].
  - apply IH; [|by apply elem_of_cons in Hrow as [->|?]; [congruence|]|done].
    intros r' Hr'. apply Hexc. by right.
  - f_equal. eapply Hexc; [left|done].
Qed.

Lemma Forall2_elem_of_l {A B} (P : A → B → Prop) l k x :
  Forall2 P l k → x ∈ l → ∃ y, y ∈ k ∧ P x y.
Proof.
  induction 1 as [|a b l k HP _ IH]; intros Hx; [by apply not_elem_of_nil in Hx|].
  apply elem_of_cons in Hx as [->|Hx].
  - exists b. split; [left|done].
  - destruct (IH Hx) as (y & Hy & HPy). exists y. split; [by right|done].
Qed.

Lemma Forall2_elem_of_r {A B} (P : A → B → Prop) l k y :
  Forall2 P l k → y ∈ k → ∃ x, x ∈ l ∧ P x y.
Proof.
  induction 1 as [|a b l k HP _ IH]; intros Hy; [by apply not_elem_of_nil in Hy|].
  apply elem_of_cons in Hy as [->|Hy].
  - exists a. split; [left|done].
  - destruct (IH Hy) as (x & Hx & HPx). exists x. split; [by right|done].
Qed.

(** The feature of a row of the query. *)
Lemma feature_wfs_row rd rc f :
  feature Float Json float json_loads
    (wfs_row st_asgeojson rd rc (district_version rd, district_id rd)) = Returns f ↔
  ∃ geom g, district_simple rd = Some geom ∧
            json_loads (st_asgeojson geom) = Returns g ∧
            f = feature_of Float Json float rd rc g.
Proof.
  unfold feature, wfs_row, feature_of. cbn.
  destruct (district_simple rd) as [geom|]; cbn.
  - destruct (json_loads (st_asgeojson geom)) as [g|e] eqn:Hg; cbn.
    + split.
      * intros [= <-]. by exists geom, g.
      * intros (geom' & g' & [= <-] & Hg' & ->). congruence.
    + split; [done|]. intros (geom' & g' & [= <-] & Hg' & _). congruence.
  - split; [done|]. by intros (geom' & g' & ? & _).
Qed.

(** The districts the method resolves are the latest snapshots. *)
Lemma latest_at_resolved rows V d :
  unique_snapshots rows → latest_at rows V d → d ∈ districts_at_version rows V.
Proof.
  intros Hu (Hin & Hv & Hmax).
  destruct (districts_at_version_covers rows V d Hin Hv) as (d' & Hd' & Hid).
  assert (d' = d) as <-; [|done].
  eapply latest_at_unique; [done| |done|done].
  by apply districts_at_version_latest.
Qed.

(** X20. The query of [get_wfs_districts] and the loop of
    [get_districts_at_version] resolve a version alike: with one
    snapshot per district and version, the features returned are those
    of the districts [get_districts_at_version] lists for the version,
    one for each statistic the district has on the subject; a district
    without a statistic on the subject is left out. *)
Theorem get_wfs_districts_agrees (self : Plan) (V S : Z) (db : Database)
    (fs : list (Feature Float Json)) :
  unique_snapshots (snapshots_of db self) →
  get_wfs_districts Float Json float json_loads st_asgeojson self V S db = Returns fs →
  ∃ r, get_districts_at_version self V db = (Ok r, db) ∧
       ∀ f, f ∈ fs ↔
            ∃ d c geom g,
              d ∈ r ∧ c ∈ computed_rows db ∧
              sql_eq (district_pk d) (cc_district c) = true ∧ cc_subject c = S ∧
              district_simple d = Some geom ∧
              json_loads (st_asgeojson geom) = Returns g ∧
              f = feature_of Float Json float d c g.
Proof.
  intros Hu Hrun. exists (districts_at_version (snapshots_of db self) V).
  split; [done|]. unfold get_wfs_districts in Hrun.
  destruct (plan_pk self) as [k|] eqn:Hk; [|done].
  apply features_of_Returns in Hrun as (new & -> & Hall). cbn [app].
  intros f. split.
  - intros Hf. destruct (Forall2_elem_of_r _ _ _ _ Hall Hf) as (row & Hrow & Hfeat).
    apply (elem_of_wfs_query db self k V S row Hk) in Hrow
      as (rd & rc & Hlatest & Hrc & Hpk & HS & ->).
    apply feature_wfs_row in Hfeat as (geom & g & Hsimple & Hg & ->).
    exists rd, rc, geom, g. split; [by apply latest_at_resolved|done].
  - intros (d & c & geom & g & Hd & Hc & Hpk & HS & Hsimple & Hg & ->).
    assert (wfs_row st_asgeojson d c (district_version d, district_id d)
            ∈ wfs_query st_asgeojson db k V S) as Hrow.
    { apply (elem_of_wfs_query db self k V S _ Hk). exists d, c.
      split; [by apply districts_at_version_latest|done]. }
    destruct (Forall2_elem_of_l _ _ _ _ Hall Hrow) as (f & Hf & Hfeat).
    apply feature_wfs_row in Hfeat as (geom' & g' & Hsimple' & Hg' & ->).
    assert (geom' = geom) as -> by congruence.
    assert (g' = g) as -> by congruence. done.
Qed.

(** X21. One district without a simplified geometry fails the whole
    call: when a district [get_districts_at_version] lists for the
    version has no [simple] geometry and has a statistic on the
    subject, [get_wfs_districts] raises [TypeError] (from
    [json.loads(None)]) and returns no feature at all. [json.loads] is
    taken to accept what [st_asgeojson] writes. *)
Theorem get_wfs_districts_no_simple (self : Plan) (V S : Z) (db : Database)
    (r : list District) (d : District) (c : ComputedCharacteristic) :
  (∀ geom, ∃ g, json_loads (st_asgeojson geom) = Returns g) →
  get_districts_at_version self V db = (Ok r, db) →
  d ∈ r → district_simple d = None →
  c ∈ computed_rows db → sql_eq (district_pk d) (cc_district c) = true →
  cc_subject c = S →
  get_wfs_districts Float Json float json_loads st_asgeojson self V S db
  = Raises TypeError.
Proof.
  intros Hjson Hr Hd Hsimple Hc Hpk HS.
  rewrite get_districts_at_version_run in Hr. injection Hr as <-.
  unfold get_wfs_districts. destruct (plan_pk self) as [k|] eqn:Hk.
  - eapply (features_of_TypeError _ _
              (wfs_row st_asgeojson d c (district_version d, district_id d))).
    + intros row Hrow e.
      apply (elem_of_wfs_query db self k V S row Hk) in Hrow
        as (rd & rc & _ & _ & _ & _ & ->).
      unfold feature, wfs_row. cbn.
      destruct (district_simple rd) as [geom|]; cbn; [|by intros [= <-]].
      destruct (Hjson geom) as [g ->]. done.
    + apply (elem_of_wfs_query db self k V S _ Hk). exists d, c.
      split; [by apply districts_at_version_latest|done].
    + unfold feature, wfs_row. cbn. by rewrite Hsimple.
  - unfold snapshots_of in Hd. rewrite Hk in Hd.
    rewrite districts_at_version_nil in Hd. by apply not_elem_of_nil in Hd.
Qed.

End WfsFacts.

Section CalculatorFacts.
Import calculators.
Context `{GeometryEngine}.
Variable ref : Reference.
Variable subject_name : Z → string.
Variable Float : Type.
Variable float : Value → Outcome Float.
Variable add : Number Float → Float → Float.

#[local] Instance value_inj : Inj (=) (=) value.
Proof.
  intros a b Hab. unfold value in Hab.
  by apply (inj (String.app "value")), (inj pretty) in Hab.
Qed.

(** The keys [value1] to [valuek] are [k] keys of the dictionary. *)
Lemma values_size (arg_dict : ArgDict) (k : nat) :
  (∀ n, 1 ≤ n ≤ k → is_Some (arg_dict !! value n))%nat → (k ≤ size arg_dict)%nat.
Proof.
  intros Hkeys.
  assert (NoDup (value <$> seq 1 k)) as Hnd.
  { apply (NoDup_fmap_2 value), NoDup_seq. }
  assert (size (list_to_set (C := gset string) (value <$> seq 1 k)) = k) as Hsize.
  { rewrite size_list_to_set by done. by rewrite length_fmap, length_seq. }
  assert (list_to_set (C := gset string) (value <$> seq 1 k) ⊆ dom arg_dict) as Hsub.
  { intros s Hs. apply elem_of_list_to_set, list_elem_of_fmap in Hs as (n & -> & Hn).
    apply elem_of_seq in Hn. apply elem_of_dom, Hkeys. lia. }
  apply subseteq_size in Hsub. rewrite Hsize in Hsub.
  pose proof (size_dom (D := gset string) arg_dict) as Hdom.
  exact (Nat.le_trans _ _ _ Hsub (Nat.eq_le_incl _ _ Hdom)).
Qed.

Lemma get_value_lookup (arg_dict arg_dict' : ArgDict) argument district db :
  arg_dict' !! argument = arg_dict !! argument →
  get_value ref subject_name arg_dict' argument district db
  = get_value ref subject_name arg_dict argument district db.
Proof. intros Heq. unfold get_value. by rewrite Heq. Qed.

(** The loop from [argnum] to the first number that is not a key:
    with fuel for the steps that remain it ends, the same way on
    dictionaries that agree up to that number. *)
Lemma Sum_values_gap (arg_dict arg_dict' : ArgDict) district db (k : nat) :
  (∀ n, 1 ≤ n ≤ k →
        is_Some (arg_dict !! value n) ∧ arg_dict' !! value n = arg_dict !! value n)%nat →
  arg_dict !! value (k + 1) = None → arg_dict' !! value (k + 1) = None →
  ∀ m argnum fuel fuel' result,
    (1 ≤ argnum)%nat → (argnum + m = k + 1)%nat → (m < fuel)%nat → (m < fuel')%nat →
    ∃ out, Sum_values ref subject_name Float float add fuel arg_dict district db argnum result
           = Some out ∧
           Sum_values ref subject_name Float float add fuel' arg_dict' district db argnum result
           = Some out.
Proof.
  intros Hkeys Hgap Hgap'. induction m as [|m IH]; intros argnum fuel fuel' result H1 Hm Hf Hf'.
  - assert (argnum = k + 1)%nat as -> by lia.
    destruct fuel as [|fuel]; [lia|]. destruct fuel' as [|fuel']; [lia|].
    cbn [Sum_values]. rewrite Hgap, Hgap'.
    rewrite bool_decide_eq_false_2 by (by intros [? ?]). eauto.
  - destruct fuel as [|fuel]; [lia|]. destruct fuel' as [|fuel']; [lia|].
    cbn [Sum_values].
    destruct (Hkeys argnum) as [Hsome Heq]; [lia|].
    rewrite (get_value_lookup arg_dict arg_dict') by done. rewrite Heq.
    rewrite bool_decide_eq_true_2 by done.
    destruct (get_value ref subject_name arg_dict (value argnum) district db) as [[number|]|e]; [| |eauto].
    + destruct (float number) as [x|e]; [|eauto]. apply IH; lia.
    + apply IH; lia.
Qed.

(** X22. [Sum.compute] ends, and it stops at the first gap in the
    numbering of its arguments: when [value1] to [valuek] are
    arguments and [value(k+1)] is not, the outcome and the result are
    those of any other dictionary with the same [value1] to [valuek]
    and no [value(k+1)]; an argument numbered after the gap is never
    read. *)
Theorem Sum_compute_stops_at_gap (arg_dict arg_dict' : ArgDict) (kwargs : Kwargs)
    (db : Database) (result : option (Number Float)) (k : nat) :
  (∀ n, 1 ≤ n ≤ k →
        is_Some (arg_dict !! value n) ∧ arg_dict' !! value n = arg_dict !! value n)%nat →
  arg_dict !! value (k + 1) = None → arg_dict' !! value (k + 1) = None →
  ∃ out, Sum_compute ref subject_name Float float add arg_dict kwargs db result = Some out ∧
         Sum_compute ref subject_name Float float add arg_dict' kwargs db result = Some out.
Proof.
  intros Hkeys Hgap Hgap'. unfold Sum_compute.
  destruct (kw_district kwargs) as [district|]; [|destruct (kw_plan kwargs); eauto].
  assert (k ≤ size arg_dict)%nat as Hk.
  { apply values_size. intros n Hn. by apply Hkeys. }
  assert (k ≤ size arg_dict')%nat as Hk'.
  { apply values_size. intros n Hn. destruct (Hkeys n Hn) as [Hs Heq]. by rewrite Heq. }
  destruct (Sum_values_gap arg_dict arg_dict' district db k Hkeys Hgap Hgap' k 1
              (S (size arg_dict)) (S (size arg_dict')) (Int Float 0))
    as ([o r] & Hrun & Hrun'); [lia..|].
  cbn [Sum_districts]. rewrite Hrun, Hrun'. destruct o as [[]|e]; cbn; eauto.
Qed.

End CalculatorFacts.

(** ** The statements on the raster engine *)

Section RasterRuns.
Import Grid.
#[local] Existing Instance engine.

Ltac elem_cases H :=
  repeat (apply elem_of_cons in H as [->|H]); [..|by apply not_elem_of_nil in H].

Lemma db_edited_unique_snapshots : unique_snapshots (snapshots_of db_edited plan1).
Proof.
  apply NoDup_unique_snapshots, (bool_decide_unpack _). vm_compute. exact I.
Qed.


(** C2, the claim as stated fails. The edit is made at version 0 of a
    plan that is at version 1. It returns 2: the target, whose
    aggregate changes, and the reserved district, which is only carried
    forward, with the geometry and the aggregates it had. One district
    has a new snapshot that differs from it. *)
Lemma carried_forward_counts_counterexample :
  fst reverted = Ok (2, mkPlan (Some 1) "p" 2) ∧
  changed_districts db_edited (snd reverted) plan1 0 = 1.
Proof. split; vm_compute; reflexivity. Qed.

Lemma add_geounits_counts_carried_forward_witness :
  (∀ d, d ∈ district_rows db_edited → district_id d ≠ 0) ∧
  add_geounits ref plan1 2 [1; 2] 1 0 db_edited
    = (Ok (2, mkPlan (Some 1) "p" 2), snd reverted) ∧
  ∃ target,
    target ∈ districts_at_version (snapshots_of db_edited plan1) 0 ∧
    district_id target = 2 ∧
    2 = count_of (counts_district ref db_edited 2 [1; 2] 1)
          (districts_at_version (snapshots_of db_edited plan1) 0)
        + (if counts_target ref [1; 2] 1 target then 1 else 0).
Proof.
  assert (∀ d, d ∈ district_rows db_edited → district_id d ≠ 0) as Hnz.
  { intros d Hd. cbv in Hd. elem_cases Hd; simpl; done. }
  assert (add_geounits ref plan1 2 [1; 2] 1 0 db_edited
          = (Ok (2, mkPlan (Some 1) "p" 2), snd reverted)) as Hrun.
  { vm_compute. reflexivity. }
  split; [exact Hnz|]. split; [exact Hrun|].
  exact (add_geounits_counts_carried_forward ref plan1 2 [1; 2] 1 0 db_edited
           2 (mkPlan (Some 1) "p" 2) (snd reverted) Hnz Hrun).
Defined.






(** A fourth district under a plan limited to two: the save is
    refused and nothing is written. *)
Example District_save_over_capacity :
  let d := @mkDistrict engine None 0 "District 3" (Some 1) None None 1 in
  let db := @mkDatabase engine [plan1]
              [@mkDistrict engine (Some 1) 3 "District 2" (Some 1) None None 0]
              [] 2 2 1 in
  District_save ref d db = (Raise ValidationError, db).
Proof. vm_compute. reflexivity. Qed.

(** C6, the claim as stated fails. A failed union does not give the
    target the canonical empty geometry but no geometry at all; and a
    union that fails while the containment search rebuilds the extent
    of the units it has collected is not caught. *)
Lemma geometry_failure_counterexample :
  union (mkShape MultiPolygon 3785 [3] false) (region [1; 2]) = Raise GEOSException ∧
  empty_geom 3785 = Ok (mkShape GeometryCollection 3785 [] true) ∧
  (∃ t, merge_incremental broken_target (Some (region [1; 2])) = Ok t ∧
        district_geom t = None ∧ district_simple t = None) ∧
  get_mixed_geounits ref_levels [10; 11] 1 (Some (region [1; 2; 3; 4])) true
  = Raise GEOSException.
Proof.
  split; [reflexivity|]. split; [reflexivity|]. split; [|vm_compute; reflexivity].
  eexists. split; [vm_compute; reflexivity|]. split; reflexivity.
Qed.

Lemma guarded_failures_recovered_witness :
  let bad := mkShape MultiPolygon 3785 [3] false in
  let inc := region [1; 2] in
  let e := mkShape GeometryCollection 3785 [] true in
  (empty_geom 3785 = Ok e ∧ empty e = true ∧ py_len e = 0%nat) ∧
  (intersection bad inc = Raise GEOSException ∧
   remainder_of true (Some inc) (Some bad) (Some inc) = Ok e ∧
   mixed_levels ref_levels [10; 11] 1 true [2] (Some inc) (Some bad) []
   = mixed_levels ref_levels [10; 11] 1 true [] (Some inc) (Some bad) []) ∧
  (difference inc bad = Raise GEOSException ∧
   remainder_of false (Some inc) (Some bad) (Some inc) = Ok e ∧
   mixed_levels ref_levels [10; 11] 1 false [2] (Some inc) (Some bad) []
   = mixed_levels ref_levels [10; 11] 1 false [] (Some inc) (Some bad) []) ∧
  (district_geom broken_target = Some bad ∧
   difference bad inc = Raise GEOSException ∧
   difference_or_empty (Some bad) (Some inc) = Ok e ∧
   subtract_incremental broken_target (Some inc)
   = Ok (District_with_geom broken_target None None)) ∧
  (union bad inc = Raise GEOSException ∧
   union_or_absent bad (Some inc) = Ok None ∧
   merge_incremental broken_target (Some inc)
   = Ok (District_with_geom broken_target None None)).
Proof.
  intros bad inc e.
  destruct (guarded_failures_recovered ref_levels) as (Hin & Hout & Hsub & Hmerge).
  split; [split; [|split]; reflexivity|].
  split; [split; [reflexivity|]|split; [split; [reflexivity|]|split; [do 2 (split; [reflexivity|])|split; [reflexivity|]]]].
  - exact (Hin [10; 11] 1 2 [] (Some inc) bad [] None inc e
               eq_refl eq_refl eq_refl eq_refl eq_refl eq_refl).
  - exact (Hout [10; 11] 1 2 [] inc bad [] None inc e
               eq_refl eq_refl eq_refl (or_introl eq_refl) eq_refl eq_refl).
  - exact (Hsub broken_target bad inc e eq_refl eq_refl eq_refl eq_refl eq_refl).
  - exact (Hmerge broken_target bad inc eq_refl eq_refl).
Defined.

(** C7, the claim as stated fails. An empty line string is false;
    [enforce_multi] returns it as it is, a line string, where the
    specification gives the canonical empty geometry; and an absent
    geometry stays absent. *)
Lemma enforce_multi_counterexample :
  let line := mkShape LineString 3785 [] true in
  enforce_multi (Some line) = Ok (Some line) ∧
  toMultiRegion line = Ok (Some (mkShape GeometryCollection 3785 [] true)) ∧
  enforce_multi (Some line) ≠ toMultiRegion line ∧
  @enforce_multi engine None = Ok None.
Proof.
  intros line. split; [reflexivity|]. split; [reflexivity|].
  split; [|reflexivity]. intros Heq. vm_compute in Heq. discriminate Heq.
Qed.

Lemma is_latest_version_unattached_raises_witness :
  let d := @mkDistrict engine None 0 "District 2" None None None 1 in
  district_plan d = None ∧
  is_latest_version d db_edited = (Raise DoesNotExist, db_edited).
Proof.
  intros d. split; [reflexivity|].
  exact (is_latest_version_unattached_raises d db_edited eq_refl).
Defined.


(** A second plan under the name of a stored one is refused. *)
Example Plan_save_name_taken :
  Plan_save ref (Plan_init "p") db_edited = (Raise IntegrityError, db_edited).
Proof. vm_compute. reflexivity. Qed.






End RasterRuns.

(** ** More statements on the raster engine *)

Section MoreRasterRuns.
Import Grid.
#[local] Existing Instance engine.

Ltac elem_cases' H :=
  repeat (apply elem_of_cons in H as [->|H]); [..|by apply not_elem_of_nil in H].

Lemma db_full_well_formed : well_formed db_full.
Proof.
  split; [|split; [|split]]; simpl.
  - apply NoDup_singleton.
  - repeat constructor. exists 1. split; [done|lia].
  - repeat constructor. exists 1. split; [done|lia].
  - repeat constructor; eexists; (split; [done|lia]).
Qed.

Lemma db_full_numbers_fit : numbers_fit db_full.
Proof. constructor; [reflexivity|constructor]. Qed.

Lemma moved_run :
  add_geounits ref plan0 2 [1; 2] 1 0 db_full
  = (Ok (2, mkPlan (Some 1) "p" 1), snd moved).
Proof. vm_compute. reflexivity. Qed.

Lemma add_geounits_keeps_earlier_versions_witness :
  1 ≤ plan_version plan1 ∧
  (get_districts_at_version plan1 1
     (add_geounits ref plan1 2 [1; 2] 1 0 db_edited).2).1
  = (get_districts_at_version plan1 1 db_edited).1.
Proof.
  assert (1 ≤ plan_version plan1) as HV by (simpl; lia).
  split; [exact HV|].
  exact (add_geounits_keeps_earlier_versions ref plan1 2 [1; 2] 1 0 db_edited 1 HV).
Defined.

Lemma add_geounits_keeps_statistics_witness :
  well_formed db_full ∧ NoDup (subject_rows ref) ∧
  add_geounits ref plan0 2 [1; 2] 1 0 db_full
    = (Ok (2, mkPlan (Some 1) "p" 1), snd moved) ∧
  well_formed (snd moved) ∧
  ∀ d, d ∈ district_rows db_full →
       d ∈ district_rows (snd moved) ∧
       ∀ S, aggregate (snd moved) d S = aggregate db_full d S.
Proof.
  assert (NoDup (subject_rows ref)) as Hnd by apply NoDup_singleton.
  split; [exact db_full_well_formed|]. split; [exact Hnd|]. split; [exact moved_run|].
  exact (add_geounits_keeps_statistics ref plan0 2 [1; 2] 1 0 db_full 2
           (mkPlan (Some 1) "p" 1) (snd moved) db_full_well_formed Hnd moved_run).
Defined.

Lemma delta_stats_round_trip_witness :
  let units := [mkUnitRef 1 (region [1]); mkUnitRef 2 (region [2])] in
  well_formed db_full ∧ numbers_fit db_full ∧ NoDup (subject_rows ref) ∧
  district_pk unassigned_full = Some 1 ∧ 1 < district_seq db_full ∧
  delta_fits ref db_full 1 units true (subject_rows ref) ∧
  ∃ db1 db2,
    delta_stats ref unassigned_full units true db_full
    = (Ok (stats_change ref units), db1) ∧
    delta_stats ref unassigned_full units (negb true) db1
    = (Ok (stats_change ref units), db2) ∧
    well_formed db2 ∧
    district_rows db2 = district_rows db_full ∧
    ∀ k' S, aggregate_of db2 k' S = aggregate_of db_full k' S.
Proof.
  intros units.
  assert (NoDup (subject_rows ref)) as Hnd by apply NoDup_singleton.
  assert (1 < district_seq db_full) as Hlt by (simpl; lia).
  assert (delta_fits ref db_full 1 units true (subject_rows ref)) as Hfit.
  { intros S HS _. cbv in HS. elem_cases' HS. vm_compute. reflexivity. }
  split; [exact db_full_well_formed|]. split; [exact db_full_numbers_fit|].
  split; [exact Hnd|]. split; [reflexivity|]. split; [exact Hlt|]. split; [exact Hfit|].
  exact (delta_stats_round_trip ref unassigned_full 1 units true db_full
           db_full_well_formed db_full_numbers_fit Hnd eq_refl Hlt Hfit).
Defined.

Lemma clone_characteristics_from_copies_witness :
  well_formed db_full ∧ numbers_fit db_full ∧ district_pk district_empty = Some 2 ∧
  2 < district_seq db_full ∧
  ∃ db',
    clone_characteristics_from ref district_empty unassigned_full db_full = (Ok tt, db') ∧
    well_formed db' ∧
    district_rows db' = district_rows db_full ∧
    computed_rows db'
    = computed_rows db_full
      ++ clones (computed_seq db_full) 2 (computed_of ref db_full unassigned_full) ∧
    (∀ S, aggregate_of db' 2 S
          = if bool_decide (rows_for db_full 2 S = [])
            then aggregate db_full unassigned_full S else aggregate_of db_full 2 S) ∧
    (∀ k S, k ≠ 2 → rows_for db' k S = rows_for db_full k S).
Proof.
  assert (2 < district_seq db_full) as Hlt by (simpl; lia).
  split; [exact db_full_well_formed|]. split; [exact db_full_numbers_fit|].
  split; [reflexivity|]. split; [exact Hlt|].
  exact (clone_characteristics_from_copies ref district_empty unassigned_full 2 db_full
           db_full_well_formed db_full_numbers_fit eq_refl Hlt).
Defined.

Lemma District_save_fresh_id_witness :
  let d := @mkDistrict engine None 0 "District 2" (Some 1) None None 1 in
  let c := @mkDistrict engine (Some 4) 3 "District 2" (Some 1) None None 1 in
  district_id d = 0 ∧
  District_save ref d db_edited = (Ok c, (District_save ref d db_edited).2) ∧
  district_id c ≤ MAX_DISTRICTS ref + 1 ∧
  ∀ s, s ∈ district_rows db_edited → district_plan s = district_plan d →
       district_id s < district_id c.
Proof.
  intros d c.
  assert (District_save ref d db_edited = (Ok c, (District_save ref d db_edited).2))
    as Hrun by (vm_compute; reflexivity).
  split; [reflexivity|]. split; [exact Hrun|].
  exact (District_save_fresh_id ref d c db_edited _ eq_refl Hrun).
Defined.

Lemma is_latest_version_attached_witness :
  district_plan unassigned_full = Some 1 ∧
  match stored_plan db_edited 1 with
  | Some _ =>
      ∃ b, is_latest_version unassigned_full db_edited = (Ok b, db_edited) ∧
           (b = true ↔
            (∃ s, s ∈ district_rows db_edited ∧ district_plan s = Some 1 ∧
                  district_id s = district_id unassigned_full ∧
                  district_version s = district_version unassigned_full) ∧
            (∀ s, s ∈ district_rows db_edited → district_plan s = Some 1 →
                  district_id s = district_id unassigned_full →
                  district_version s ≤ district_version unassigned_full))
  | None => is_latest_version unassigned_full db_edited = (Raise DoesNotExist, db_edited)
  end.
Proof.
  split; [reflexivity|].
  exact (is_latest_version_attached unassigned_full 1 db_edited eq_refl).
Defined.

Lemma get_districts_at_version_between_witness :
  (∀ d, d ∈ snapshots_of db_edited plan1 →
        district_version d ≤ 5 → district_version d ≤ 1) ∧
  1 ≤ 5 ∧
  get_districts_at_version plan1 5 db_edited = get_districts_at_version plan1 1 db_edited.
Proof.
  assert (∀ d, d ∈ snapshots_of db_edited plan1 →
               district_version d ≤ 5 → district_version d ≤ 1) as Hno.
  { intros d Hd _. cbv in Hd. elem_cases' Hd; simpl; lia. }
  assert (1 ≤ 5) as HV by lia.
  split; [exact Hno|]. split; [exact HV|].
  exact (get_districts_at_version_between plan1 1 5 db_edited Hno HV).
Defined.

Lemma get_districts_at_version_before_first_witness :
  (∀ d, d ∈ snapshots_of db_edited plan1 → -1 < district_version d) ∧
  get_districts_at_version plan1 (-1) db_edited = (Ok [], db_edited).
Proof.
  assert (∀ d, d ∈ snapshots_of db_edited plan1 → -1 < district_version d) as Hall.
  { intros d Hd. cbv in Hd. elem_cases' Hd; simpl; lia. }
  split; [exact Hall|].
  exact (get_districts_at_version_before_first plan1 (-1) db_edited Hall).
Defined.

Lemma get_mixed_geounits_base_level_witness :
  let b := region [1; 3] in
  BASE_GEOLEVEL ref ∈ geolevel_rows ref ∧ [1; 2] ≠ @nil Z ∧
  truthy (Some b) = true ∧
  get_mixed_geounits ref [1; 2] (BASE_GEOLEVEL ref) (Some b) true
  = Ok (unit_of
        <$> filter (λ u, geounit_id u ∈ [1; 2]
                         ∧ st_intersects (geounit_center u) (simplify b) = true)
              (geounit_rows ref)).
Proof.
  intros b.
  assert (BASE_GEOLEVEL ref ∈ geolevel_rows ref) as Hbase by (simpl; left).
  assert ([1; 2] ≠ @nil Z) as Hids by done.
  split; [exact Hbase|]. split; [exact Hids|]. split; [reflexivity|].
  exact (get_mixed_geounits_base_level ref [1; 2] b true Hbase Hids eq_refl).
Defined.

Lemma get_mixed_geounits_never_coarser_witness :
  let b := Some (region [1; 2; 3; 4]) in
  let units := units_of (get_mixed_geounits ref_levels [10] 1 b true) in
  get_mixed_geounits ref_levels [10] 1 b true = Ok units ∧
  ∀ r, r ∈ units →
    ∃ u, u ∈ geounit_rows ref_levels ∧ r = unit_of u ∧
         (geounit_id u ∈ [10] ∨
          (1 < geounit_geolevel u ∧ geounit_geolevel u ∈ geolevel_rows ref_levels)).
Proof.
  intros b units.
  assert (get_mixed_geounits ref_levels [10] 1 b true = Ok units) as Hrun
    by (vm_compute; reflexivity).
  split; [exact Hrun|].
  exact (get_mixed_geounits_never_coarser ref_levels [10] 1 b true units Hrun).
Defined.

Lemma get_mixed_geounits_unknown_level_witness :
  let b := Some (region [1; 2; 3; 4]) in
  (0 ∉ geolevel_rows ref_levels) ∧
  (truthy b = true ∨ true = false) ∧
  get_mixed_geounits ref_levels [10] 0 b true
  = if bool_decide (Exists (λ l, 0 < l) (geolevel_rows ref_levels))
    then Raise AttributeError else Ok [].
Proof.
  intros b.
  assert (0 ∉ geolevel_rows ref_levels) as Hnot
    by (apply (bool_decide_unpack _); vm_compute; exact I).
  assert (truthy b = true ∨ true = false) as Hcase by (left; reflexivity).
  split; [exact Hnot|]. split; [exact Hcase|].
  exact (get_mixed_geounits_unknown_level ref_levels [10] 0 b true Hnot Hcase).
Defined.

Lemma add_geounits_target_at_new_version_witness :
  let self' := mkPlan (Some 1) "p" 1 in
  2 ≠ 0 ∧
  add_geounits ref plan0 2 [1; 2] 1 0 db_full = (Ok (2, self'), snd moved) ∧
  plan_version self' = plan_version plan0 + 1 ∧
  ∃ r t,
    get_districts_at_version self' (plan_version self') (snd moved)
    = (Ok r, snd moved) ∧
    t ∈ r ∧ district_id t = 2 ∧ district_version t = plan_version self'.
Proof.
  intros self'.
  assert (2 ≠ 0) as Hnz by lia.
  split; [exact Hnz|]. split; [exact moved_run|].
  exact (add_geounits_target_at_new_version ref plan0 2 [1; 2] 1 0 db_full 2 self'
           (snd moved) Hnz moved_run).
Defined.

Lemma Plan_save_then_get_witness :
  (∀ q, q ∈ plan_rows db0 → plan_pk q ≠ Some (plan_seq db0)) ∧
  Plan_save ref (Plan_init "p") db0 = (Ok created_plan, snd created) ∧
  ∃ k, plan_pk created_plan = Some k ∧
       Plan_get k (snd created) = (Ok created_plan, snd created) ∧
       plan_name created_plan = plan_name (Plan_init "p") ∧
       plan_version created_plan = plan_version (Plan_init "p").
Proof.
  assert (∀ q, q ∈ plan_rows db0 → plan_pk q ≠ Some (plan_seq db0)) as Hfresh.
  { intros q Hq. by apply not_elem_of_nil in Hq. }
  assert (Plan_save ref (Plan_init "p") db0 = (Ok created_plan, snd created)) as Hrun
    by (vm_compute; reflexivity).
  split; [exact Hfresh|]. split; [exact Hrun|].
  exact (Plan_save_then_get ref (Plan_init "p") created_plan db0 (snd created)
           Hfresh Hrun).
Defined.

End MoreRasterRuns.

(** ** Statements on names, run *)

Section NameRuns.
Import Grid.
#[local] Existing Instance engine.

Lemma sortKey_returns_witness :
  ascii_only (district_name (named "District 7")) = true ∧
  ∃ key, sortKey (named "District 7") = Returns key ∧
         (isdigit key = true → (3 ≤ String.length key)%nat).
Proof.
  assert (ascii_only (district_name (named "District 7")) = true) as Hascii
    by reflexivity.
  split; [exact Hascii|].
  exact (sortKey_returns (named "District 7") Hascii).
Defined.

Lemma sortKey_numbered_order_witness :
  (2 < 10)%nat ∧ (10 < 1000)%nat ∧
  ∃ k1 k2, sortKey (named "District 2") = Returns k1 ∧
           sortKey (named "District 10") = Returns k2 ∧
           String.ltb k1 k2 = true.
Proof.
  assert (2 < 10)%nat as Hab by lia.
  assert (10 < 1000)%nat as Hb by lia.
  split; [exact Hab|]. split; [exact Hb|].
  exact (sortKey_numbered_order (named "District 2") (named "District 10") 2 10
           eq_refl eq_refl Hab Hb).
Defined.

Lemma sortKey_order_breaks_witness :
  (200 ≤ 999 < 1000)%nat ∧ (1000 ≤ 1000 < 2000)%nat ∧
  ∃ k1 k2, sortKey (named "District 999") = Returns k1 ∧
           sortKey (named "District 1000") = Returns k2 ∧
           String.length k2 = 4%nat ∧ String.ltb k2 k1 = true.
Proof.
  assert (200 ≤ 999 < 1000)%nat as Ha by lia.
  assert (1000 ≤ 1000 < 2000)%nat as Hb by lia.
  split; [exact Ha|]. split; [exact Hb|].
  exact (sortKey_order_breaks (named "District 999") (named "District 1000") 999 1000
           eq_refl eq_refl Ha Hb).
Defined.

End NameRuns.

(** ** Statements on the features, run *)

Section FeatureRuns.
Import Grid.
#[local] Existing Instance engine.

Lemma moved_unique_snapshots :
  unique_snapshots (snapshots_of (snd moved) (mkPlan (Some 1) "p" 1)).
Proof.
  apply NoDup_unique_snapshots, (bool_decide_unpack _). vm_compute. exact I.
Qed.

Lemma moved_features :
  get_wfs_districts Z string id Returns (λ _, "{}") (mkPlan (Some 1) "p" 1) 1 1 (snd moved)
  = Returns [mkFeature Z string (Some 3) 1 "Unassigned" 1 200 "{}";
             mkFeature Z string (Some 4) 2 "District 1" 1 250 "{}"].
Proof. vm_compute. reflexivity. Qed.

Lemma get_wfs_districts_agrees_witness :
  let self := mkPlan (Some 1) "p" 1 in
  let fs := [mkFeature Z string (Some 3) 1 "Unassigned" 1 200 "{}";
             mkFeature Z string (Some 4) 2 "District 1" 1 250 "{}"] in
  unique_snapshots (snapshots_of (snd moved) self) ∧
  get_wfs_districts Z string id Returns (λ _, "{}") self 1 1 (snd moved) = Returns fs ∧
  ∃ r, get_districts_at_version self 1 (snd moved) = (Ok r, snd moved) ∧
       ∀ f, f ∈ fs ↔
            ∃ d c geom g,
              d ∈ r ∧ c ∈ computed_rows (snd moved) ∧
              sql_eq (district_pk d) (cc_district c) = true ∧ cc_subject c = 1 ∧
              district_simple d = Some geom ∧
              Returns "{}" = Returns g ∧
              f = feature_of Z string id d c g.
Proof.
  intros self fs.
  split; [exact moved_unique_snapshots|]. split; [exact moved_features|].
  exact (get_wfs_districts_agrees Z string id Returns (λ _, "{}") self 1 1 (snd moved)
           fs moved_unique_snapshots moved_features).
Defined.

Lemma get_wfs_districts_no_simple_witness :
  let self := mkPlan (Some 1) "p" 1 in
  let db := (add_geounits ref plan0 2 [1; 2; 3] 1 0 db_full).2 in
  let r := districts_at_version (snapshots_of db self) 1 in
  let d := @mkDistrict engine (Some 3) 1 "Unassigned" (Some 1) None None 1 in
  let c := mkComputed (Some 2) 1 (Some 3) 0 in
  (∀ geom : Geometry, ∃ g, Returns "{}" = Returns g) ∧
  get_districts_at_version self 1 db = (Ok r, db) ∧
  d ∈ r ∧ district_simple d = None ∧ c ∈ computed_rows db ∧
  sql_eq (district_pk d) (cc_district c) = true ∧ cc_subject c = 1 ∧
  get_wfs_districts Z string id Returns (λ _, "{}") self 1 1 db = Raises TypeError.
Proof.
  intros self db r d c.
  assert (∀ geom : Geometry, ∃ g, @Returns string "{}" = Returns g) as Hjson
    by (intros _; by exists "{}").
  assert (get_districts_at_version self 1 db = (Ok r, db)) as Hr by reflexivity.
  assert (d ∈ r) as Hd by (vm_compute; right; left).
  assert (c ∈ computed_rows db) as Hc by (vm_compute; right; left).
  split; [exact Hjson|]. split; [exact Hr|]. split; [exact Hd|].
  split; [reflexivity|]. split; [exact Hc|]. split; [reflexivity|].
  split; [reflexivity|].
  exact (get_wfs_districts_no_simple Z string id Returns (λ _, "{}") self 1 1 db r d c
           Hjson Hr Hd eq_refl Hc eq_refl eq_refl).
Defined.

End FeatureRuns.

(** ** The statement on the calculators, run *)

Section CalculatorRuns.
Import Grid calculators.
#[local] Existing Instance engine.

Lemma args_first_two (n : nat) :
  (1 ≤ n ≤ 2)%nat →
  is_Some (args_gap !! value n) ∧ args_first !! value n = args_gap !! value n.
Proof.
  intros Hn. assert (n = 1 ∨ n = 2)%nat as [-> | ->] by lia.
  - split; [by exists ("literal", "1")|]. vm_compute. reflexivity.
  - split; [by exists ("literal", "2")|]. vm_compute. reflexivity.
Qed.

Lemma Sum_compute_stops_at_gap_witness :
  let kwargs := mkKwargs (Some (Some unassigned_full)) None in
  (∀ n, 1 ≤ n ≤ 2 →
        is_Some (args_gap !! value n) ∧ args_first !! value n = args_gap !! value n)%nat ∧
  args_gap !! value (2 + 1) = None ∧ args_first !! value (2 + 1) = None ∧
  ∃ out, Sum_compute ref (λ _, "pop") Z float_whole add_whole args_gap kwargs db_full None
         = Some out ∧
         Sum_compute ref (λ _, "pop") Z float_whole add_whole args_first kwargs db_full None
         = Some out.
Proof.
  intros kwargs.
  assert (args_gap !! value (2 + 1) = None) as Hgap by (vm_compute; reflexivity).
  assert (args_first !! value (2 + 1) = None) as Hgap' by (vm_compute; reflexivity).
  split; [exact args_first_two|]. split; [exact Hgap|]. split; [exact Hgap'|].
  exact (Sum_compute_stops_at_gap ref (λ _, "pop") Z float_whole add_whole args_gap args_first
           kwargs db_full None 2 args_first_two Hgap Hgap').
Defined.

End CalculatorRuns.

(** ** The statement on an edit at an earlier version, run *)

Section RevertRuns.
Import Grid.
#[local] Existing Instance engine.

Lemma db_edited_versions (s : District) :
  s ∈ snapshots_of db_edited plan1 → district_version s ≤ plan_version plan1.
Proof.
  intros Hs. cbv in Hs.
  repeat (apply elem_of_cons in Hs as [->|Hs]); [simpl; lia..|].
  by apply not_elem_of_nil in Hs.
Qed.

Lemma db_edited_ids (s : District) : s ∈ district_rows db_edited → district_id s ≠ 0.
Proof.
  intros Hs. cbv in Hs.
  repeat (apply elem_of_cons in Hs as [->|Hs]); [simpl; lia..|].
  by apply not_elem_of_nil in Hs.
Qed.

Lemma reverted_run :
  add_geounits ref plan1 2 [1; 2] 1 0 db_edited
  = (Ok (2, mkPlan (Some 1) "p" 2), snd reverted).
Proof. vm_compute. reflexivity. Qed.

Lemma add_geounits_brings_back_witness :
  let d := @mkDistrict engine (Some 1) 1 "Unassigned" (Some 1)
             (Some (region [3])) (Some (region [3])) 0 in
  unique_snapshots (snapshots_of db_edited plan1) ∧
  (∀ s, s ∈ snapshots_of db_edited plan1 → district_version s ≤ plan_version plan1) ∧
  (∀ s, s ∈ district_rows db_edited → district_id s ≠ 0) ∧
  add_geounits ref plan1 2 [1; 2] 1 0 db_edited
    = (Ok (2, mkPlan (Some 1) "p" 2), snd reverted) ∧
  d ∈ districts_at_version (snapshots_of db_edited plan1) 0 ∧
  district_id d ≠ 2 ∧
  touches (district_geom d) (incremental_of ref [1; 2]) = Ok false ∧
  ∃ r c,
    get_districts_at_version (mkPlan (Some 1) "p" 2) 2 (snd reverted)
    = (Ok r, snd reverted) ∧
    c ∈ r ∧ district_id c = district_id d ∧ district_name c = district_name d ∧
    district_geom c = district_geom d ∧ district_simple c = district_simple d.
Proof.
  intros d.
  assert (d ∈ districts_at_version (snapshots_of db_edited plan1) 0) as Hd
    by (vm_compute; first [left|right; left|do 2 right; left]).
  assert (district_id d ≠ 2) as Hne by (simpl; lia).
  assert (touches (district_geom d) (incremental_of ref [1; 2]) = Ok false) as Hf
    by (vm_compute; reflexivity).
  split; [exact db_edited_unique_snapshots|]. split; [exact db_edited_versions|].
  split; [exact db_edited_ids|]. split; [exact reverted_run|].
  split; [exact Hd|]. split; [exact Hne|]. split; [exact Hf|].
  exact (add_geounits_brings_back ref plan1 2 [1; 2] 1 0 db_edited 2
           (mkPlan (Some 1) "p" 2) (snd reverted) d db_edited_unique_snapshots
           db_edited_versions db_edited_ids reverted_run Hd Hne Hf).
Defined.

End RevertRuns.
